(** * The tandas daemon: store, synchronizer, watchers and request server

    A shallow embedding of the Go daemon (packages [db], [sync], [watch] and
    [rpc]) and the properties its specification states about it.

    Conventions of the embedding.
    - Go strings and byte slices are [string]s; a Go [int] is a [Z].
    - A Go slice is an [option (list A)]: [None] is the [nil] slice, and
      [Some []] is an empty slice that is not [nil].
    - A Go [error] is the text of its message; a function returning only an
      [error] returns an [option error], where [None] is [nil].
    - The file system, the standard output and the wall clock form an
      explicit [World] threaded through every operation.  Each change of the
      file system is also recorded in [seen], so that what a concurrent
      reader could have observed during an operation can be stated.
    - [encoding/json] and the parsing and printing of durations are
      parameters, given as type classes; a reference instance is provided
      to run the model on concrete inputs.  Of the other library functions
      the daemon calls ([bufio.Scanner], [filepath], timers, channels) the
      behaviour the daemon relies on is written out. *)

From Stdlib Require Import ZArith QArith String Ascii List.
From stdpp Require Import base option gmap strings list sorting pretty.

Open Scope string_scope.
Open Scope Z_scope.

(** ** Go values and standard-library functions *)

Module go.

Definition error := string.

(** A value or an error: the pair [(v, err)] a Go function returns. *)
Inductive result (A : Type) : Type :=
| Ok (a : A)
| Err (e : error).
Arguments Ok {A} a.
Arguments Err {A} e.

(** [fmt.Errorf("msg: %w", err)]. *)
Definition wrap (msg : string) (err : error) : error := msg ++ ": " ++ err.

Abbreviation slice A := (option (list A)).

Definition elems {A : Type} (s : slice A) : list A := default [] s.

(** [len(s)]; the length of the [nil] slice is 0. *)
Definition len {A : Type} (s : slice A) : Z := Z.of_nat (length (elems s)).

(** [encoding/json] at one Go type.  [Marshal] is [json.Marshal];
    [Unmarshal data] is [json.Unmarshal(data, &v)] on a zero-valued [v]: the
    value [v] holds afterwards, and the error returned. *)
Class Json (A : Type) : Type := {
  Marshal : A → result string;
  Unmarshal : string → A * option error
}.

(** [json.MarshalIndent(v, prefix, indent)]. *)
Class JsonIndent (A : Type) : Type := {
  MarshalIndent : A → string → string → result string
}.

(** [data, _ := json.Marshal(v); string(data)]: the error is dropped and a
    failed call contributes no bytes. *)
Definition marshal_text `{Json A} (v : A) : string :=
  match Marshal v with
  | Ok data => data
  | Err _ => ""
  end.

(** A channel of type [chan struct{}] that is only ever closed: whether it
    has been.  Closing it again panics. *)
Record chan : Type := { closed : bool }.

Definition make_chan : chan := {| closed := false |}.

(** How a call ends: it returns, or it panics with a message. *)
Inductive outcome (A : Type) : Type :=
| Returns (a : A)
| Panics (msg : string).
Arguments Returns {A} a.
Arguments Panics {A} msg.

(** [close(c)]. *)
Definition close (c : chan) : outcome chan :=
  if closed c then Panics "close of closed channel"
  else Returns {| closed := true |}.

(** [time.Duration] counts nanoseconds. *)
Definition Millisecond : Z := 1000000.

(** The newline and carriage-return bytes. *)
Definition LF : ascii := "010"%char.
Definition CR : ascii := "013"%char.
Definition newline : string := String LF "".

End go.

Export go.

(** ** Package filepath, on slash-separated paths *)

Module filepath.

(** The path elements between the separators. *)
Fixpoint elements (path : string) : list string :=
  match path with
  | "" => [""]
  | String c rest =>
      if Ascii.eqb c "/" then "" :: elements rest
      else match elements rest with
           | [] => [String c ""]
           | e :: es => String c e :: es
           end
  end%string.

(** Whether the path is rooted. *)
Definition IsAbs (path : string) : bool :=
  match path with
  | String c _ => Ascii.eqb c "/"
  | "" => false
  end%string.

(** The elements [Clean] keeps, the last one first: empty elements and [.]
    are dropped, and [..] drops the element before it, is dropped itself at
    the root, and is kept where a relative path begins. *)
Fixpoint clean_elements (rooted : bool) (es kept : list string) : list string :=
  match es with
  | [] => kept
  | e :: es =>
      if decide (e = "" ∨ e = ".") then clean_elements rooted es kept
      else if decide (e = "..") then
        match kept with
        | k :: ks =>
            if decide (k = "..") then clean_elements rooted es (e :: kept)
            else clean_elements rooted es ks
        | [] => if rooted then clean_elements rooted es [] else clean_elements rooted es [e]
        end
      else clean_elements rooted es (e :: kept)
  end.

(** The kept elements, given the last one first, joined by separators. *)
Fixpoint render (kept : list string) : string :=
  match kept with
  | [] => ""
  | e :: before =>
      match before with
      | [] => e
      | _ => render before ++ "/" ++ e
      end
  end.

(** [filepath.Clean(path)]. *)
Definition Clean (path : string) : string :=
  let rooted := IsAbs path in
  match clean_elements rooted (elements path) [] with
  | [] => if rooted then "/" else "."
  | kept => (if rooted then "/" else "") ++ render kept
  end.

(** [filepath.Join(dir, name)]: empty arguments are ignored and the result
    is cleaned; it is empty when both are. *)
Definition Join (dir name : string) : string :=
  if decide (dir = "") then (if decide (name = "") then "" else Clean name)
  else if decide (name = "") then Clean dir
  else Clean (dir ++ "/" ++ name).

(** [filepath.Base(path)]: the last element, trailing separators removed;
    ["."] for the empty path and ["/"] for a path of separators only. *)
Definition Base (path : string) : string :=
  if decide (path = "") then "."
  else match reverse (filter (λ e, e ≠ "") (elements path)) with
       | e :: _ => e
       | [] => "/"
       end.

(** The path up to its last separator, which it includes. *)
Fixpoint through_last_separator (path : string) : string :=
  match path with
  | "" => ""
  | String c rest =>
      match through_last_separator rest with
      | "" => if Ascii.eqb c "/" then "/" else ""
      | kept => String c kept
      end
  end%string.

(** [filepath.Dir(path)]: the path without its last element, cleaned. *)
Definition Dir (path : string) : string := Clean (through_last_separator path).

End filepath.

(** ** Package os: the file system, standard output, and the clock *)

Module os.

Section World.

(** [T] is what a database file holds. *)
Context {T : Type}.

Inductive node : Type :=
| Regular (data : string)
| Socket
| Directory
| Database (content : T).

(** A [Database] node stands for the main file of a database together with
    the [-wal] and [-shm] files SQLite keeps beside it while it is open;
    these are no paths of their own in the model. *)

Record World : Type := {
  fs : gmap string node;
  seen : list (gmap string node);
  out : list string;
  now : Z
}.

(** Every file system change goes through [mutate], which records the
    new state as one a concurrent reader may observe. *)
Definition mutate (f : gmap string node → gmap string node) (w : World) : World :=
  let fs' := f (fs w) in
  {| fs := fs'; seen := fs' :: seen w; out := out w; now := now w |}.

(** [fmt.Printf] and [fmt.Println]: one entry per call. *)
Definition print (text : string) (w : World) : World :=
  {| fs := fs w; seen := seen w; out := out w ++ [text]; now := now w |}.

(** [os.Stat(path)] succeeds exactly on an existing path. *)
Definition exists_path (path : string) (w : World) : bool :=
  bool_decide (is_Some (fs w !! path)).

(** [os.Remove(path)], its error ignored as at every call site. *)
Definition Remove (path : string) (w : World) : World :=
  match fs w !! path with
  | Some _ => mutate (delete path) w
  | None => w
  end.

(** [os.Rename(oldpath, newpath)]: one step, which replaces [newpath]. *)
Definition Rename (oldpath newpath : string) (w : World) : World :=
  match fs w !! oldpath with
  | Some n => mutate (λ files, <[newpath := n]> (delete oldpath files)) w
  | None => w
  end.

(** A successful [os.WriteFile(path, data, 0644)]. *)
Definition WriteFile (path data : string) (w : World) : World :=
  mutate <[path := Regular data]> w.

(** A successful write of [data] at the end of the open regular file
    [path]. *)
Definition Append (path data : string) (w : World) : World :=
  match fs w !! path with
  | Some (Regular old) => mutate <[path := Regular (old ++ data)]> w
  | _ => w
  end.

(** [os.Open(path)] and what reading the file then gives: the bytes read
    and the error that ends the reading, if it is not the end of the file.
    A directory can be opened, and the first read of it fails.  The bytes of
    a database file are not part of the model: a path that holds a database
    is never read as text by the daemon, and the statements about reading
    exclude it. *)
Inductive opened : Type :=
| NotExist
| OpenError (e : error)
| Opened (data : string) (readErr : option error).

Definition Open (path : string) (w : World) : opened :=
  match fs w !! path with
  | None => NotExist
  | Some (Regular data) => Opened data None
  | Some Socket => OpenError ("open " ++ path ++ ": no such device or address")
  | Some Directory => Opened "" (Some ("read " ++ path ++ ": is a directory"))
  | Some (Database _) => OpenError ("open " ++ path ++ ": not a text file")
  end.

(** The contents of a regular file, as a reader of [path] sees them. *)
Definition read_file (path : string) (files : gmap string node) : option string :=
  match files !! path with
  | Some (Regular data) => Some data
  | _ => None
  end.

End World.

Arguments node : clear implicits.
Arguments World : clear implicits.

(** How [os.CreateTemp] joins its directory and the name it has made up:
    with a separator, unless the directory ends in one. *)
Fixpoint ends_in_separator (dir : string) : bool :=
  match dir with
  | "" => false
  | String c rest =>
      match rest with
      | "" => Ascii.eqb c "/"
      | _ => ends_in_separator rest
      end
  end%string.

Definition joinPath (dir name : string) : string :=
  if ends_in_separator dir then dir ++ name else dir ++ "/" ++ name.

End os.

(** ** Package db: the record type and the SQLite store *)

Module db.

(** [Note]: one note entry. *)
Record Note : Type := {
  NoteTimestamp : string;
  NoteType : string;
  NoteText : string
}.

(** [RunResult]: one test run. *)
Record RunResult : Type := {
  Timestamp : string;
  Result : string;
  Duration : string;
  Trace : string
}.

(** [Tanda]: a test in the registry. *)
Record Tanda : Type := {
  ID : string;
  Title : string;
  Status : string;
  File : string;
  Covers : slice string;
  DependsOn : slice string;
  Notes : slice Note;
  RunHistory : slice RunResult;
  CreatedAt : string;
  UpdatedAt : string
}.

(** [calculateFlakiness].  The [float64] quotient is kept as the exact
    rational it rounds. *)
Definition calculateFlakiness (history : slice RunResult) : Q :=
  if len history =? 0 then 0%Q
  else
    let window :=
      if len history >? 10
      then drop (Z.to_nat (len history - 10)) (elems history)
      else elems history in
    let failures :=
      fold_left (λ failures run,
                 if decide (Result run = "fail") then failures + 1 else failures)
                window 0 in
    (inject_Z failures / inject_Z (Z.of_nat (length window)))%Q.

(** A row of table [tandas], keyed by the [id] column.  The four collection
    columns hold JSON text; [file] may be NULL. *)
Record Row : Type := {
  title : string;
  status : string;
  file : option string;
  covers : string;
  depends_on : string;
  notes : string;
  run_history : string;
  flakiness_score : Q;
  last_run_at : string;
  last_run_result : string;
  created_at : string;
  updated_at : string
}.

Abbreviation table := (gmap string Row).
Abbreviation World := (os.World table).

(** [INSERT INTO tandas ... VALUES ... ON CONFLICT(id) DO UPDATE SET ...]:
    a new id takes the whole row; an existing id takes every column the SET
    clause lists, which leaves [created_at] as it was. *)
Definition insert_or_update (id : string) (excluded : Row) (t : table) : table :=
  match t !! id with
  | None => <[id := excluded]> t
  | Some old =>
      <[id := {| title := title excluded;
                 status := status excluded;
                 file := file excluded;
                 covers := covers excluded;
                 depends_on := depends_on excluded;
                 notes := notes excluded;
                 run_history := run_history excluded;
                 flakiness_score := flakiness_score excluded;
                 last_run_at := last_run_at excluded;
                 last_run_result := last_run_result excluded;
                 created_at := created_at old;
                 updated_at := updated_at excluded |}]> t
  end.

(** [ORDER BY updated_at DESC] under the BINARY collation. *)
Definition updated_desc (a b : string * Row) : Prop :=
  String.leb (updated_at b.2) (updated_at a.2).

#[global] Instance updated_desc_dec (a b : string * Row) : Decision (updated_desc a b).
Proof. unfold updated_desc. apply _. Defined.

Definition select_all (t : table) : list (string * Row) :=
  merge_sort updated_desc (map_to_list t).

(** [if s == nil { s = []T{} }]. *)
Definition non_nil {A : Type} (s : slice A) : slice A :=
  match s with
  | None => Some []
  | Some _ => s
  end.

(** [Store]: the handle on the database file at [path]. *)
Record Store : Type := { path : string }.

(** The error of a statement run on a path that holds no database. *)
Definition not_a_database : error := "file is not a database".

(** [s.db.Exec(stmt)] for a statement that rewrites the table. *)
Definition exec (s : Store) (stmt : table → table) (w : World) : option error * World :=
  match os.fs w !! path s with
  | Some (os.Database t) => (None, os.mutate <[path s := os.Database (stmt t)]> w)
  | _ => (Some not_a_database, w)
  end.

(** The error of a statement run on a path that SQLite cannot open as a
    file. *)
Definition unable_to_open : error := "unable to open database file".

(** [Open]: creates the database with an empty [tandas] table when the file
    is absent or empty ([CREATE TABLE IF NOT EXISTS]), and leaves the rows
    of an existing database.  The first statement, [PRAGMA journal_mode],
    fails on a file with other content and on what is no file. *)
Definition Open (path : string) (w : World) : result Store * World :=
  match os.fs w !! path with
  | None | Some (os.Regular "") =>
      (Ok {| path := path |}, os.mutate <[path := os.Database ∅]> w)
  | Some (os.Database _) => (Ok {| path := path |}, w)
  | Some (os.Regular _) => (Err (wrap "failed to enable WAL" not_a_database), w)
  | Some _ => (Err (wrap "failed to enable WAL" unable_to_open), w)
  end.

Section Store.

Context `{Json (slice string), Json (slice Note), Json (slice RunResult)}.

(** The values [UpsertTanda] binds to the statement. *)
Definition row_of (t : Tanda) : Row :=
  let coversJSON := marshal_text (Covers t) in
  let depsJSON := marshal_text (DependsOn t) in
  let notesJSON := marshal_text (Notes t) in
  let runHistoryJSON := marshal_text (RunHistory t) in
  let flakiness := calculateFlakiness (RunHistory t) in
  let '(lastRunAt, lastRunResult) :=
    if len (RunHistory t) >? 0
    then match last (elems (RunHistory t)) with
         | Some last => (Timestamp last, Result last)
         | None => ("", "")
         end
    else ("", "") in
  {| title := Title t; status := Status t; file := Some (File t);
     covers := coversJSON; depends_on := depsJSON; notes := notesJSON;
     run_history := runHistoryJSON; flakiness_score := flakiness;
     last_run_at := lastRunAt; last_run_result := lastRunResult;
     created_at := CreatedAt t; updated_at := UpdatedAt t |}.

(** [UpsertTanda]. *)
Definition UpsertTanda (s : Store) (t : Tanda) (w : World) : option error * World :=
  exec s (insert_or_update (ID t) (row_of t)) w.

(** One iteration of the [rows.Next()] loop of [GetAllTandas]. *)
Definition scan_row (id : string) (r : Row) : Tanda :=
  let t_File := match file r with Some text => text | None => "" end in
  let t_Covers := (Unmarshal (covers r)).1 in
  let t_DependsOn := (Unmarshal (depends_on r)).1 in
  let t_Notes := (Unmarshal (notes r)).1 in
  let t_RunHistory := (Unmarshal (run_history r)).1 in
  {| ID := id; Title := title r; Status := status r; File := t_File;
     Covers := non_nil t_Covers; DependsOn := non_nil t_DependsOn;
     Notes := non_nil t_Notes; RunHistory := non_nil t_RunHistory;
     CreatedAt := created_at r; UpdatedAt := updated_at r |}.

(** [GetAllTandas]. *)
Definition GetAllTandas (s : Store) (w : World) : result (list Tanda) :=
  match os.fs w !! path s with
  | Some (os.Database t) => Ok (map (λ kr, scan_row kr.1 kr.2) (select_all t))
  | _ => Err not_a_database
  end.

(** [DeleteTanda]. *)
Definition DeleteTanda (s : Store) (id : string) (w : World) : option error * World :=
  exec s (delete id) w.

(** [ClearAll]. *)
Definition ClearAll (s : Store) (w : World) : option error * World :=
  exec s (λ _, ∅) w.

End Store.

End db.

(** ** Package bufio: the line scanner *)

Module bufio.

Definition ErrTooLong : error := "bufio.Scanner: token too long".

(** The lines of [data] as [bufio.ScanLines] cuts them, before the carriage
    return is dropped: the text between newlines, and a last line without
    newline when it is not empty. *)
Fixpoint lines (data : string) : list string :=
  match data with
  | "" => []
  | String c rest =>
      if Ascii.eqb c LF then "" :: lines rest
      else match lines rest with
           | [] => [String c ""]
           | l :: ls => String c l :: ls
           end
  end%string.

(** [dropCR]: a line loses one trailing carriage return. *)
Fixpoint dropCR (line : string) : string :=
  match line with
  | "" => ""
  | String c rest =>
      match rest with
      | "" => if Ascii.eqb c CR then "" else line
      | _ => String c (dropCR rest)
      end
  end%string.

(** The tokens successive calls of [Scan] deliver, and [Err()] afterwards.
    A line must fit, with its newline, in a buffer of [maxTokenSize] bytes;
    the scanner stops with [ErrTooLong] at the first that does not. *)
Fixpoint tokens (maxTokenSize : Z) (raw : list string) : list string * option error :=
  match raw with
  | [] => ([], None)
  | l :: rest =>
      if maxTokenSize <=? Z.of_nat (String.length l) then ([], Some ErrTooLong)
      else let '(ts, err) := tokens maxTokenSize rest in (dropCR l :: ts, err)
  end.

Definition Scan (maxTokenSize : Z) (data : string) : list string * option error :=
  tokens maxTokenSize (lines data).

(** [scanner.Err()] after the last [Scan], on an input whose reading ended
    with [readErr]: the scanner's own error or else the error of the read.
    The scanner treats a failed read as the end of the input. *)
Definition scan_error (scanErr readErr : option error) : option error :=
  match scanErr with
  | Some err => Some err
  | None => readErr
  end.

End bufio.

(** ** Package sync: the synchronizer between the JSONL log and the store *)

Module sync.

Import db.

(** [Syncer]. *)
Record Syncer : Type := {
  store : Store;
  jsonlPath : string;
  lastSync : Z
}.

(** [New]; the zero time is 0. *)
Definition New (store : Store) (jsonlPath : string) : Syncer :=
  {| store := store; jsonlPath := jsonlPath; lastSync := 0 |}.

Definition set_lastSync (s : Syncer) (t : Z) : Syncer :=
  {| store := store s; jsonlPath := jsonlPath s; lastSync := t |}.

(** [LastSyncTime]. *)
Definition LastSyncTime (s : Syncer) : Z := lastSync s.

(** The system calls of [ExportToJSONL] that can fail, and what the
    operating system does at each during one call: [fails] gives the error
    of a failing call, and [random] the text [os.CreateTemp] puts in place
    of the [*] of its pattern. *)
Inductive call : Type :=
| CreateTemp
| Write (i : nat)
| WriteNewline (i : nat)
| Flush
| Close
| Rename.

Record Env : Type := {
  random : string;
  fails : call → option error
}.

(** "Initialize empty slices if nil": the four [if] statements of the
    scanning loop of [ImportFromJSONL]. *)
Definition init_slices (tanda : Tanda) : Tanda :=
  {| ID := ID tanda; Title := Title tanda; Status := Status tanda;
     File := File tanda;
     Covers := non_nil (Covers tanda);
     DependsOn := non_nil (DependsOn tanda);
     Notes := non_nil (Notes tanda);
     RunHistory := non_nil (RunHistory tanda);
     CreatedAt := CreatedAt tanda; UpdatedAt := UpdatedAt tanda |}.

Section Syncer.

Context `{Json Tanda, Json (slice string), Json (slice Note), Json (slice RunResult)}.

(** The body of the scanning loop of [ImportFromJSONL], for one line. *)
Definition import_line (s : Syncer) (lineNum : Z) (line : string) (w : World) : World :=
  if decide (line = "") then w
  else
    let '(tanda, err) := Unmarshal line in
    match err with
    | Some err =>
        os.print ("Warning: failed to parse line " ++ pretty lineNum ++ ": " ++ err ++ newline) w
    | None =>
        let tanda := init_slices tanda in
        match UpsertTanda (store s) tanda w with
        | (Some err, w) =>
            os.print ("Warning: failed to upsert tanda " ++ ID tanda ++ ": " ++ err ++ newline) w
        | (None, w) => w
        end
    end.

(** The scanning loop: [lineNum] counts the lines read so far. *)
Fixpoint import_lines (s : Syncer) (lineNum : Z) (lines : list string) (w : World) : World :=
  match lines with
  | [] => w
  | line :: rest =>
      let lineNum := lineNum + 1 in
      import_lines s lineNum rest (import_line s lineNum line w)
  end.

(** [ImportFromJSONL]. *)
Definition ImportFromJSONL (s : Syncer) (w : World) : option error * Syncer * World :=
  match os.Open (jsonlPath s) w with
  | os.NotExist => (None, s, w)
  | os.OpenError err => (Some (wrap "failed to open JSONL" err), s, w)
  | os.Opened data readErr =>
      match ClearAll (store s) w with
      | (Some err, w) => (Some (wrap "failed to clear database" err), s, w)
      | (None, w) =>
          let '(lines, scanErr) := bufio.Scan (1024 * 1024) data in
          let w := import_lines s 0 lines w in
          match bufio.scan_error scanErr readErr with
          | Some err => (Some (wrap "error reading JSONL" err), s, w)
          | None => (None, set_lastSync s (os.now w), w)
          end
      end
  end.

(** [os.CreateTemp(dir, "issues-*.jsonl.tmp")]: the file is created only if
    the name is free. *)
Definition tmpPath (env : Env) (dir : string) : string :=
  os.joinPath dir ("issues-" ++ random env ++ ".jsonl.tmp").

Definition createTemp (env : Env) (dir : string) (w : World) : result string * World :=
  match fails env CreateTemp with
  | Some err => (Err err, w)
  | None =>
      let name := tmpPath env dir in
      if os.exists_path name w then (Err ("open " ++ name ++ ": file exists"), w)
      else (Ok name, os.mutate <[name := os.Regular ""]> w)
  end.

(** The loop over [tandas] of [ExportToJSONL]: the bytes the buffered writer
    holds after it, or the error of the first call that fails.  The writer
    keeps every byte until [Flush], which writes them to the file. *)
Fixpoint write_tandas (env : Env) (i : nat) (tandas : list Tanda) (buffered : string) : result string :=
  match tandas with
  | [] => Ok buffered
  | t :: rest =>
      match Marshal t with
      | Err err => Err (wrap ("failed to marshal tanda " ++ ID t) err)
      | Ok data =>
          match fails env (Write i) with
          | Some err => Err (wrap ("failed to write tanda " ++ ID t) err)
          | None =>
              match fails env (WriteNewline i) with
              | Some err => Err (wrap "failed to write newline" err)
              | None => write_tandas env (S i) rest (buffered ++ data ++ newline)
              end
          end
      end
  end.

(** [ExportToJSONL]. *)
Definition ExportToJSONL (env : Env) (s : Syncer) (w : World) : option error * Syncer * World :=
  match GetAllTandas (store s) w with
  | Err err => (Some (wrap "failed to get tandas" err), s, w)
  | Ok tandas =>
      let dir := filepath.Dir (jsonlPath s) in
      match createTemp env dir w with
      | (Err err, w) => (Some (wrap "failed to create temp file" err), s, w)
      | (Ok tmpPath, w) =>
          match write_tandas env 0 tandas "" with
          | Err err => (Some err, s, os.Remove tmpPath w)
          | Ok buffered =>
              match fails env Flush with
              | Some err => (Some (wrap "failed to flush" err), s, os.Remove tmpPath w)
              | None =>
                  let w := os.Append tmpPath buffered w in
                  match fails env Close with
                  | Some err =>
                      (Some (wrap "failed to close temp file" err), s, os.Remove tmpPath w)
                  | None =>
                      match fails env Rename with
                      | Some err => (Some (wrap "failed to rename" err), s, os.Remove tmpPath w)
                      | None =>
                          let w := os.Rename tmpPath (jsonlPath s) w in
                          (None, set_lastSync s (os.now w), w)
                      end
                  end
              end
          end
      end
  end.

End Syncer.

End sync.

(** ** Package fsnotify: events and the watcher's channels *)

Module fsnotify.

(** The bits of [Op]. *)
Definition Create : Z := 1.
Definition Write : Z := 2.
Definition Remove : Z := 4.
Definition Rename : Z := 8.
Definition Chmod : Z := 16.

Record Event : Type := {
  Name : string;
  Op : Z
}.

(** [fsnotify.Watcher]: whether [Close] has closed its [Events] and [Errors]
    channels. *)
Record Watcher : Type := { channels_closed : bool }.

Definition Close (w : Watcher) : Watcher := {| channels_closed := true |}.

End fsnotify.

(** ** Package watch: the debounced file watcher and the trace watcher *)

Module watch.

(** [Watcher].  The callback is not a field: the times at which it is run
    are recorded in [calls] below. *)
Record Watcher : Type := {
  watcher : fsnotify.Watcher;
  filePath : string;
  done : chan;
  debounce : Z
}.

(** [New], when the directory can be watched. *)
Definition New (filePath : string) : Watcher :=
  {| watcher := {| fsnotify.channels_closed := false |};
     filePath := filePath;
     done := make_chan;
     debounce := 500 * Millisecond |}.

(** [SetDebounce]. *)
Definition SetDebounce (w : Watcher) (d : Z) : Watcher :=
  {| watcher := watcher w; filePath := filePath w; done := done w; debounce := d |}.

(** [Stop]: [close(w.done)], then [w.watcher.Close()]. *)
Definition Stop (w : Watcher) : outcome Watcher :=
  match close (done w) with
  | Panics msg => Panics msg
  | Returns done =>
      Returns {| watcher := fsnotify.Close (watcher w); filePath := filePath w;
                 done := done; debounce := debounce w |}
  end.

(** What one [select] of the loop of [Start] receives. *)
Inductive received : Type :=
| Event (event : fsnotify.Event)
| EventsClosed
| Error (err : error)
| ErrorsClosed
| Done.

(** The cases of the [select] that can proceed on watcher [w]; Go chooses
    among them at random. *)
Definition ready (w : Watcher) (r : received) : bool :=
  match r with
  | Event _ | Error _ => negb (fsnotify.channels_closed (watcher w))
  | EventsClosed | ErrorsClosed => fsnotify.channels_closed (watcher w)
  | Done => closed (done w)
  end.

(** The state of the loop of [Start] and of the timers it creates.  [timer]
    is the local variable, holding the deadline of the timer it points to;
    [armed] are the deadlines of the timers that will still fire; [calls]
    are the times at which the callback has run. *)
Record Loop : Type := {
  timer : option Z;
  armed : list Z;
  calls : list Z;
  printed : list string
}.

Definition initial : Loop := {| timer := None; armed := []; calls := []; printed := [] |}.

(** The clock reaches [t]: the timers due by then run the callback. *)
Definition elapse (t : Z) (l : Loop) : Loop :=
  {| timer := timer l;
     armed := filter (λ d, t < d) (armed l);
     calls := calls l ++ merge_sort Z.le (filter (λ d, d ≤ t) (armed l));
     printed := printed l |}.

(** [timer.Stop()]: a timer that has not fired never will. *)
Definition Timer_Stop (l : Loop) : Loop :=
  match timer l with
  | Some d =>
      {| timer := timer l; armed := filter (λ d', d' ≠ d) (armed l);
         calls := calls l; printed := printed l |}
  | None => l
  end.

(** [timer = time.AfterFunc(d, func() { w.callback() })] at time [t]; a
    timer whose duration is not positive is due at once. *)
Definition AfterFunc (t d : Z) (l : Loop) : Loop :=
  let due := t + Z.max 0 d in
  {| timer := Some due; armed := armed l ++ [due];
     calls := calls l; printed := printed l |}.

(** [Start]: the loop, run on what its successive [select]s receive and
    when.  It ends when a case returns; on a schedule that runs out the
    loop is left waiting. *)
Fixpoint Start (w : Watcher) (schedule : list (Z * received)) (l : Loop) : Loop :=
  let fileName := filepath.Base (filePath w) in
  match schedule with
  | [] => l
  | (t, r) :: rest =>
      let l := elapse t l in
      match r with
      | Event event =>
          if decide (filepath.Base (fsnotify.Name event) ≠ fileName) then Start w rest l
          else if Z.land (fsnotify.Op event) (Z.lor fsnotify.Write fsnotify.Create) =? 0
          then Start w rest l
          else
            let l := match timer l with Some _ => Timer_Stop l | None => l end in
            let l := AfterFunc t (debounce w) l in
            Start w rest l
      | EventsClosed => l
      | Error err =>
          Start w rest
            {| timer := timer l; armed := armed l; calls := calls l;
               printed := printed l ++ ["Watcher error: " ++ err ++ newline] |}
      | ErrorsClosed => l
      | Done => match timer l with Some _ => Timer_Stop l | None => l end
      end
  end.

(** Every time at which the callback runs, the timers left armed when the
    loop has ended included. *)
Definition callbacks (l : Loop) : list Z :=
  calls l ++ merge_sort Z.le (armed l).

(** [TraceWatcher], for what [Stop] changes. *)
Record TraceWatcher : Type := {
  trace_watcher : fsnotify.Watcher;
  trace_dir : string;
  trace_done : chan
}.

(** [NewTraceWatcher], when the directory can be watched. *)
Definition NewTraceWatcher (dir : string) : TraceWatcher :=
  {| trace_watcher := {| fsnotify.channels_closed := false |};
     trace_dir := dir;
     trace_done := make_chan |}.

(** [TraceWatcher.Stop]. *)
Definition TraceWatcher_Stop (t : TraceWatcher) : outcome TraceWatcher :=
  match close (trace_done t) with
  | Panics msg => Panics msg
  | Returns done =>
      Returns {| trace_watcher := fsnotify.Close (trace_watcher t);
                 trace_dir := trace_dir t; trace_done := done |}
  end.

(** [TraceWatcher.Start]: the loop, run on what its successive [select]s
    receive, with [callback] the function given to [NewTraceWatcher].  It
    ends when a case returns, which the case of a closed [Errors] channel
    does not; on a schedule that runs out the loop is left waiting. *)
Fixpoint TraceWatcher_Start (t : TraceWatcher) (callback : string → db.World → db.World)
    (schedule : list received) (w : db.World) : db.World :=
  match schedule with
  | [] => w
  | r :: rest =>
      match r with
      | Event event =>
          if negb (Z.land (fsnotify.Op event) (Z.lor fsnotify.Create fsnotify.Write) =? 0)
          then TraceWatcher_Start t callback rest (callback (fsnotify.Name event) w)
          else TraceWatcher_Start t callback rest w
      | EventsClosed => w
      | Error err =>
          TraceWatcher_Start t callback rest
            (os.print ("Trace watcher error (" ++ filepath.Base (trace_dir t) ++ "): "
                       ++ err ++ newline) w)
      | ErrorsClosed => TraceWatcher_Start t callback rest w
      | Done => w
      end
  end.

(** The cases of the [select] of that loop that can proceed on trace
    watcher [t]. *)
Definition TraceWatcher_ready (t : TraceWatcher) (r : received) : bool :=
  match r with
  | Event _ | Error _ => negb (fsnotify.channels_closed (trace_watcher t))
  | EventsClosed | ErrorsClosed => fsnotify.channels_closed (trace_watcher t)
  | Done => closed (trace_done t)
  end.

End watch.

(** ** Package strconv: decimal integers *)

Module strconv.

(** The errors a [*NumError] wraps; of the error of [Atoi] only this is
    kept. *)
Definition ErrSyntax : error := "invalid syntax".
Definition ErrRange : error := "value out of range".

(** The value of a string of decimal digits, read after [acc]; [None] when a
    byte is not a digit. *)
Fixpoint digits (s : string) (acc : Z) : option Z :=
  match s with
  | "" => Some acc
  | String c rest =>
      let n := Z.of_N (N_of_ascii c) in
      if ((48 <=? n) && (n <=? 57))%Z then digits rest (acc * 10 + (n - 48))%Z else None
  end%string.

(** [strconv.Atoi(s)] where an [int] has 64 bits: an optional sign, then one
    or more decimal digits and nothing else. *)
Definition Atoi (s : string) : result Z :=
  let '(negative, body) :=
    match s with
    | String c rest =>
        if Ascii.eqb c "+" then (false, rest)
        else if Ascii.eqb c "-" then (true, rest)
        else (false, s)
    | "" => (false, s)
    end%string in
  if decide (body = "") then Err ErrSyntax
  else match digits body 0 with
       | None => Err ErrSyntax
       | Some n =>
           let v := if negative : bool then - n else n in
           if (- 2 ^ 63 <=? v) && (v <=? 2 ^ 63 - 1) then Ok v else Err ErrRange
       end.

(** [strconv.Itoa(i)]. *)
Definition Itoa (i : Z) : string := pretty i.

End strconv.

(** ** Package rpc: the daemon, its start and shutdown, and its requests *)

Module rpc.

Definition socketName : string := "td.sock".
Definition pidFileName : string := "daemon.pid".
Definition lockFileName : string := "daemon.lock".
Definition traceInboxName : string := "trace_inbox.jsonl".

(** [LockFile]. *)
Record LockFile : Type := {
  PID : Z;
  ParentPID : Z;
  Database : string;
  Version : string;
  StartedAt : Z
}.

(** The values of type [interface{}] that the handlers build: a string, or
    a [map[string]interface{}] of strings, booleans and integers. *)
Inductive field : Type :=
| FString (s : string)
| FBool (b : bool)
| FInt (n : Z).

Inductive value : Type :=
| VString (s : string)
| VMap (entries : list (string * field)).

(** [RPCRequest]. *)
Module RPCRequest.
Record t : Type := {
  Method : string;
  Params : option string;
  ID : Z
}.
End RPCRequest.

(** [RPCResponse]; an absent [Result] is [nil]. *)
Module RPCResponse.
Record t : Type := {
  Result : option value;
  Error : string;
  ID : Z
}.
End RPCResponse.

(** [net.Listener] on a Unix socket. *)
Record Listener : Type := {
  addr : string;
  listener_closed : bool
}.

(** [Daemon]. *)
Record Daemon : Type := {
  dir : string;
  interval : Z;
  db : db.Store;
  syncer : sync.Syncer;
  watcher : option watch.Watcher;
  traceWatcher : option watch.TraceWatcher;
  listener : Listener;
  done : chan
}.

(** Package [time]: parsing and printing of durations. *)
Class Time : Type := {
  ParseDuration : string → result Z;
  Duration_String : Z → string
}.

(** How a call of [os.WriteFile] fails: when it opens the file, which it
    then neither creates nor truncates, or when it writes, after it has
    created or truncated the file and written the first bytes of the
    data. *)
Inductive write_fault : Type :=
| FailsAtOpen (err : error)
| FailsAtWrite (written : nat) (err : error).

(** The process, and the outcome of the system calls of [StartDaemon] that
    the file system does not determine. *)
Record Sys : Type := {
  Getpid : Z;
  Getppid : Z;
  listen_error : option error;
  pid_write_error : option write_fault;
  lock_write_error : option write_fault;
  watch_error : option error;
  trace_watch_error : option error
}.

(** [net.Listen("unix", path)] creates the socket file. *)
Definition Listen (sys : Sys) (path : string) (w : db.World) : result Listener * db.World :=
  match listen_error sys with
  | Some err => (Err err, w)
  | None =>
      if os.exists_path path w
      then (Err ("listen unix " ++ path ++ ": bind: address already in use"), w)
      else (Ok {| addr := path; listener_closed := false |},
            os.mutate <[path := os.Socket]> w)
  end.

(** [listener.Close()]: a listener that created its socket file unlinks it. *)
Definition Listener_Close (l : Listener) (w : db.World) : Listener * db.World :=
  if listener_closed l then (l, w)
  else ({| addr := addr l; listener_closed := true |}, os.Remove (addr l) w).

(** [os.WriteFile(path, data, 0644)] with its error. *)
Definition WriteFile (fault : option write_fault) (path data : string) (w : db.World)
  : option error * db.World :=
  match fault with
  | Some (FailsAtOpen err) => (Some err, w)
  | Some (FailsAtWrite written err) =>
      (Some err, os.WriteFile path (String.substring 0 written data) w)
  | None => (None, os.WriteFile path data w)
  end.

Section Daemon.

Context `{Json db.Tanda, Json (slice string), Json (slice db.Note),
          Json (slice db.RunResult), JsonIndent LockFile, Time}.

(** [StartDaemon], up to the point where it has started its goroutines and
    blocks accepting connections: the daemon it has built, whose goroutines
    [run] below takes further, or the error returned. *)
Definition StartDaemon (sys : Sys) (dir intervalStr : string) (w : db.World)
  : result Daemon * db.World :=
  match ParseDuration intervalStr with
  | Err err => (Err (wrap "invalid interval" err), w)
  | Ok interval =>
      let socketPath := filepath.Join dir socketName in
      let pidPath := filepath.Join dir pidFileName in
      let lockPath := filepath.Join dir lockFileName in
      let dbPath := filepath.Join dir "db.sqlite" in
      let jsonlPath := filepath.Join dir "issues.jsonl" in
      if os.exists_path socketPath w
      then (Err ("daemon already running (socket exists: " ++ socketPath ++ ")"), w)
      else
        match db.Open dbPath w with
        | (Err err, w) => (Err (wrap "failed to open database" err), w)
        | (Ok store, w) =>
            let syncer := sync.New store jsonlPath in
            let '(err, syncer, w) := sync.ImportFromJSONL syncer w in
            let w :=
              match err with
              | Some err => os.print ("Warning: initial import failed: " ++ err ++ newline) w
              | None => w
              end in
            match Listen sys socketPath w with
            | (Err err, w) => (Err (wrap "failed to create socket" err), w)
            | (Ok listener, w) =>
                let pid := Getpid sys in
                match WriteFile (pid_write_error sys) pidPath (pretty pid) w with
                | (Some err, w) =>
                    let '(_, w) := Listener_Close listener w in
                    (Err (wrap "failed to write PID file" err), w)
                | (None, w) =>
                    let lockData :=
                      {| PID := pid; ParentPID := Getppid sys; Database := dbPath;
                         Version := "0.2.0"; StartedAt := os.now w |} in
                    let lockBytes :=
                      match MarshalIndent lockData "" "  " with
                      | Ok data => data
                      | Err _ => ""
                      end in
                    match WriteFile (lock_write_error sys) lockPath lockBytes w with
                    | (Some err, w) =>
                        let w := os.Remove pidPath w in
                        let '(_, w) := Listener_Close listener w in
                        (Err (wrap "failed to write lock file" err), w)
                    | (None, w) =>
                        let '(watcher, w) :=
                          match watch_error sys with
                          | Some err =>
                              (None, os.print ("Warning: file watcher failed: " ++ err ++ newline) w)
                          | None => (Some (watch.New jsonlPath), w)
                          end in
                        (* filepath.Clean(filepath.Join(dir, "..")) *)
                        let projectRoot := filepath.Join dir ".." in
                        let traceDir := filepath.Join projectRoot "test-results" in
                        let '(traceWatcher, w) :=
                          match os.fs w !! traceDir with
                          | Some os.Directory =>
                              match trace_watch_error sys with
                              | Some err =>
                                  (None,
                                   os.print ("Warning: trace watcher failed: " ++ err ++ newline) w)
                              | None => (Some (watch.NewTraceWatcher traceDir), w)
                              end
                          | _ => (None, w)
                          end in
                        let daemon :=
                          {| dir := dir; interval := interval; db := store;
                             syncer := syncer; watcher := watcher;
                             traceWatcher := traceWatcher; listener := listener;
                             done := make_chan |} in
                        let w :=
                          os.print ("Tandas daemon started (PID: " ++ pretty pid ++ ", interval: "
                                    ++ Duration_String interval ++ ")" ++ newline) w in
                        let w := os.print ("Socket: " ++ socketPath ++ newline) w in
                        (Ok daemon, w)
                    end
                end
            end
        end
  end.

Definition set_syncer (d : Daemon) (s : sync.Syncer) : Daemon :=
  {| dir := dir d; interval := interval d; db := db d; syncer := s;
     watcher := watcher d; traceWatcher := traceWatcher d;
     listener := listener d; done := done d |}.

(** [handleRequest].  [env] is what the operating system does during the
    call; the syncer behind the pointer [d.syncer] is updated in place. *)
Definition handleRequest (sys : Sys) (env : sync.Env) (d : Daemon) (req : RPCRequest.t)
    (w : db.World) : RPCResponse.t * Daemon * db.World :=
  let id := RPCRequest.ID req in
  if decide (RPCRequest.Method req = "ping") then
    ({| RPCResponse.Result := Some (VString "pong"); RPCResponse.Error := "";
        RPCResponse.ID := id |}, d, w)
  else if decide (RPCRequest.Method req = "sync") then
    let '(err, syncer, w) := sync.ExportToJSONL env (syncer d) w in
    match err with
    | Some err =>
        ({| RPCResponse.Result := None; RPCResponse.Error := err;
            RPCResponse.ID := id |}, set_syncer d syncer, w)
    | None =>
        ({| RPCResponse.Result := Some (VString "synced"); RPCResponse.Error := "";
            RPCResponse.ID := id |}, set_syncer d syncer, w)
    end
  else if decide (RPCRequest.Method req = "import") then
    let '(err, syncer, w) := sync.ImportFromJSONL (syncer d) w in
    match err with
    | Some err =>
        ({| RPCResponse.Result := None; RPCResponse.Error := err;
            RPCResponse.ID := id |}, set_syncer d syncer, w)
    | None =>
        ({| RPCResponse.Result := Some (VString "imported"); RPCResponse.Error := "";
            RPCResponse.ID := id |}, set_syncer d syncer, w)
    end
  else if decide (RPCRequest.Method req = "status") then
    let status :=
      VMap [("running", FBool true);
            ("pid", FInt (Getpid sys));
            ("interval", FString (Duration_String (interval d)))] in
    ({| RPCResponse.Result := Some status; RPCResponse.Error := "";
        RPCResponse.ID := id |}, d, w)
  else
    ({| RPCResponse.Result := None;
        RPCResponse.Error := "unknown method: " ++ RPCRequest.Method req;
        RPCResponse.ID := id |}, d, w).

(** What [decoder.Decode(&req)] yields on a connection. *)
Inductive decoded : Type :=
| Request (req : RPCRequest.t)
| DecodeError (err : error)
| EOF.

(** One [Decode] of the loop of [handleConnection], with what the operating
    system does while the request is handled and whether the response can
    be written back. *)
Record arrival : Type := {
  incoming : decoded;
  during : sync.Env;
  encode_error : option error
}.

(** The connection after [handleConnection] has consumed its input: the
    responses written to it, and whether the handler is still in its loop,
    waiting for the next request, or has returned and closed it. *)
Record connection : Type := {
  sent : list RPCResponse.t;
  open : bool
}.

(** [handleConnection]. *)
Fixpoint handleConnection (sys : Sys) (d : Daemon) (input : list arrival) (w : db.World)
  : connection * Daemon * db.World :=
  match input with
  | [] => ({| sent := []; open := true |}, d, w)
  | a :: rest =>
      match incoming a with
      | EOF => ({| sent := []; open := false |}, d, w)
      | DecodeError err =>
          ({| sent := []; open := false |}, d,
           os.print ("Decode error: " ++ err ++ newline) w)
      | Request req =>
          let '(resp, d, w) := handleRequest sys (during a) d req w in
          match encode_error a with
          | Some err =>
              ({| sent := []; open := false |}, d,
               os.print ("Encode error: " ++ err ++ newline) w)
          | None =>
              let '(c, d, w) := handleConnection sys d rest w in
              ({| sent := resp :: sent c; open := open c |}, d, w)
          end
      end
  end.

End Daemon.

(** [syscall.SIGTERM]. *)
Definition SIGTERM : Z := 15.

(** [StopDaemon].  [signal pid sig] is what [process.Signal(sig)] returns on
    the process [pid], which [os.FindProcess] always finds on Unix; the
    signals sent are returned beside the error. *)
Definition StopDaemon (signal : Z → Z → option error) (dir : string) (w : db.World)
  : option error * list (Z * Z) * db.World :=
  let pidPath := filepath.Join dir pidFileName in
  match os.read_file pidPath (os.fs w) with
  | None => (Some "daemon not running (no PID file)", [], w)
  | Some pidBytes =>
      match strconv.Atoi pidBytes with
      | Err _ => (Some "invalid PID file", [], w)
      | Ok pid =>
          match signal pid SIGTERM with
          | Some err => (Some (wrap "failed to send signal" err), [(pid, SIGTERM)], w)
          | None =>
              (None, [(pid, SIGTERM)],
               os.print ("Sent SIGTERM to daemon (PID: " ++ pretty pid ++ ")" ++ newline) w)
          end
      end
  end.

(** [DaemonStatus]. *)
Definition DaemonStatus (signal : Z → Z → option error) (dir : string) (w : db.World)
  : bool * Z :=
  let pidPath := filepath.Join dir pidFileName in
  match os.read_file pidPath (os.fs w) with
  | None => (false, 0)
  | Some pidBytes =>
      match strconv.Atoi pidBytes with
      | Err _ => (false, 0)
      | Ok pid =>
          match signal pid 0 with
          | Some _ => (false, 0)
          | None => (true, pid)
          end
      end
  end.

(** [filepath.Rel], and [t.UTC().Format(time.RFC3339)] of a time given in
    seconds. *)
Class Paths : Type := { Rel : string → string → result string }.

Class Clock : Type := { RFC3339 : Z → string }.

(** The calls of [appendTraceInbox] that the operating system can fail. *)
Record InboxFaults : Type := {
  inbox_open_error : option error;
  inbox_write_error : option error
}.

(** [os.OpenFile(path, os.O_CREATE|os.O_WRONLY|os.O_APPEND, 0644)]: an
    absent file is created empty. *)
Definition OpenAppend (fault : option error) (path : string) (w : db.World)
  : option error * db.World :=
  match fault with
  | Some err => (Some err, w)
  | None =>
      match os.fs w !! path with
      | None => (None, os.mutate <[path := os.Regular ""]> w)
      | Some (os.Regular _) => (None, w)
      | Some os.Socket => (Some ("open " ++ path ++ ": no such device or address"), w)
      | Some os.Directory => (Some ("open " ++ path ++ ": is a directory"), w)
      | Some (os.Database _) => (Some ("open " ++ path ++ ": not a text file"), w)
      end
  end.

Section TraceInbox.

Context `{Json value, Paths, Clock}.

(** The entry [appendTraceInbox] writes for a file. *)
Definition inboxEntry (projectRoot filePath : string) (now : Z) : value :=
  let rel :=
    if decide (projectRoot ≠ "") then
      match Rel projectRoot filePath with
      | Ok r => r
      | Err _ => filePath
      end
    else filePath in
  VMap [("path", FString rel);
        ("ts", FString (RFC3339 now));
        ("source", FString "watcher");
        ("status", FString "pending")].

(** [appendTraceInbox]; a write that fails writes nothing. *)
Definition appendTraceInbox (faults : InboxFaults) (inboxPath projectRoot filePath : string)
    (w : db.World) : db.World :=
  let entry := inboxEntry projectRoot filePath (os.now w) in
  match Marshal entry with
  | Err err => os.print ("Trace inbox marshal error: " ++ err ++ newline) w
  | Ok data =>
      match OpenAppend (inbox_open_error faults) inboxPath w with
      | (Some err, w) => os.print ("Trace inbox write error: " ++ err ++ newline) w
      | (None, w) =>
          match inbox_write_error faults with
          | Some err => os.print ("Trace inbox write error: " ++ err ++ newline) w
          | None => os.Append inboxPath (data ++ newline) w
          end
      end
  end.

(** The callback [StartDaemon] gives the trace watcher of directory [dir]. *)
Definition traceCallback (faults : InboxFaults) (dir : string) (path : string)
    (w : db.World) : db.World :=
  appendTraceInbox faults (filepath.Join dir traceInboxName) (filepath.Join dir "..") path w.

End TraceInbox.

(** *** The process and its goroutines

    Once [StartDaemon] has built the daemon, the process runs the goroutine
    that waits for a signal and calls [Shutdown], the goroutine of
    [syncLoop], the main goroutine in [acceptConnections], and the
    goroutines in which the timers of the file watcher and the loop of the
    trace watcher run their callbacks.  The process ends when [os.Exit] is
    called, when the main goroutine returns, or when a goroutine panics.
    No client connects to the daemon here, so that no goroutine of
    [handleConnection] runs. *)

Section Process.

Context `{Json db.Tanda, Json (slice string), Json (slice db.Note),
          Json (slice db.RunResult), Json value, Paths, Clock}.

Inductive status : Type :=
| Running
| Exited (code : Z)
| Crashed (msg : string).

(** Where the main goroutine is in the loop of [acceptConnections]: in
    [Accept], or with the error it returned. *)
Inductive accepting : Type :=
| Accepting
| Refused (err : error).

(** [store_closed]: [d.db.Close()] has run.  [sigChan]: a signal waits in
    the channel, whose capacity is 1.  [handler]: the goroutine of the
    signal waits on [sigChan], or is about to run the statement of
    [Shutdown] of that number.  [ticker]: the goroutine of [syncLoop] has
    not yet made its ticker, is in its loop, or has returned. *)
Record Process : Type := {
  daemon : Daemon;
  store_closed : bool;
  sigChan : bool;
  handler : option nat;
  accept : accepting;
  ticker : option bool;
  state : status
}.

(** The process as [StartDaemon] leaves it when its main goroutine calls
    [Accept] and no signal has reached it yet. *)
Definition launch (d : Daemon) : Process :=
  {| daemon := d; store_closed := false; sigChan := false; handler := None;
     accept := Accepting; ticker := None; state := Running |}.

Definition set_daemon (p : Process) (d : Daemon) : Process :=
  {| daemon := d; store_closed := store_closed p; sigChan := sigChan p;
     handler := handler p; accept := accept p; ticker := ticker p; state := state p |}.

Definition set_state (p : Process) (st : status) : Process :=
  {| daemon := daemon p; store_closed := store_closed p; sigChan := sigChan p;
     handler := handler p; accept := accept p; ticker := ticker p; state := st |}.

Definition set_handler (p : Process) (sig : bool) (h : option nat) : Process :=
  {| daemon := daemon p; store_closed := store_closed p; sigChan := sig;
     handler := h; accept := accept p; ticker := ticker p; state := state p |}.

Definition set_accept (p : Process) (a : accepting) : Process :=
  {| daemon := daemon p; store_closed := store_closed p; sigChan := sigChan p;
     handler := handler p; accept := a; ticker := ticker p; state := state p |}.

Definition set_ticker (p : Process) (t : option bool) : Process :=
  {| daemon := daemon p; store_closed := store_closed p; sigChan := sigChan p;
     handler := handler p; accept := accept p; ticker := t; state := state p |}.

(** [Shutdown], one statement at a time: statement 0 prints, 1 closes
    [done], 2 and 3 stop the watchers, 4 closes the listener, 5 closes the
    store, 6 to 8 remove the socket, the PID file and the lock file, 9
    prints, and the last calls [os.Exit(0)]. *)
Definition Shutdown (statement : nat) (p : Process) (w : db.World) : Process * db.World :=
  let d := daemon p in
  match statement with
  | 0%nat => (p, os.print (newline ++ "Shutting down daemon..." ++ newline) w)
  | 1%nat =>
      match close (done d) with
      | Panics msg => (set_state p (Crashed msg), w)
      | Returns closedDone =>
          (set_daemon p
             {| dir := dir d; interval := interval d; db := db d; syncer := syncer d;
                watcher := watcher d; traceWatcher := traceWatcher d;
                listener := listener d; done := closedDone |}, w)
      end
  | 2%nat =>
      match watcher d with
      | Some wt =>
          match watch.Stop wt with
          | Panics msg => (set_state p (Crashed msg), w)
          | Returns wt =>
              (set_daemon p
                 {| dir := dir d; interval := interval d; db := db d; syncer := syncer d;
                    watcher := Some wt; traceWatcher := traceWatcher d;
                    listener := listener d; done := done d |}, w)
          end
      | None => (p, w)
      end
  | 3%nat =>
      match traceWatcher d with
      | Some tw =>
          match watch.TraceWatcher_Stop tw with
          | Panics msg => (set_state p (Crashed msg), w)
          | Returns tw =>
              (set_daemon p
                 {| dir := dir d; interval := interval d; db := db d; syncer := syncer d;
                    watcher := watcher d; traceWatcher := Some tw;
                    listener := listener d; done := done d |}, w)
          end
      | None => (p, w)
      end
  | 4%nat =>
      let '(listener, w) := Listener_Close (listener d) w in
      (set_daemon p
         {| dir := dir d; interval := interval d; db := db d; syncer := syncer d;
            watcher := watcher d; traceWatcher := traceWatcher d;
            listener := listener; done := done d |}, w)
  | 5%nat =>
      ({| daemon := d; store_closed := true; sigChan := sigChan p; handler := handler p;
          accept := accept p; ticker := ticker p; state := state p |}, w)
  | 6%nat => (p, os.Remove (filepath.Join (dir d) socketName) w)
  | 7%nat => (p, os.Remove (filepath.Join (dir d) pidFileName) w)
  | 8%nat => (p, os.Remove (filepath.Join (dir d) lockFileName) w)
  | 9%nat => (p, os.print ("Daemon stopped" ++ newline) w)
  | _ => (set_state p (Exited 0), w)
  end.

(** The goroutine [go func() { <-sigChan; daemon.Shutdown() }()], one step:
    it receives the signal, once, and then runs [Shutdown]. *)
Definition handle_signal (p : Process) (w : db.World) : Process * db.World :=
  match handler p with
  | None => if sigChan p then (set_handler p false (Some 0%nat), w) else (p, w)
  | Some statement =>
      let '(p, w) := Shutdown statement p w in
      (set_handler p (sigChan p) (Some (S statement)), w)
  end.

(** [acceptConnections] when no client connects, one step: [Accept] blocks
    while the listener is open and fails once it is closed; then the loop
    returns if [done] is closed, which ends [StartDaemon] and with it the
    main goroutine and the process, and otherwise prints the error and
    calls [Accept] again. *)
Definition acceptConnections (p : Process) (w : db.World) : Process * db.World :=
  let d := daemon p in
  match accept p with
  | Accepting =>
      if listener_closed (listener d)
      then (set_accept p (Refused ("accept unix " ++ addr (listener d)
                                   ++ ": use of closed network connection")), w)
      else (p, w)
  | Refused err =>
      if closed (done d) then (set_state p (Exited 0), w)
      else (set_accept p Accepting, os.print ("Accept error: " ++ err ++ newline) w)
  end.

(** [time.NewTicker(d)]. *)
Definition NewTicker (d : Z) : outcome unit :=
  if d <=? 0 then Panics "non-positive interval for NewTicker" else Returns tt.

(** [syncLoop], one step: it makes its ticker; then its [select] takes the
    ticker, with [env] what the operating system does during the export,
    or takes [done], which can proceed once [done] is closed. *)
Definition syncLoop (tick : option sync.Env) (p : Process) (w : db.World)
  : Process * db.World :=
  let d := daemon p in
  match ticker p with
  | None =>
      match NewTicker (interval d) with
      | Panics msg => (set_state p (Crashed msg), w)
      | Returns _ => (set_ticker p (Some true), w)
      end
  | Some false => (p, w)
  | Some true =>
      match tick with
      | None => if closed (done d) then (set_ticker p (Some false), w) else (p, w)
      | Some env =>
          if store_closed p
          then (p, os.print ("Sync error: "
                             ++ wrap "failed to get tandas" "sql: database is closed"
                             ++ newline) w)
          else
            let '(err, syncer, w) := sync.ExportToJSONL env (syncer d) w in
            let p := set_daemon p (set_syncer d syncer) in
            match err with
            | Some err => (p, os.print ("Sync error: " ++ err ++ newline) w)
            | None => (p, w)
            end
      end
  end.

(** The callback of the file watcher, [syncer.ImportFromJSONL()] with its
    error dropped, which a timer of the watcher runs.  On a closed store
    the import fails when it clears the table, before it changes
    anything. *)
Definition watcherCallback (p : Process) (w : db.World) : Process * db.World :=
  let d := daemon p in
  match watcher d with
  | None => (p, w)
  | Some _ =>
      if store_closed p then (p, w)
      else
        let '(_, syncer, w) := sync.ImportFromJSONL (syncer d) w in
        (set_daemon p (set_syncer d syncer), w)
  end.

(** The callback of the trace watcher, which its loop runs on a file. *)
Definition traceWatcherCallback (faults : InboxFaults) (path : string) (p : Process)
    (w : db.World) : Process * db.World :=
  let d := daemon p in
  match traceWatcher d with
  | None => (p, w)
  | Some _ => (p, traceCallback faults (dir d) path w)
  end.

(** What happens next in the process: a SIGINT or SIGTERM reaches it, or one
    of its goroutines takes a step.  The callbacks of the watchers may run
    at any time: which events of the file system make them run, and when,
    is what [watch.Start] and [watch.TraceWatcher_Start] say. *)
Inductive event : Type :=
| Signalled
| Handler
| Main
| Sync (tick : option sync.Env)
| Callback
| TraceCallback (faults : InboxFaults) (path : string).

Definition step (e : event) (pw : Process * db.World) : Process * db.World :=
  let '(p, w) := pw in
  match state p with
  | Running =>
      match e with
      | Signalled => (set_handler p true (handler p), w)
      | Handler => handle_signal p w
      | Main => acceptConnections p w
      | Sync tick => syncLoop tick p w
      | Callback => watcherCallback p w
      | TraceCallback faults path => traceWatcherCallback faults path p w
      end
  | _ => (p, w)
  end.

(** The process after the events of a schedule. *)
Definition run (schedule : list event) (pw : Process * db.World) : Process * db.World :=
  fold_left (λ pw e, step e pw) schedule pw.

End Process.

End rpc.

(** ** A reference instance of the library interfaces

    A JSON printer and parser that follow the output format of
    [encoding/json] on the types of the daemon, for text in ASCII: members
    in the order of the struct fields, [omitempty] fields left out when
    empty, a [nil] slice printed as [null], strings escaped as Go escapes
    them.  The parser reads any JSON text; a member is matched by its exact
    name.  The instance makes the model executable on concrete logs. *)

Module reference.

Import db.

Definition quote : ascii := "034"%char.
Definition backslash : ascii := "092"%char.
Definition TAB : ascii := "009"%char.

#[warnings="-register-all"]
Inductive value : Type :=
| Null
| Bool (b : bool)
| Number (text : string)
| Str (s : string)
| Array (items : list value)
| Object (members : list (string * value)).

Definition hex (n : N) : ascii :=
  match n with
  | 10 => "a" | 11 => "b" | 12 => "c" | 13 => "d" | 14 => "e" | 15 => "f"
  | _ => ascii_of_N (48 + n)
  end%N%char.

Definition unicode_escape (c : ascii) : string :=
  String backslash
    (String "u" (String "0" (String "0"
      (String (hex (N_of_ascii c / 16)) (String (hex (N_of_ascii c mod 16)) ""))))).

Definition escape_char (c : ascii) : string :=
  if Ascii.eqb c quote then String backslash (String quote "")
  else if Ascii.eqb c backslash then String backslash (String backslash "")
  else if Ascii.eqb c LF then String backslash "n"
  else if Ascii.eqb c CR then String backslash "r"
  else if Ascii.eqb c TAB then String backslash "t"
  else if (N_of_ascii c <? 32)%N then unicode_escape c
  else if Ascii.eqb c "<" then unicode_escape c
  else if Ascii.eqb c ">" then unicode_escape c
  else if Ascii.eqb c "&" then unicode_escape c
  else String c "".

Fixpoint escape (s : string) : string :=
  match s with
  | "" => ""
  | String c rest => escape_char c ++ escape rest
  end%string.

Definition quoted (s : string) : string :=
  String quote (escape s ++ String quote "").

Fixpoint join (sep : string) (parts : list string) : string :=
  match parts with
  | [] => ""
  | [p] => p
  | p :: rest => p ++ sep ++ join sep rest
  end.

Fixpoint print (v : value) : string :=
  match v with
  | Null => "null"
  | Bool true => "true"
  | Bool false => "false"
  | Number text => text
  | Str s => quoted s
  | Array items => "[" ++ join "," (map print items) ++ "]"
  | Object members =>
      "{" ++ join "," (map (λ kv, quoted kv.1 ++ ":" ++ print kv.2) members) ++ "}"
  end.

Definition is_space (c : ascii) : bool :=
  Ascii.eqb c " " || Ascii.eqb c TAB || Ascii.eqb c LF || Ascii.eqb c CR.

Fixpoint skip_space (s : string) : string :=
  match s with
  | String c rest => if is_space c then skip_space rest else s
  | "" => ""
  end%string.

Definition unhex (c : ascii) : option N :=
  let n := N_of_ascii c in
  if ((48 <=? n) && (n <=? 57))%N then Some (n - 48)%N
  else if ((97 <=? n) && (n <=? 102))%N then Some (n - 87)%N
  else if ((65 <=? n) && (n <=? 70))%N then Some (n - 55)%N
  else None.

(** The text of a string after its opening quote, and what follows the
    closing one.  Of the [\u] escapes those below 128 are read. *)
Fixpoint parse_chars (s : string) : option (string * string) :=
  match s with
  | "" => None
  | String c rest =>
      if Ascii.eqb c quote then Some ("", rest)
      else if Ascii.eqb c backslash then
        match rest with
        | String e rest =>
            if Ascii.eqb e "u" then
              match rest with
              | String h1 (String h2 (String h3 (String h4 rest))) =>
                  a ← unhex h1; b ← unhex h2; c ← unhex h3; d ← unhex h4;
                  let code := (((a * 16 + b) * 16 + c) * 16 + d)%N in
                  if (code <? 128)%N
                  then '(text, rest) ← parse_chars rest;
                       Some (String (ascii_of_N code) text, rest)
                  else None
              | _ => None
              end
            else
              decoded ←
                (if Ascii.eqb e quote then Some quote
                 else if Ascii.eqb e backslash then Some backslash
                 else if Ascii.eqb e "/" then Some "/"%char
                 else if Ascii.eqb e "b" then Some "008"%char
                 else if Ascii.eqb e "f" then Some "012"%char
                 else if Ascii.eqb e "n" then Some LF
                 else if Ascii.eqb e "r" then Some CR
                 else if Ascii.eqb e "t" then Some TAB
                 else None);
              '(text, rest) ← parse_chars rest;
              Some (String decoded text, rest)
        | "" => None
        end
      else if (N_of_ascii c <? 32)%N then None
      else '(text, rest) ← parse_chars rest; Some (String c text, rest)
  end%string.

Definition is_number_char (c : ascii) : bool :=
  let n := N_of_ascii c in
  ((48 <=? n) && (n <=? 57))%N
  || Ascii.eqb c "-" || Ascii.eqb c "+" || Ascii.eqb c "." || Ascii.eqb c "e" || Ascii.eqb c "E".

Fixpoint parse_number (s : string) : string * string :=
  match s with
  | String c rest =>
      if is_number_char c
      then let '(text, rest) := parse_number rest in (String c text, rest)
      else ("", s)
  | "" => ("", "")
  end%string.

Definition literal (word : string) (v : value) (s : string) : option (value * string) :=
  if String.prefix word s
  then Some (v, String.substring (String.length word) (String.length s - String.length word) s)
  else None.

(** A recursive-descent parser; [fuel] bounds the number of values,
    elements and members read. *)
Fixpoint parse_value (fuel : nat) (s : string) : option (value * string) :=
  match fuel with
  | O => None
  | S fuel =>
      match skip_space s with
      | "" => None
      | String c rest =>
          if Ascii.eqb c quote then
            '(text, rest) ← parse_chars rest; Some (Str text, rest)
          else if Ascii.eqb c "[" then
            match skip_space rest with
            | String "]" rest => Some (Array [], rest)
            | _ => '(items, rest) ← parse_elements fuel rest; Some (Array items, rest)
            end
          else if Ascii.eqb c "{" then
            match skip_space rest with
            | String "}" rest => Some (Object [], rest)
            | _ => '(members, rest) ← parse_members fuel rest; Some (Object members, rest)
            end
          else if Ascii.eqb c "n" then literal "null" Null (String c rest)
          else if Ascii.eqb c "t" then literal "true" (Bool true) (String c rest)
          else if Ascii.eqb c "f" then literal "false" (Bool false) (String c rest)
          else if is_number_char c then
            let '(text, rest) := parse_number (String c rest) in Some (Number text, rest)
          else None
      end
  end%string
with parse_elements (fuel : nat) (s : string) : option (list value * string) :=
  match fuel with
  | O => None
  | S fuel =>
      '(v, rest) ← parse_value fuel s;
      match skip_space rest with
      | String "," rest => '(vs, rest) ← parse_elements fuel rest; Some (v :: vs, rest)
      | String "]" rest => Some ([v], rest)
      | _ => None
      end
  end%string
with parse_members (fuel : nat) (s : string) : option (list (string * value) * string) :=
  match fuel with
  | O => None
  | S fuel =>
      match skip_space s with
      | String c rest =>
          if Ascii.eqb c quote then
            '(key, rest) ← parse_chars rest;
            match skip_space rest with
            | String ":" rest =>
                '(v, rest) ← parse_value fuel rest;
                match skip_space rest with
                | String "," rest =>
                    '(ms, rest) ← parse_members fuel rest; Some ((key, v) :: ms, rest)
                | String "}" rest => Some ([(key, v)], rest)
                | _ => None
                end
            | _ => None
            end
          else None
      | "" => None
      end
  end%string.

(** The value a text denotes, when the text is one JSON value. *)
Definition parse (text : string) : option value :=
  '(v, rest) ← parse_value (2 * String.length text + 2) text;
  if decide (skip_space rest = "") then Some v else None.

(** Decoding follows [json.Unmarshal]: an absent member and [null] leave the
    zero value, the last of several members of one name counts, and a value
    of the wrong kind is an error. *)
Definition member (name : string) (members : list (string * value)) : option value :=
  snd <$> last (filter (λ kv, kv.1 = name) members).

Definition to_string (v : option value) : option string :=
  match v with
  | None | Some Null => Some ""
  | Some (Str s) => Some s
  | Some _ => None
  end.

Definition to_slice {A : Type} (item : value → option A) (v : option value)
  : option (slice A) :=
  match v with
  | None | Some Null => Some None
  | Some (Array items) => Some <$> mapM item items
  | Some _ => None
  end.

Definition zero_Note : Note :=
  {| NoteTimestamp := ""; NoteType := ""; NoteText := "" |}.

Definition zero_RunResult : RunResult :=
  {| Timestamp := ""; Result := ""; Duration := ""; Trace := "" |}.

Definition zero_Tanda : Tanda :=
  {| ID := ""; Title := ""; Status := ""; File := ""; Covers := None;
     DependsOn := None; Notes := None; RunHistory := None;
     CreatedAt := ""; UpdatedAt := "" |}.

Definition to_Note (v : value) : option Note :=
  match v with
  | Null => Some zero_Note
  | Object m =>
      ts ← to_string (member "ts" m);
      type ← to_string (member "type" m);
      text ← to_string (member "text" m);
      Some {| NoteTimestamp := ts; NoteType := type; NoteText := text |}
  | _ => None
  end.

Definition to_RunResult (v : value) : option RunResult :=
  match v with
  | Null => Some zero_RunResult
  | Object m =>
      ts ← to_string (member "ts" m);
      result ← to_string (member "result" m);
      duration ← to_string (member "duration" m);
      trace ← to_string (member "trace" m);
      Some {| Timestamp := ts; Result := result; Duration := duration; Trace := trace |}
  | _ => None
  end.

Definition to_Tanda (v : value) : option Tanda :=
  match v with
  | Null => Some zero_Tanda
  | Object m =>
      id ← to_string (member "id" m);
      title ← to_string (member "title" m);
      status ← to_string (member "status" m);
      file ← to_string (member "file" m);
      covers ← to_slice (λ v, to_string (Some v)) (member "covers" m);
      depends_on ← to_slice (λ v, to_string (Some v)) (member "depends_on" m);
      notes ← to_slice to_Note (member "notes" m);
      run_history ← to_slice to_RunResult (member "run_history" m);
      created_at ← to_string (member "created_at" m);
      updated_at ← to_string (member "updated_at" m);
      Some {| ID := id; Title := title; Status := status; File := file;
              Covers := covers; DependsOn := depends_on; Notes := notes;
              RunHistory := run_history; CreatedAt := created_at;
              UpdatedAt := updated_at |}
  | _ => None
  end.

(** Encoding follows the struct tags. *)
Definition omitempty (name text : string) : list (string * value) :=
  if decide (text = "") then [] else [(name, Str text)].

Definition of_slice {A : Type} (item : A → value) (s : slice A) : value :=
  match s with
  | None => Null
  | Some items => Array (map item items)
  end.

Definition of_Note (n : Note) : value :=
  Object [("ts", Str (NoteTimestamp n)); ("type", Str (NoteType n));
          ("text", Str (NoteText n))].

Definition of_RunResult (r : RunResult) : value :=
  Object ([("ts", Str (Timestamp r)); ("result", Str (Result r))]
          ++ omitempty "duration" (Duration r) ++ omitempty "trace" (Trace r)).

Definition of_Tanda (t : Tanda) : value :=
  Object ([("id", Str (ID t)); ("title", Str (Title t)); ("status", Str (Status t))]
          ++ omitempty "file" (File t)
          ++ [("covers", of_slice Str (Covers t));
              ("depends_on", of_slice Str (DependsOn t));
              ("notes", of_slice of_Note (Notes t));
              ("run_history", of_slice of_RunResult (RunHistory t));
              ("created_at", Str (CreatedAt t));
              ("updated_at", Str (UpdatedAt t))]).

Definition unmarshal {A : Type} (zero : A) (decode : value → option A) (text : string)
  : A * option error :=
  match parse text with
  | None => (zero, Some "invalid JSON text")
  | Some v =>
      match decode v with
      | Some a => (a, None)
      | None => (zero, Some "json: cannot unmarshal value into Go struct field")
      end
  end.

#[export] Instance json_Tanda : Json Tanda :=
  {| Marshal t := Ok (print (of_Tanda t));
     Unmarshal := unmarshal zero_Tanda to_Tanda |}.

#[export] Instance json_strings : Json (slice string) :=
  {| Marshal s := Ok (print (of_slice Str s));
     Unmarshal := unmarshal None (λ v, to_slice (λ v, to_string (Some v)) (Some v)) |}.

#[export] Instance json_notes : Json (slice Note) :=
  {| Marshal s := Ok (print (of_slice of_Note s));
     Unmarshal := unmarshal None (λ v, to_slice to_Note (Some v)) |}.

#[export] Instance json_runs : Json (slice RunResult) :=
  {| Marshal s := Ok (print (of_slice of_RunResult s));
     Unmarshal := unmarshal None (λ v, to_slice to_RunResult (Some v)) |}.

(** [json.MarshalIndent] of the lock file, its start time in seconds. *)
#[export] Instance json_LockFile : JsonIndent rpc.LockFile :=
  {| MarshalIndent l prefix indent :=
       let line name text last :=
         prefix ++ indent ++ quoted name ++ ": " ++ text
         ++ (if last : bool then "" else ",") ++ newline in
       Ok ("{" ++ newline
           ++ line "pid" (pretty (rpc.PID l)) false
           ++ line "parent_pid" (pretty (rpc.ParentPID l)) false
           ++ line "database" (quoted (rpc.Database l)) false
           ++ line "version" (quoted (rpc.Version l)) false
           ++ line "started_at" (pretty (rpc.StartedAt l)) true
           ++ prefix ++ "}") |}.

Definition Second : Z := 1000 * Millisecond.

Fixpoint digits (s : string) (acc : Z) : option (Z * string) :=
  match s with
  | String c rest =>
      let n := Z.of_N (N_of_ascii c) in
      if ((48 <=? n) && (n <=? 57))%Z then digits rest (acc * 10 + (n - 48))%Z
      else Some (acc, s)
  | "" => Some (acc, "")
  end%string.

(** Durations written as a count of seconds or of milliseconds, and
    printed the way [Duration.String] prints whole seconds and whole
    milliseconds below a second. *)
#[export] Instance time_reference : rpc.Time :=
  {| rpc.ParseDuration s :=
       match s with
       | "" => Err ("time: invalid duration " ++ quoted s)
       | String c _ =>
           if negb (is_number_char c && negb (Ascii.eqb c "e"))
           then Err ("time: invalid duration " ++ quoted s)
           else match digits s 0 with
                | Some (n, "s") => Ok (n * Second)
                | Some (n, "ms") => Ok (n * Millisecond)
                | _ => Err ("time: unknown unit in duration " ++ quoted s)
                end
       end%string;
     rpc.Duration_String d :=
       if d =? 0 then "0s"
       else if d mod Second =? 0 then
         let s := d / Second in
         let h := s / 3600 in
         let m := (s mod 3600) / 60 in
         (if 0 <? h then pretty h ++ "h" else "")
         ++ (if (0 <? h) || (0 <? m) then pretty m ++ "m" else "")
         ++ pretty (s mod 60) ++ "s"
       else if (d <? Second) && (d mod Millisecond =? 0) then pretty (d / Millisecond) ++ "ms"
       else pretty d ++ "ns" |}.

(** [json.Marshal] of the values the handlers build: the members of a map
    in the order of their keys. *)
Definition by_key (a b : string * rpc.field) : Prop := String.leb a.1 b.1.

#[global] Instance by_key_dec (a b : string * rpc.field) : Decision (by_key a b).
Proof. unfold by_key. apply _. Defined.

Definition of_field (f : rpc.field) : value :=
  match f with
  | rpc.FString s => Str s
  | rpc.FBool b => Bool b
  | rpc.FInt n => Number (pretty n)
  end.

Definition of_value (v : rpc.value) : value :=
  match v with
  | rpc.VString s => Str s
  | rpc.VMap entries =>
      Object (map (λ kv, (kv.1, of_field kv.2)) (merge_sort by_key entries))
  end.

Definition to_field (v : value) : option rpc.field :=
  match v with
  | Str s => Some (rpc.FString s)
  | Bool b => Some (rpc.FBool b)
  | Number text => rpc.FInt <$> strconv.digits text 0
  | _ => None
  end.

Definition to_value (v : value) : option rpc.value :=
  match v with
  | Str s => Some (rpc.VString s)
  | Object members =>
      rpc.VMap <$> mapM (λ kv : string * value, f ← to_field kv.2; Some (kv.1, f)) members
  | _ => None
  end.

#[export] Instance json_value : Json rpc.value :=
  {| Marshal v := Ok (print (of_value v));
     Unmarshal := unmarshal (rpc.VMap []) to_value |}.

(** [filepath.Rel] on clean paths without [..] elements. *)
Fixpoint drop_common (base targ : list string) : list string * list string :=
  match base, targ with
  | b :: bs, t :: ts => if decide (b = t) then drop_common bs ts else (base, targ)
  | _, _ => (base, targ)
  end.

Definition is_abs (path : string) : bool :=
  match path with
  | String c _ => Ascii.eqb c "/"
  | "" => false
  end%string.

Definition names (path : string) : list string :=
  if decide (path = ".") then [] else filter (λ e, e ≠ "") (filepath.elements path).

#[export] Instance rel_reference : rpc.Paths :=
  {| rpc.Rel base targ :=
       if decide (base = targ) then Ok "."
       else if negb (Bool.eqb (is_abs base) (is_abs targ))
       then Err ("Rel: can't make " ++ targ ++ " relative to " ++ base)
       else
         let '(up, down) := drop_common (names base) (names targ) in
         match (replicate (length up) ".." ++ down)%list with
         | [] => Ok "."
         | parts => Ok (join "/" parts)
         end |}.

(** The date of a day counted from 1970-01-01, in the Gregorian calendar. *)
Definition civil (days : Z) : Z * Z * Z :=
  let z := days + 719468 in
  let era := z / 146097 in
  let doe := z - era * 146097 in
  let yoe := (doe - doe / 1460 + doe / 36524 - doe / 146096) / 365 in
  let doy := doe - (365 * yoe + yoe / 4 - yoe / 100) in
  let mp := (5 * doy + 2) / 153 in
  let d := doy - (153 * mp + 2) / 5 + 1 in
  let m := if mp <? 10 then mp + 3 else mp - 9 in
  let y := yoe + era * 400 + (if m <=? 2 then 1 else 0) in
  (y, m, d).

Definition padded (width : nat) (n : Z) : string :=
  let text := pretty n in
  String.concat "" (replicate (width - String.length text) "0") ++ text.

(** [Format(time.RFC3339)] of a time in UTC, for the years 0 to 9999. *)
#[export] Instance clock_reference : rpc.Clock :=
  {| rpc.RFC3339 t :=
       let '(y, m, d) := civil (t / 86400) in
       let s := t mod 86400 in
       padded 4 y ++ "-" ++ padded 2 m ++ "-" ++ padded 2 d ++ "T"
       ++ padded 2 (s / 3600) ++ ":" ++ padded 2 (s mod 3600 / 60) ++ ":"
       ++ padded 2 (s mod 60) ++ "Z" |}.

End reference.

(** * Notions used by the statements *)

Module notions.

Import db.

(** The most recent [k] entries of a history, all of it when it has fewer. *)
Definition recent {A : Type} (k : nat) (l : list A) : list A :=
  drop (length l - k) l.

(** The number of failing entries. *)
Definition failures (runs : list RunResult) : Z :=
  Z.of_nat (length (filter (λ run, Result run = "fail") runs)).

(** The table of the database a store is open on. *)
Definition table_of (s : Store) (w : World) : option table :=
  match os.fs w !! path s with
  | Some (os.Database t) => Some t
  | _ => None
  end.

(** The row stored under an id. *)
Definition row_at (s : Store) (id : string) (w : World) : option Row :=
  t ← table_of s w; t !! id.

(** The burst notions of the file watcher: an event qualifies when it
    names the watched file and creates or writes it; a burst is spaced below
    [d] when each event follows the previous one, or the time [t] before the
    first, by less than [d]. *)
Definition qualifies (w : watch.Watcher) (e : fsnotify.Event) : Prop :=
  filepath.Base (fsnotify.Name e) = filepath.Base (watch.filePath w)
  ∧ Z.land (fsnotify.Op e) (Z.lor fsnotify.Write fsnotify.Create) ≠ 0.

Fixpoint spaced_below (d t : Z) (burst : list (Z * fsnotify.Event)) : Prop :=
  match burst with
  | [] => True
  | (t', _) :: rest => t ≤ t' < t + d ∧ spaced_below d t' rest
  end.

(** The time of the last event of a burst that follows time [t]. *)
Definition last_time (t : Z) (burst : list (Z * fsnotify.Event)) : Z :=
  from_option fst t (last burst).

(** What the loop of the watcher receives for a burst. *)
Definition deliveries (burst : list (Z * fsnotify.Event)) : list (Z * watch.received) :=
  map (λ te, (te.1, watch.Event te.2)) burst.

(** The result of [handleConnection] with one more response sent first. *)
Definition answered (resp : rpc.RPCResponse.t)
    (r : rpc.connection * rpc.Daemon * World) : rpc.connection * rpc.Daemon * World :=
  ({| rpc.sent := resp :: rpc.sent r.1.1; rpc.open := rpc.open r.1.1 |}, r.1.2, r.2).

(** The methods the request server serves. *)
Definition known_methods : list string := ["ping"; "sync"; "import"; "status"].

(** No loop of daemon [d] has been told to stop. *)
Definition running (d : rpc.Daemon) : Prop :=
  closed (rpc.done d) = false
  ∧ (∀ wt, rpc.watcher d = Some wt → closed (watch.done wt) = false)
  ∧ (∀ tw, rpc.traceWatcher d = Some tw → closed (watch.trace_done tw) = false).

(** No collection of the record is [nil]. *)
Definition no_nil (t : Tanda) : Prop :=
  is_Some (Covers t) ∧ is_Some (DependsOn t) ∧ is_Some (Notes t) ∧ is_Some (RunHistory t).

(** The text of a log of the given lines. *)
Fixpoint log_text (lines : list string) : string :=
  match lines with
  | [] => ""
  | line :: rest => line ++ newline ++ log_text rest
  end.

(** Whether a character occurs in a text, and whether it is its last. *)
Fixpoint occurs (c : ascii) (s : string) : bool :=
  match s with
  | "" => false
  | String c' rest => Ascii.eqb c' c || occurs c rest
  end%string.

Fixpoint ends_in (c : ascii) (s : string) : bool :=
  match s with
  | "" => false
  | String c' rest => match rest with "" => Ascii.eqb c' c | _ => ends_in c rest end
  end%string.

Section Codec.

Context `{Json Tanda, Json (slice string), Json (slice Note), Json (slice RunResult)}.

(** The record a line of the log stands for, if it is well-formed, with its
    [nil] collections made empty, as the import hands it to the store. *)
Definition record_of (line : string) : option Tanda :=
  if decide (line = "") then None
  else match Unmarshal line with
       | (t, None) => Some (sync.init_slices t)
       | (_, Some _) => None
       end.

Definition records (lines : list string) : list Tanda := omap record_of lines.

(** The lines that are not blank and do not parse, with their line numbers
    counted from [lineNum + 1] and the parse errors. *)
Fixpoint malformed (lineNum : Z) (lines : list string) : list (Z * error) :=
  match lines with
  | [] => []
  | line :: rest =>
      (if decide (line = "") then []
       else match (Unmarshal (A := Tanda) line).2 with
            | Some err => [(lineNum + 1, err)]
            | None => []
            end) ++ malformed (lineNum + 1) rest
  end.

(** The warning printed for a malformed line. *)
Definition warning (numbered : Z * error) : string :=
  "Warning: failed to parse line " ++ pretty numbered.1 ++ ": " ++ numbered.2 ++ newline.

(** The table after the records have been upserted in order. *)
Definition upserted (rs : list Tanda) (t : table) : table :=
  fold_left (λ t r, insert_or_update (ID r) (row_of r) t) rs t.

(** [encoding/json] is faithful on a record: it prints the record on one
    line that is not empty, from which it reads the record back, and it
    reads each collection back from the text stored in its column. *)
Definition faithful (t : Tanda) : Prop :=
  ∃ line,
    Marshal t = Ok line
    ∧ Unmarshal line = (t, None)
    ∧ line ≠ "" ∧ occurs LF line = false ∧ ends_in CR line = false
    ∧ (Unmarshal (marshal_text (Covers t))).1 = Covers t
    ∧ (Unmarshal (marshal_text (DependsOn t))).1 = DependsOn t
    ∧ (Unmarshal (marshal_text (Notes t))).1 = Notes t
    ∧ (Unmarshal (marshal_text (RunHistory t))).1 = RunHistory t.

(** No collection column of the row holds the text of a [nil] slice. *)
Definition no_null (r : Row) : Prop :=
  (∃ c : list string, covers r = marshal_text (Some c))
  ∧ (∃ d : list string, depends_on r = marshal_text (Some d))
  ∧ (∃ n : list Note, notes r = marshal_text (Some n))
  ∧ (∃ h : list RunResult, run_history r = marshal_text (Some h)).

End Codec.

(** Every state the file system went through from world [w] to world [w']
    satisfies [P]: what a concurrent reader can have observed. *)
Definition during (P : gmap string (os.node table) → Prop) (w w' : World) : Prop :=
  ∃ new, os.seen w' = (new ++ os.seen w)%list ∧ Forall P new.

(** How many records a call of [GetAllTandas] returned. *)
Definition count (r : result (list Tanda)) : option nat :=
  match r with
  | Ok tandas => Some (length tandas)
  | Err _ => None
  end.

(** The records come with the latest [updated_at] first. *)
Definition newest_first (tandas : list Tanda) : Prop :=
  StronglySorted (λ a b, String.leb (UpdatedAt b) (UpdatedAt a)) tandas.

(** A record as the store gives it back: its [nil] collections empty, and
    its creation time the one given. *)
Definition as_stored (created : string) (r : Tanda) : Tanda :=
  {| ID := ID r; Title := Title r; Status := Status r; File := File r;
     Covers := non_nil (Covers r); DependsOn := non_nil (DependsOn r);
     Notes := non_nil (Notes r); RunHistory := non_nil (RunHistory r);
     CreatedAt := created; UpdatedAt := UpdatedAt r |}.

(** A row with another creation time. *)
Definition with_created (created : string) (r : Row) : Row :=
  {| title := title r; status := status r; file := file r; covers := covers r;
     depends_on := depends_on r; notes := notes r; run_history := run_history r;
     flakiness_score := flakiness_score r; last_run_at := last_run_at r;
     last_run_result := last_run_result r; created_at := created;
     updated_at := updated_at r |}.

Section Columns.

Context `{Json (slice string), Json (slice Note), Json (slice RunResult)}.

(** [encoding/json] reads each collection of the record back from the text
    the store keeps in its column. *)
Definition columns_faithful (t : Tanda) : Prop :=
  (Unmarshal (marshal_text (Covers t))).1 = Covers t
  ∧ (Unmarshal (marshal_text (DependsOn t))).1 = DependsOn t
  ∧ (Unmarshal (marshal_text (Notes t))).1 = Notes t
  ∧ (Unmarshal (marshal_text (RunHistory t))).1 = RunHistory t.

(** The row the table holds under [id] once the records have been upserted
    in order, when it held [before]: that of the last record with the id,
    with the creation time the table had, or else that of the first. *)
Definition merged (id : string) (rs : list Tanda) (before : option Row) : option Row :=
  match filter (λ r, ID r = id) rs with
  | [] => before
  | first :: later =>
      Some (with_created (from_option created_at (CreatedAt first) before)
              (row_of (default first (last later))))
  end.

End Columns.

(** The path holds a database. *)
Definition holds_database (p : string) (w : World) : Prop :=
  ∃ t, os.fs w !! p = Some (os.Database t).

(** What the loop of the file watcher passes over: anything but an event
    that qualifies. *)
Definition quiet (w : watch.Watcher) (r : watch.received) : Prop :=
  match r with
  | watch.Event e => ¬ qualifies w e
  | _ => True
  end.

(** The times at which timers of [d] run out, for qualifying events at time
    [t] and then at the times [later]: after each event that the next one
    follows by [d] or more, and after the last. *)
Fixpoint fired (d t : Z) (later : list Z) : list Z :=
  match later with
  | [] => [t + d]
  | t' :: rest => ((if decide (t + d ≤ t') then [t + d] else []) ++ fired d t' rest)%list
  end.

(** The files the loop of the trace watcher reports: those of the events
    that create or write, up to the end of the loop. *)
Fixpoint reported (schedule : list watch.received) : list string :=
  match schedule with
  | [] => []
  | watch.Event e :: rest =>
      if decide (Z.land (fsnotify.Op e) (Z.lor fsnotify.Create fsnotify.Write) ≠ 0)
      then fsnotify.Name e :: reported rest
      else reported rest
  | watch.Error _ :: rest | watch.ErrorsClosed :: rest => reported rest
  | watch.EventsClosed :: _ | watch.Done :: _ => []
  end.

(** No call on the inbox fails. *)
Definition no_faults : rpc.InboxFaults :=
  {| rpc.inbox_open_error := None; rpc.inbox_write_error := None |}.

Section Inbox.

Context `{Json rpc.value, rpc.Paths, rpc.Clock}.

(** The lines of the inbox for the files given, reported at time [now]. *)
Definition inbox_lines (projectRoot : string) (now : Z) (files : list string) : list string :=
  map (λ file, marshal_text (rpc.inboxEntry projectRoot file now)) files.

End Inbox.

(** The requests of a connection that are answered: those before the first
    arrival that is no request or whose response cannot be written. *)
Fixpoint answered_requests (input : list rpc.arrival) : list rpc.RPCRequest.t :=
  match input with
  | [] => []
  | a :: rest =>
      match rpc.incoming a, rpc.encode_error a with
      | rpc.Request req, None => req :: answered_requests rest
      | _, _ => []
      end
  end.

(** Daemon [d'] is daemon [d] but for the time of the last synchronisation. *)
Definition same_configuration (d d' : rpc.Daemon) : Prop :=
  d' = rpc.set_syncer d (sync.set_lastSync (rpc.syncer d) (sync.lastSync (rpc.syncer d'))).

(** A response carries a result or an error, not both and not neither. *)
Definition result_or_error (resp : rpc.RPCResponse.t) : Prop :=
  rpc.RPCResponse.Result resp = None ↔ rpc.RPCResponse.Error resp ≠ "".

(** A name that is one element of a path: not empty, without separator, and
    neither [.] nor [..]. *)
Definition plain (name : string) : Prop :=
  name ≠ "" ∧ occurs "/" name = false ∧ name ≠ "." ∧ name ≠ "..".

(** What [filepath.Join] puts before a plain name. *)
Definition before (dir : string) : string :=
  if decide (dir = "") then ""
  else (if filepath.IsAbs dir then "/" else "")
       ++ match filepath.clean_elements (filepath.IsAbs dir) (filepath.elements dir) [] with
          | [] => ""
          | kept => filepath.render kept ++ "/"
          end.

(** What a shutdown is to bring about, in the order in which it is to, and
    which of it the process and the file system show. *)
Inductive effect : Type :=
| LoopsSignalled
| WatcherStopped
| TraceWatcherStopped
| ListenerClosed
| StoreClosed
| SocketRemoved
| PidRemoved
| LockRemoved.

Definition took_effect (p : rpc.Process) (w : World) (e : effect) : bool :=
  let d := rpc.daemon p in
  match e with
  | LoopsSignalled => closed (rpc.done d)
  | WatcherStopped =>
      match rpc.watcher d with Some wt => closed (watch.done wt) | None => false end
  | TraceWatcherStopped =>
      match rpc.traceWatcher d with Some tw => closed (watch.trace_done tw) | None => false end
  | ListenerClosed => rpc.listener_closed (rpc.listener d)
  | StoreClosed => rpc.store_closed p
  | SocketRemoved => negb (os.exists_path (filepath.Join (rpc.dir d) rpc.socketName) w)
  | PidRemoved => negb (os.exists_path (filepath.Join (rpc.dir d) rpc.pidFileName) w)
  | LockRemoved => negb (os.exists_path (filepath.Join (rpc.dir d) rpc.lockFileName) w)
  end.

(** How many statements of [Shutdown] the goroutine of the signal has run. *)
Definition statements_run (p : rpc.Process) : nat := default 0%nat (rpc.handler p).

(** What holds of the process of the daemon [d0], started on system [sys],
    at every point of its run: the configuration of the daemon stays, each
    effect of [Shutdown] is there exactly when its statement has run, the
    main goroutine has left [Accept] only after the listener was closed,
    the process has exited only after that, with status 0, and it has
    crashed only on an interval that is not positive. *)
Definition on_course (sys : rpc.Sys) (d0 : rpc.Daemon) (pw : rpc.Process * World) : Prop :=
  let '(p, w) := pw in
  let d := rpc.daemon p in
  let k := statements_run p in
  let dir := rpc.dir d0 in
  (rpc.dir d = dir
   ∧ rpc.interval d = rpc.interval d0
   ∧ rpc.addr (rpc.listener d) = filepath.Join dir rpc.socketName
   ∧ path (sync.store (rpc.syncer d)) = filepath.Join dir "db.sqlite"
   ∧ sync.jsonlPath (rpc.syncer d) = filepath.Join dir "issues.jsonl")
  ∧ (closed (rpc.done d) = (2 <=? k)%nat
     ∧ (∀ wt, rpc.watcher d = Some wt → closed (watch.done wt) = (3 <=? k)%nat)
     ∧ (∀ tw, rpc.traceWatcher d = Some tw → closed (watch.trace_done tw) = (4 <=? k)%nat)
     ∧ rpc.listener_closed (rpc.listener d) = (5 <=? k)%nat
     ∧ rpc.store_closed p = (6 <=? k)%nat)
  ∧ ((rpc.listener_closed (rpc.listener d) = true →
      os.fs w !! filepath.Join dir rpc.socketName = None)
     ∧ os.fs w !! filepath.Join dir rpc.pidFileName
       = (if (8 <=? k)%nat then None else Some (os.Regular (strconv.Itoa (rpc.Getpid sys))))
     ∧ (if (9 <=? k)%nat then os.fs w !! filepath.Join dir rpc.lockFileName = None
        else ∃ data, os.fs w !! filepath.Join dir rpc.lockFileName = Some (os.Regular data))
     ∧ holds_database (filepath.Join dir "db.sqlite") w)
  ∧ (rpc.accept p ≠ rpc.Accepting → rpc.listener_closed (rpc.listener d) = true)
  ∧ match rpc.state p with
    | rpc.Running => (k ≤ 10)%nat
    | rpc.Exited code => code = 0 ∧ rpc.listener_closed (rpc.listener d) = true
    | rpc.Crashed msg =>
        rpc.interval d0 ≤ 0 ∧ msg = "non-positive interval for NewTicker"
    end.

Definition shutdown_effects (pw : rpc.Process * World) : list effect :=
  List.filter (took_effect pw.1 pw.2)
    [LoopsSignalled; WatcherStopped; TraceWatcherStopped; ListenerClosed; StoreClosed;
     SocketRemoved; PidRemoved; LockRemoved].

End notions.

(** * A concrete registry *)

Module scenario.

Import db reference notions.

Definition dir : string := ".tandas".

Definition store : Store := {| path := filepath.Join dir "db.sqlite" |}.

Definition run (ts result : string) : RunResult :=
  {| Timestamp := ts; Result := result; Duration := ""; Trace := "" |}.

Definition login : Tanda :=
  {| ID := "td-1"; Title := "Login"; Status := "active"; File := "tests/login.spec.ts";
     Covers := Some ["auth"]; DependsOn := None; Notes := None;
     RunHistory := Some [run "2025-01-02T00:00:00Z" "pass"; run "2025-01-03T00:00:00Z" "fail"];
     CreatedAt := "2025-01-01T00:00:00Z"; UpdatedAt := "2025-01-03T00:00:00Z" |}.

(** The same id, written again later. *)
Definition login_edited : Tanda :=
  {| ID := "td-1"; Title := "Login flow"; Status := "flaky"; File := "tests/login.spec.ts";
     Covers := Some ["auth"; "session"]; DependsOn := None; Notes := None;
     RunHistory := Some [run "2025-06-02T00:00:00Z" "fail"];
     CreatedAt := "2025-06-01T00:00:00Z"; UpdatedAt := "2025-06-02T00:00:00Z" |}.

Definition checkout : Tanda :=
  {| ID := "td-2"; Title := "Checkout"; Status := "active"; File := "";
     Covers := None; DependsOn := Some ["td-1"]; Notes := None; RunHistory := None;
     CreatedAt := "2025-02-01T00:00:00Z"; UpdatedAt := "2025-02-01T00:00:00Z" |}.

(** A directory holding an empty database and nothing else. *)
Definition fresh : World :=
  {| os.fs := {[ path store := os.Database ∅ ]}; os.seen := []; os.out := [];
     os.now := 1767225600 |}.

(** Histories of ten and of eleven runs, three of them failing. *)
Definition ten_runs : list RunResult :=
  [run "01" "pass"; run "02" "fail"; run "03" "pass"; run "04" "pass"; run "05" "fail";
   run "06" "pass"; run "07" "pass"; run "08" "fail"; run "09" "pass"; run "10" "pass"].

Definition eleven_runs : list RunResult := run "00" "fail" :: ten_runs.

(** The process and an operating system on which every call succeeds. *)
Definition sys : rpc.Sys :=
  {| rpc.Getpid := 4242; rpc.Getppid := 1; rpc.listen_error := None;
     rpc.pid_write_error := None; rpc.lock_write_error := None;
     rpc.watch_error := None; rpc.trace_watch_error := None |}.

Definition calm : sync.Env := {| sync.random := "173205"; sync.fails := λ _, None |}.

(** The directory of a daemon that is running: its socket exists. *)
Definition occupied : World :=
  {| os.fs := {[ path store := os.Database ∅; filepath.Join dir rpc.socketName := os.Socket ]};
     os.seen := []; os.out := []; os.now := 1767225600 |}.

(** The watched log and a write to it. *)
Definition watched : watch.Watcher := watch.New (filepath.Join dir "issues.jsonl").

Definition written : fsnotify.Event :=
  {| fsnotify.Name := filepath.Join dir "issues.jsonl"; fsnotify.Op := fsnotify.Write |}.

Definition ping (id : Z) : rpc.RPCRequest.t :=
  {| rpc.RPCRequest.Method := "ping"; rpc.RPCRequest.Params := None; rpc.RPCRequest.ID := id |}.

Definition bogus (id : Z) : rpc.RPCRequest.t :=
  {| rpc.RPCRequest.Method := "bogus"; rpc.RPCRequest.Params := None; rpc.RPCRequest.ID := id |}.

Definition arrives (req : rpc.RPCRequest.t) : rpc.arrival :=
  {| rpc.incoming := rpc.Request req; rpc.during := calm; rpc.encode_error := None |}.

(** The daemon started in the fresh directory, and the world it runs in. *)
Definition daemon : rpc.Daemon :=
  {| rpc.dir := dir; rpc.interval := 5 * Second; rpc.db := store;
     rpc.syncer := sync.New store (filepath.Join dir "issues.jsonl");
     rpc.watcher := Some watched; rpc.traceWatcher := None;
     rpc.listener := {| rpc.addr := filepath.Join dir rpc.socketName;
                        rpc.listener_closed := false |};
     rpc.done := make_chan |}.

Definition started : World := (rpc.StartDaemon sys dir "5s" fresh).2.

Definition pong (id : Z) : rpc.RPCResponse.t :=
  {| rpc.RPCResponse.Result := Some (rpc.VString "pong"); rpc.RPCResponse.Error := "";
     rpc.RPCResponse.ID := id |}.

Definition unknown_method : rpc.RPCResponse.t :=
  {| rpc.RPCResponse.Result := None; rpc.RPCResponse.Error := "unknown method: bogus";
     rpc.RPCResponse.ID := 1 |}.

(** The syncer of that daemon. *)
Definition syncer : sync.Syncer := sync.New store (filepath.Join dir "issues.jsonl").

(** The store holding two records. *)
Definition registry : World :=
  (UpsertTanda store checkout (UpsertTanda store login fresh).2).2.

(** The records as [GetAllTandas] returns them from [registry]. *)
Definition stored : list Tanda :=
  [ {| ID := "td-2"; Title := "Checkout"; Status := "active"; File := "";
       Covers := Some []; DependsOn := Some ["td-1"]; Notes := Some [];
       RunHistory := Some [];
       CreatedAt := "2025-02-01T00:00:00Z"; UpdatedAt := "2025-02-01T00:00:00Z" |};
    {| ID := "td-1"; Title := "Login"; Status := "active"; File := "tests/login.spec.ts";
       Covers := Some ["auth"]; DependsOn := Some []; Notes := Some [];
       RunHistory :=
         Some [run "2025-01-02T00:00:00Z" "pass"; run "2025-01-03T00:00:00Z" "fail"];
       CreatedAt := "2025-01-01T00:00:00Z"; UpdatedAt := "2025-01-03T00:00:00Z" |} ].

(** A world in which the log holds the given text. *)
Definition with_log (data : string) (w : World) : World :=
  {| os.fs := <[filepath.Join dir "issues.jsonl" := os.Regular data]> (os.fs w);
     os.seen := os.seen w; os.out := os.out w; os.now := os.now w |}.

(** A log of two records, a blank line and a line that is not JSON. *)
Definition log : string :=
  log_text [marshal_text login; ""; "{not json"; marshal_text checkout].

(** A log that writes the same id twice. *)
Definition log_repeating : string :=
  log_text [marshal_text login; marshal_text login_edited].

(** A text of [2 ^ n] times the given one. *)
Fixpoint doubled (n : nat) (s : string) : string :=
  match n with
  | O => s
  | S n => doubled n (s ++ s)
  end.

(** A log whose second line, which is not JSON, is longer than 1 MiB. *)
Definition log_oversized : string :=
  log_text [marshal_text login; "{" ++ doubled 20 "a"].

(** A record whose title alone fills 1 MiB, and the store holding it. *)
Definition huge : Tanda :=
  {| ID := "td-3"; Title := doubled 20 "a"; Status := "active"; File := "";
     Covers := None; DependsOn := None; Notes := None; RunHistory := None;
     CreatedAt := "2025-03-01T00:00:00Z"; UpdatedAt := "2025-03-01T00:00:00Z" |}.

Definition oversized : World := (UpsertTanda store huge fresh).2.

(** An operating system on which the rename fails. *)
Definition rename_fails : sync.Env :=
  {| sync.random := "173205";
     sync.fails c := if c is sync.Rename then Some "permission denied" else None |}.

(** A change of mode of the watched log, and a write to a file beside it. *)
Definition touched : fsnotify.Event :=
  {| fsnotify.Name := filepath.Join dir "issues.jsonl"; fsnotify.Op := fsnotify.Chmod |}.

Definition beside : fsnotify.Event :=
  {| fsnotify.Name := filepath.Join dir "config.yaml"; fsnotify.Op := fsnotify.Write |}.

(** The trace watcher of the directory of test results, and an event on a
    file in it. *)
Definition traces : watch.TraceWatcher := watch.NewTraceWatcher "test-results".

Definition trace (name : string) (op : Z) : fsnotify.Event :=
  {| fsnotify.Name := filepath.Join "test-results" name; fsnotify.Op := op |}.

(** What the trace watcher receives while two traces are written and a third
    file arrives after [Stop]. *)
Definition tracing : list watch.received :=
  [watch.Event (trace "a.zip" fsnotify.Create); watch.ErrorsClosed;
   watch.Event (trace "a.zip" fsnotify.Chmod); watch.Error "queue overflow";
   watch.Event (trace "b/c.zip" fsnotify.Write); watch.Done;
   watch.Event (trace "d.zip" fsnotify.Create)].

(** Every process exists and takes a signal. *)
Definition alive (pid sig : Z) : option error := None.

(** No process takes a signal any more. *)
Definition gone (pid sig : Z) : option error := Some "os: process already finished".

(** A system on which the PID file cannot be written. *)
Definition disk_full : rpc.Sys :=
  {| rpc.Getpid := 4242; rpc.Getppid := 1; rpc.listen_error := None;
     rpc.pid_write_error := Some (rpc.FailsAtWrite 2 "no space left on device");
     rpc.lock_write_error := None;
     rpc.watch_error := None; rpc.trace_watch_error := None |}.

(** The same directory in a project that has a directory of test results,
    the daemon started there, which watches it too, and its process. *)
Definition project : World :=
  {| os.fs := {[ path store := os.Database ∅; "test-results" := os.Directory ]};
     os.seen := []; os.out := []; os.now := 1767225600 |}.

Definition watching : rpc.Daemon :=
  {| rpc.dir := dir; rpc.interval := 5 * Second; rpc.db := store;
     rpc.syncer := sync.New store (filepath.Join dir "issues.jsonl");
     rpc.watcher := Some watched; rpc.traceWatcher := Some traces;
     rpc.listener := {| rpc.addr := filepath.Join dir rpc.socketName;
                        rpc.listener_closed := false |};
     rpc.done := make_chan |}.

Definition launched : rpc.Process * World :=
  (rpc.launch watching, (rpc.StartDaemon sys dir "5s" project).2).

End scenario.

(** * Properties *)

Import db notions.

(** An equation between closed terms is settled by evaluating both sides;
    so is a disequation. *)
Ltac evaluate :=
  lazymatch goal with
  | |- ?l = ?r => vm_cast_no_check (@eq_refl _ r)
  end.

Ltac decide_by_evaluation := apply (bool_decide_eq_true_1 _); evaluate.

Ltac evaluate_differs :=
  let E := fresh in
  intros E; vm_compute in E; discriminate E.

(** ** Flakiness *)

Lemma count_failures (runs : list RunResult) (n : Z) :
  fold_left (λ failures run,
             if decide (Result run = "fail") then failures + 1 else failures) runs n
  = n + failures runs.
Proof.
  unfold failures. revert n. induction runs as [|run runs IH]; intros n; simpl.
  - lia.
  - rewrite IH, filter_cons. case_decide; simpl; lia.
Qed.

Lemma quotient_as_fraction (a : Z) (n : nat) :
  n ≠ 0%nat →
  (inject_Z a / inject_Z (Z.of_nat n) == a # Pos.of_nat n)%Q.
Proof.
  intros Hn. unfold Qdiv, Qinv, inject_Z, Qeq, Qmult. simpl.
  destruct (Z.of_nat n) as [|p|p] eqn:Hp; try lia.
  simpl. replace (Pos.of_nat n) with p by lia. lia.
Qed.

Lemma calculateFlakiness_window (history : slice RunResult) :
  let runs := elems history in
  let w := Nat.min 10 (length runs) in
  (calculateFlakiness history ==
   if decide (w = 0%nat) then 0 else failures (recent w runs) # Pos.of_nat w)%Q.
Proof.
  intros runs w. unfold calculateFlakiness, len. fold runs.
  destruct (Z.eqb_spec (Z.of_nat (length runs)) 0) as [Hz|Hz].
  - rewrite decide_True by lia. reflexivity.
  - rewrite decide_False by lia.
    rewrite count_failures, Z.add_0_l.
    destruct (Z.gtb_spec (Z.of_nat (length runs)) 10) as [Hgt|Hle].
    + replace (Z.to_nat (Z.of_nat (length runs) - 10)) with (length runs - 10)%nat by lia.
      assert (w = 10%nat) as -> by lia. unfold recent.
      rewrite length_drop.
      replace (length runs - (length runs - 10))%nat with 10%nat by lia.
      apply quotient_as_fraction. lia.
    + assert (w = length runs) as -> by lia. unfold recent.
      rewrite Nat.sub_diag, drop_0. apply quotient_as_fraction. lia.
Qed.

Lemma recent_length {A : Type} (k : nat) (l : list A) :
  length (recent k l) = Nat.min k (length l).
Proof. unfold recent. rewrite length_drop. lia. Qed.

(** C4.  The flakiness score is the number of failing entries among the most
    recent [min(10, len(run_history))] entries, divided by the size of that
    window, and 0 for an empty history.  With exactly 10 entries of which
    [f] fail it is [f/10]; with 11 entries the oldest does not count; with 3
    entries of which one fails it is [1/3]. *)
Theorem flakiness_score_over_recent_window (history : slice RunResult) :
  let runs := elems history in
  let w := Nat.min 10 (length runs) in
  length (recent w runs) = w
  ∧ (calculateFlakiness history ==
     if decide (w = 0%nat) then 0 else failures (recent w runs) # Pos.of_nat w)%Q
  ∧ (length runs = 0%nat → calculateFlakiness history = 0%Q)
  ∧ (length runs = 10%nat → (calculateFlakiness history == failures runs # 10)%Q)
  ∧ (∀ oldest later, runs = oldest :: later → length later = 10%nat →
       (calculateFlakiness history == failures later # 10)%Q)
  ∧ (length runs = 3%nat → failures runs = 1 → (calculateFlakiness history == 1 # 3)%Q).
Proof.
  intros runs w.
  pose proof (calculateFlakiness_window history) as Hw. cbv zeta in Hw. fold runs w in Hw.
  split; [|split; [exact Hw|repeat split]].
  - unfold w. rewrite recent_length. lia.
  - intros H0. unfold calculateFlakiness, len. fold runs. by rewrite H0.
  - intros H10. rewrite Hw. unfold w, recent. rewrite H10. simpl.
    by rewrite drop_0.
  - intros oldest later Hr H10. rewrite Hw. unfold w, recent. rewrite Hr. simpl.
    rewrite H10. simpl. reflexivity.
  - intros H3 Hf. rewrite Hw. unfold w, recent. rewrite H3. simpl.
    rewrite drop_0, Hf. reflexivity.
Qed.

Lemma flakiness_score_witness :
  (calculateFlakiness (Some scenario.eleven_runs) == 3 # 10)%Q.
Proof.
  apply (proj1 (proj2 (proj2 (proj2 (proj2
           (flakiness_score_over_recent_window (Some scenario.eleven_runs))))))
         (scenario.run "00" "fail") scenario.ten_runs); reflexivity.
Defined.

(** ** Upsert *)

Section Upsert.

Context `{Json (slice string), Json (slice Note), Json (slice RunResult)}.

Lemma exec_on_table (s : Store) (stmt : table → table) (w : World) (t : table) :
  table_of s w = Some t →
  exec s stmt w = (None, os.mutate <[path s := os.Database (stmt t)]> w).
Proof.
  unfold table_of, exec. intros Ht.
  destruct (os.fs w !! path s) as [[| | |]|]; simplify_eq. done.
Qed.

Lemma table_of_mutate (s : Store) (w : World) (t : table) :
  table_of s (os.mutate <[path s := os.Database t]> w) = Some t.
Proof. unfold table_of, os.mutate. simpl. by rewrite lookup_insert_eq. Qed.

(** C8, as the code has it.  Upserting a record whose id is already stored
    succeeds and overwrites, in the row of that id and in no other, every
    column but [created_at]: title, status, file, the four collections, the
    derived columns recomputed from the record's run history, and
    [updated_at].  The column [created_at] keeps the value it was given when
    the id was first inserted. *)
Theorem upsert_overwrites_all_but_created_at
    (s : Store) (r : Tanda) (w : World) (t : table) (old : Row) :
  table_of s w = Some t →
  t !! ID r = Some old →
  ∃ w' row,
    UpsertTanda s r w = (None, w')
    ∧ table_of s w' = Some (<[ID r := row]> t)
    ∧ title row = Title r
    ∧ status row = Status r
    ∧ file row = Some (File r)
    ∧ covers row = marshal_text (Covers r)
    ∧ depends_on row = marshal_text (DependsOn r)
    ∧ notes row = marshal_text (Notes r)
    ∧ run_history row = marshal_text (RunHistory r)
    ∧ flakiness_score row = calculateFlakiness (RunHistory r)
    ∧ last_run_at row = from_option Timestamp "" (last (elems (RunHistory r)))
    ∧ last_run_result row = from_option Result "" (last (elems (RunHistory r)))
    ∧ updated_at row = UpdatedAt r
    ∧ created_at row = created_at old.
Proof.
  intros Ht Hold. unfold UpsertTanda.
  rewrite (exec_on_table _ _ _ _ Ht). unfold insert_or_update. rewrite Hold.
  eexists _, _. split; [reflexivity|]. split; [apply table_of_mutate|].
  unfold row_of, len.
  destruct (elems (RunHistory r)) as [|x l] eqn:E; simpl; [repeat split; done|].
  destruct (last (x :: l)) eqn:El; repeat split; done.
Qed.

End Upsert.

Section UpsertScenario.

Import reference.

Lemma upsert_overwrites_witness :
  ∃ w' row,
    UpsertTanda scenario.store scenario.login_edited
      (UpsertTanda scenario.store scenario.login scenario.fresh).2 = (None, w')
    ∧ row_at scenario.store "td-1" w' = Some row
    ∧ title row = "Login flow"
    ∧ created_at row = "2025-01-01T00:00:00Z".
Proof.
  destruct (upsert_overwrites_all_but_created_at scenario.store scenario.login_edited
              (UpsertTanda scenario.store scenario.login scenario.fresh).2
              {[ "td-1" := row_of scenario.login ]} (row_of scenario.login))
    as (w' & row & Hup & Ht & Htitle & _ & _ & _ & _ & _ & _ & _ & _ & _ & _ & Hcreated).
  - evaluate.
  - evaluate.
  - exists w', row. split; [exact Hup|]. split; [|split; assumption].
    unfold row_at. rewrite Ht. simpl. apply lookup_insert_eq.
Defined.

(** The claim C8 as stated fails: after a second upsert of id [td-1] the
    stored [created_at] is that of the first, not that of the record
    written. *)
Lemma upsert_created_at_counterexample :
  let w := (UpsertTanda scenario.store scenario.login scenario.fresh).2 in
  let w' := (UpsertTanda scenario.store scenario.login_edited w).2 in
  is_Some (row_at scenario.store (ID scenario.login_edited) w)
  ∧ row_at scenario.store (ID scenario.login_edited) w' ≠ Some (row_of scenario.login_edited)
  ∧ created_at <$> row_at scenario.store (ID scenario.login_edited) w'
    = Some "2025-01-01T00:00:00Z"
  ∧ CreatedAt scenario.login_edited = "2025-06-01T00:00:00Z".
Proof.
  cbv zeta. split_and!.
  - exists (row_of scenario.login). evaluate.
  - evaluate_differs.
  - evaluate.
  - evaluate.
Qed.

End UpsertScenario.

(** ** The file watcher *)

Section Debounce.

Variable w : watch.Watcher.

(** A qualifying event that arrives at [t'], before the armed timer is due,
    replaces that timer by one due a full window after [t']. *)
Lemma Start_rearms (due t' : Z) (e : fsnotify.Event) (calls : list Z) (printed : list string)
    (rest : list (Z * watch.received)) :
  qualifies w e →
  t' < due →
  watch.Start w ((t', watch.Event e) :: rest)
    {| watch.timer := Some due; watch.armed := [due];
       watch.calls := calls; watch.printed := printed |}
  = watch.Start w rest
      {| watch.timer := Some (t' + Z.max 0 (watch.debounce w));
         watch.armed := [t' + Z.max 0 (watch.debounce w)];
         watch.calls := calls; watch.printed := printed |}.
Proof.
  intros [Hname Hop] Hlt. simpl.
  rewrite decide_False by (intros Hne; apply Hne, Hname).
  destruct (Z.eqb_spec (Z.land (fsnotify.Op e) (Z.lor fsnotify.Write fsnotify.Create)) 0)
    as [E|_]; [done|].
  unfold watch.elapse, watch.Timer_Stop, watch.AfterFunc. simpl.
  rewrite !filter_cons, !filter_nil.
  rewrite decide_True by lia. rewrite decide_False by lia. simpl.
  rewrite filter_cons, filter_nil. rewrite decide_False by (intros Hne; by apply Hne).
  simpl. by rewrite app_nil_r.
Qed.

(** The first qualifying event arms the first timer. *)
Lemma Start_arms (t : Z) (e : fsnotify.Event) (rest : list (Z * watch.received)) :
  qualifies w e →
  watch.Start w ((t, watch.Event e) :: rest) watch.initial
  = watch.Start w rest
      {| watch.timer := Some (t + Z.max 0 (watch.debounce w));
         watch.armed := [t + Z.max 0 (watch.debounce w)];
         watch.calls := []; watch.printed := [] |}.
Proof.
  intros [Hname Hop]. simpl.
  rewrite decide_False by (intros Hne; apply Hne, Hname).
  destruct (Z.eqb_spec (Z.land (fsnotify.Op e) (Z.lor fsnotify.Write fsnotify.Create)) 0)
    as [E|_]; [done|].
  reflexivity.
Qed.

Lemma last_time_cons (t t' : Z) (e : fsnotify.Event) (burst : list (Z * fsnotify.Event)) :
  last_time t ((t', e) :: burst) = last_time t' burst.
Proof.
  unfold last_time. destruct burst as [|te burst]; [done|].
  rewrite last_cons_cons. destruct (last (te :: burst)) eqn:E; [done|].
  by apply last_None in E.
Qed.

Lemma Start_burst (t : Z) (burst : list (Z * fsnotify.Event)) (calls : list Z)
    (printed : list string) (rest : list (Z * watch.received)) :
  Forall (λ te, qualifies w te.2) burst →
  spaced_below (watch.debounce w) t burst →
  watch.Start w (deliveries burst ++ rest)
    {| watch.timer := Some (t + Z.max 0 (watch.debounce w));
       watch.armed := [t + Z.max 0 (watch.debounce w)];
       watch.calls := calls; watch.printed := printed |}
  = watch.Start w rest
      {| watch.timer := Some (last_time t burst + Z.max 0 (watch.debounce w));
         watch.armed := [last_time t burst + Z.max 0 (watch.debounce w)];
         watch.calls := calls; watch.printed := printed |}.
Proof.
  revert t. induction burst as [|[t' e] burst IH]; intros t Hq Hs.
  - reflexivity.
  - apply Forall_cons in Hq as [Hq Hqs]. destruct Hs as [Ht Hs].
    cbn [deliveries map app fst snd]. rewrite Start_rearms by (done || lia).
    fold (deliveries burst). rewrite (IH t') by done.
    by rewrite last_time_cons.
Qed.

(** X11.  Debounce coalescing: a burst of qualifying events, each less than
    the window after the one before, makes the callback run exactly once, a
    full window after the last event, when the loop receives nothing more.
    A window that is not positive counts as none: the timer is then due at
    once. *)
Lemma burst_fires_once (t : Z) (e : fsnotify.Event) (burst : list (Z * fsnotify.Event)) :
  qualifies w e →
  Forall (λ te, qualifies w te.2) burst →
  spaced_below (watch.debounce w) t burst →
  watch.callbacks (watch.Start w (deliveries ((t, e) :: burst)) watch.initial)
  = [last_time t burst + Z.max 0 (watch.debounce w)].
Proof.
  intros He Hq Hs. cbn [deliveries map fst snd]. rewrite Start_arms by done.
  fold (deliveries burst). rewrite <- (app_nil_r (deliveries burst)).
  rewrite Start_burst by done. reflexivity.
Qed.

(** X12.  When [Stop] ends the loop through its [done] case before the
    window after the last event of a burst has elapsed, the pending timer
    is stopped and the callback does not run at all. *)
Lemma burst_then_done_never_fires (t stop : Z) (e : fsnotify.Event)
    (burst : list (Z * fsnotify.Event)) :
  qualifies w e →
  Forall (λ te, qualifies w te.2) burst →
  spaced_below (watch.debounce w) t burst →
  stop < last_time t burst + watch.debounce w →
  watch.callbacks
    (watch.Start w (deliveries ((t, e) :: burst) ++ [(stop, watch.Done)]) watch.initial)
  = [].
Proof.
  intros He Hq Hs Hstop. cbn [deliveries map app fst snd]. rewrite Start_arms by done.
  fold (deliveries burst). rewrite Start_burst by done.
  simpl. unfold watch.elapse, watch.Timer_Stop, watch.callbacks. simpl.
  rewrite !filter_cons, !filter_nil.
  rewrite (decide_False (P := _ ≤ stop)) by lia.
  rewrite (decide_True (P := stop < _)) by lia.
  rewrite filter_cons, filter_nil. rewrite decide_False by (intros Hne; by apply Hne).
  reflexivity.
Qed.

(** X13.  When the loop ends through a closed channel of the fsnotify
    watcher instead, the timer stays armed and the callback runs when it is
    due, after the loop has ended. *)
Lemma burst_then_closed_channel_fires (t stop : Z) (e : fsnotify.Event)
    (burst : list (Z * fsnotify.Event)) (r : watch.received) :
  qualifies w e →
  Forall (λ te, qualifies w te.2) burst →
  spaced_below (watch.debounce w) t burst →
  stop < last_time t burst + watch.debounce w →
  r = watch.EventsClosed ∨ r = watch.ErrorsClosed →
  watch.callbacks
    (watch.Start w (deliveries ((t, e) :: burst) ++ [(stop, r)]) watch.initial)
  = [last_time t burst + Z.max 0 (watch.debounce w)].
Proof.
  intros He Hq Hs Hstop Hr. cbn [deliveries map app fst snd]. rewrite Start_arms by done.
  fold (deliveries burst). rewrite Start_burst by done.
  destruct Hr as [-> | ->]; simpl; unfold watch.elapse, watch.callbacks; simpl;
    rewrite !filter_cons, !filter_nil;
    rewrite (decide_False (P := _ ≤ stop)) by lia;
    rewrite (decide_True (P := stop < _)) by lia; reflexivity.
Qed.

(** An event that does not qualify changes neither the timers nor the
    calls made. *)
Lemma unqualified_event_ignored (t : Z) (e : fsnotify.Event) (l : watch.Loop)
    (rest : list (Z * watch.received)) :
  ¬ qualifies w e →
  watch.Start w ((t, watch.Event e) :: rest) l = watch.Start w rest (watch.elapse t l).
Proof.
  intros Hq. simpl. case_decide as Hname; [done|].
  destruct (Z.eqb_spec (Z.land (fsnotify.Op e) (Z.lor fsnotify.Write fsnotify.Create)) 0)
    as [E|E]; [done|].
  exfalso. apply Hq. split; [|done].
  destruct (decide (filepath.Base (fsnotify.Name e) = filepath.Base (watch.filePath w)));
    [done|]. by exfalso.
Qed.

End Debounce.

(** C10, at the input on which the code fails.  A write to the watched file
    arrives at time 0 and arms the timer for 500 ms; [Stop] is called while
    the loop is handling it, 1 ms later, and closes [done] and the channels
    of the fsnotify watcher, so that every case of the next [select] is
    ready.  When that [select] takes the closed [Events] channel, the loop
    returns with the timer armed and the callback runs at 500 ms, after
    [Stop]; when it takes [done], the timer is stopped and the callback
    never runs. *)
Theorem stop_through_closed_events_leaves_timer
    (stopped := {| watch.watcher := {| fsnotify.channels_closed := true |};
                   watch.filePath := watch.filePath scenario.watched;
                   watch.done := {| closed := true |};
                   watch.debounce := watch.debounce scenario.watched |}) :
  watch.ready scenario.watched (watch.Event scenario.written) = true
  ∧ watch.Stop scenario.watched = Returns stopped
  ∧ watch.ready stopped watch.EventsClosed = true
  ∧ watch.ready stopped watch.Done = true
  ∧ watch.callbacks
      (watch.Start stopped
         [(0, watch.Event scenario.written); (1 * Millisecond, watch.EventsClosed)]
         watch.initial)
    = [500 * Millisecond]
  ∧ watch.callbacks
      (watch.Start stopped
         [(0, watch.Event scenario.written); (1 * Millisecond, watch.Done)]
         watch.initial)
    = [].
Proof. split_and!; evaluate. Qed.

(** ** The request server *)

Section Requests.

Context `{Json Tanda, Json (slice string), Json (slice Note), Json (slice RunResult),
          JsonIndent rpc.LockFile, rpc.Time}.

(** C6.  The response to a request carries the id of the request.  A [ping]
    is answered by the result [pong] and no error; a [status] by the map of
    [running = true], the process id and the configured interval, and no
    error; a method other than [ping], [sync], [import] and [status] by no
    result and the error [unknown method: ] followed by the method, which
    changes neither the daemon nor the world.  Once the response is written,
    the handler of the connection goes on with the requests that follow: the
    connection stays open. *)
Theorem rpc_dispatch (sys : rpc.Sys) (env : sync.Env) (d d' : rpc.Daemon)
    (req : rpc.RPCRequest.t) (w w' : World) (resp : rpc.RPCResponse.t) :
  rpc.handleRequest sys env d req w = (resp, d', w') →
  rpc.RPCResponse.ID resp = rpc.RPCRequest.ID req
  ∧ (rpc.RPCRequest.Method req = "ping" →
       rpc.RPCResponse.Result resp = Some (rpc.VString "pong")
       ∧ rpc.RPCResponse.Error resp = "")
  ∧ (rpc.RPCRequest.Method req = "status" →
       rpc.RPCResponse.Result resp
       = Some (rpc.VMap [("running", rpc.FBool true);
                         ("pid", rpc.FInt (rpc.Getpid sys));
                         ("interval", rpc.FString (rpc.Duration_String (rpc.interval d)))])
       ∧ rpc.RPCResponse.Error resp = "")
  ∧ (rpc.RPCRequest.Method req ∉ known_methods →
       rpc.RPCResponse.Result resp = None
       ∧ rpc.RPCResponse.Error resp = "unknown method: " ++ rpc.RPCRequest.Method req
       ∧ rpc.RPCResponse.Error resp ≠ ""
       ∧ d' = d ∧ w' = w)
  ∧ (∀ rest : list rpc.arrival,
       rpc.handleConnection sys d
         ({| rpc.incoming := rpc.Request req; rpc.during := env;
             rpc.encode_error := None |} :: rest) w
       = answered resp (rpc.handleConnection sys d' rest w'))
  ∧ rpc.open (rpc.handleConnection sys d' [] w').1.1 = true.
Proof.
  intros Hreq.
  assert (rpc.RPCResponse.ID resp = rpc.RPCRequest.ID req) as Hid.
  { unfold rpc.handleRequest in Hreq.
    repeat case_decide;
      repeat match type of Hreq with
             | context [sync.ExportToJSONL ?e ?s ?w] =>
                 destruct (sync.ExportToJSONL e s w) as [[[?|] ?] ?]
             | context [sync.ImportFromJSONL ?s ?w] =>
                 destruct (sync.ImportFromJSONL s w) as [[[?|] ?] ?]
             end; by simplify_eq. }
  split; [exact Hid|].
  split; [|split; [|split; [|split]]].
  - intros Hm. unfold rpc.handleRequest in Hreq.
    rewrite decide_True in Hreq by done. by simplify_eq.
  - intros Hm. unfold rpc.handleRequest in Hreq.
    rewrite Hm in Hreq. simpl in Hreq. by simplify_eq.
  - intros Hm. unfold rpc.handleRequest, known_methods in *.
    rewrite !decide_False in Hreq by set_solver. by simplify_eq.
  - intros rest. cbn [rpc.handleConnection rpc.incoming rpc.during rpc.encode_error].
    rewrite Hreq. unfold answered.
    by destruct (rpc.handleConnection sys d' rest w') as [[c d''] w''].
  - reflexivity.
Qed.

(** C7, as the code has it.  A start in a directory whose socket path exists
    fails and changes nothing: neither the file system, nor what has been
    observed of it, nor the output.  The error is [daemon already running]
    when the interval parses; an interval that does not parse is reported
    first, as [invalid interval]. *)
Theorem start_refused_when_socket_exists (sys : rpc.Sys) (dir intervalStr : string)
    (w : World) :
  os.exists_path (filepath.Join dir rpc.socketName) w = true →
  (∀ interval, rpc.ParseDuration intervalStr = Ok interval →
     rpc.StartDaemon sys dir intervalStr w
     = (Err ("daemon already running (socket exists: "
             ++ filepath.Join dir rpc.socketName ++ ")"), w))
  ∧ (∀ err, rpc.ParseDuration intervalStr = Err err →
       rpc.StartDaemon sys dir intervalStr w = (Err (wrap "invalid interval" err), w)).
Proof.
  intros Hsock. split.
  - intros interval Hparse. unfold rpc.StartDaemon. by rewrite Hparse, Hsock.
  - intros err Hparse. unfold rpc.StartDaemon. by rewrite Hparse.
Qed.

End Requests.

Section RequestScenario.

Import reference.

Lemma rpc_dispatch_witness :
  rpc.RPCResponse.ID scenario.unknown_method = 1
  ∧ rpc.handleConnection scenario.sys scenario.daemon
      [scenario.arrives (scenario.bogus 1); scenario.arrives (scenario.ping 7)]
      scenario.started
    = ({| rpc.sent := [scenario.unknown_method; scenario.pong 7]; rpc.open := true |},
       scenario.daemon, scenario.started).
Proof.
  destruct (rpc_dispatch scenario.sys scenario.calm scenario.daemon scenario.daemon
              (scenario.bogus 1) scenario.started scenario.started scenario.unknown_method)
    as (Hid & _ & _ & _ & Hrest & _).
  - evaluate.
  - split; [exact Hid|]. unfold scenario.arrives at 1. rewrite Hrest. evaluate.
Defined.

(** The daemon of the scenario is the one [StartDaemon] leaves running. *)
Lemma scenario_daemon_started :
  rpc.StartDaemon scenario.sys scenario.dir "5s" scenario.fresh
  = (Ok scenario.daemon, scenario.started).
Proof. evaluate. Qed.

Lemma start_refused_witness :
  rpc.StartDaemon scenario.sys scenario.dir "5s" scenario.occupied
  = (Err "daemon already running (socket exists: .tandas/td.sock)", scenario.occupied).
Proof.
  destruct (start_refused_when_socket_exists scenario.sys scenario.dir "5s"
              scenario.occupied) as [Hrefused _].
  - evaluate.
  - rewrite (Hrefused (5 * Second)) by evaluate. evaluate.
Defined.

(** The claim C7 as stated fails: with the socket in place, a start whose
    interval does not parse fails with [invalid interval], not with
    [already running]. *)
Lemma start_refused_counterexample :
  os.exists_path (filepath.Join scenario.dir rpc.socketName) scenario.occupied = true
  ∧ rpc.StartDaemon scenario.sys scenario.dir "soon" scenario.occupied
    = (Err (wrap "invalid interval" ("time: invalid duration " ++ quoted "soon")),
       scenario.occupied)
  ∧ (rpc.StartDaemon scenario.sys scenario.dir "soon" scenario.occupied).1
    ≠ Err "daemon already running (socket exists: .tandas/td.sock)".
Proof. split_and!; [evaluate|evaluate|evaluate_differs]. Qed.

End RequestScenario.

(** ** Shutdown *)

Section ShutdownScenario.

Import reference.

(** C9, at the input on which the code fails.  The daemon started in a
    project with a directory of test results, idle, receives one SIGTERM.
    The goroutine of the signal receives it and runs [Shutdown], whose
    statements take effect in the order of the claim: the loops are
    signalled, the file watcher and the trace watcher are stopped, the
    listener is closed, which unlinks the socket, the store is closed, the
    PID file and the lock file are removed, and the process exits with
    status 0.  That is the run in which the main goroutine takes no step.
    It is blocked in [Accept], which fails as soon as the listener is
    closed; [acceptConnections] then finds [done] closed and returns, and
    with it [StartDaemon] and the process: when the main goroutine takes
    these two steps right after the listener is closed, the process exits
    with status 0 before the store is closed, and leaves the PID file and
    the lock file behind.  A second signal is never received, so that
    [done] is closed once and nothing panics. *)
Theorem shutdown_cut_short_by_main
    (signal_handled := λ steps, rpc.Signalled :: repeat rpc.Handler steps) :
  rpc.StartDaemon scenario.sys scenario.dir "5s" scenario.project
  = (Ok scenario.watching, scenario.launched.2)
  ∧ running scenario.watching
  ∧ map (λ steps, shutdown_effects (rpc.run (signal_handled steps) scenario.launched))
      (seq 0 13)
    = [ [];
        [];
        [];
        [LoopsSignalled];
        [LoopsSignalled; WatcherStopped];
        [LoopsSignalled; WatcherStopped; TraceWatcherStopped];
        [LoopsSignalled; WatcherStopped; TraceWatcherStopped; ListenerClosed; SocketRemoved];
        [LoopsSignalled; WatcherStopped; TraceWatcherStopped; ListenerClosed; StoreClosed;
         SocketRemoved];
        [LoopsSignalled; WatcherStopped; TraceWatcherStopped; ListenerClosed; StoreClosed;
         SocketRemoved];
        [LoopsSignalled; WatcherStopped; TraceWatcherStopped; ListenerClosed; StoreClosed;
         SocketRemoved; PidRemoved];
        [LoopsSignalled; WatcherStopped; TraceWatcherStopped; ListenerClosed; StoreClosed;
         SocketRemoved; PidRemoved; LockRemoved];
        [LoopsSignalled; WatcherStopped; TraceWatcherStopped; ListenerClosed; StoreClosed;
         SocketRemoved; PidRemoved; LockRemoved];
        [LoopsSignalled; WatcherStopped; TraceWatcherStopped; ListenerClosed; StoreClosed;
         SocketRemoved; PidRemoved; LockRemoved] ]
  ∧ map (λ steps, rpc.state (rpc.run (signal_handled steps) scenario.launched).1) [11; 12]%nat
    = [rpc.Running; rpc.Exited 0]
  ∧ (let '(p, w) :=
       rpc.run (signal_handled 6%nat ++ [rpc.Main; rpc.Main]) scenario.launched in
     rpc.state p = rpc.Exited 0
     ∧ shutdown_effects (p, w)
       = [LoopsSignalled; WatcherStopped; TraceWatcherStopped; ListenerClosed; SocketRemoved]
     ∧ rpc.store_closed p = false
     ∧ os.fs w !! filepath.Join scenario.dir rpc.pidFileName = Some (os.Regular "4242")
     ∧ is_Some (os.fs w !! filepath.Join scenario.dir rpc.lockFileName)
     ∧ rpc.DaemonStatus scenario.alive scenario.dir w = (true, 4242))
  ∧ (let '(p, w) :=
       rpc.run (rpc.Signalled :: rpc.Handler :: rpc.Signalled :: repeat rpc.Handler 11)
         scenario.launched in
     rpc.state p = rpc.Exited 0 ∧ rpc.sigChan p = true
     ∧ shutdown_effects (p, w)
       = [LoopsSignalled; WatcherStopped; TraceWatcherStopped; ListenerClosed; StoreClosed;
          SocketRemoved; PidRemoved; LockRemoved]).
Proof.
  split; [evaluate|]. split.
  { split; [reflexivity|]. split; [intros wt [= <-]|intros tw [= <-]]; reflexivity. }
  split; [evaluate|]. split; [evaluate|]. split.
  - vm_compute. split_and!; try reflexivity. by eexists.
  - vm_compute. split_and!; reflexivity.
Qed.

End ShutdownScenario.

(** ** The synchronizer *)

Lemma string_app_assoc (a b c : string) : (a ++ b) ++ c = a ++ b ++ c.
Proof.
  induction a as [|x a IH]; [done|].
  change (String x ((a ++ b) ++ c) = String x (a ++ b ++ c)). by rewrite IH.
Qed.

Lemma string_app_nil_r (a : string) : a ++ "" = a.
Proof.
  induction a as [|x a IH]; [done|].
  change (String x (a ++ "") = String x a). by rewrite IH.
Qed.

Lemma during_refl (P : gmap string (os.node table) → Prop) (w : World) : during P w w.
Proof. by exists []. Qed.

Lemma during_trans (P : gmap string (os.node table) → Prop) (w1 w2 w3 : World) :
  during P w1 w2 → during P w2 w3 → during P w1 w3.
Proof.
  intros (n1 & E1 & F1) (n2 & E2 & F2). exists (n2 ++ n1)%list. split.
  - by rewrite E2, E1, app_assoc.
  - by apply Forall_app.
Qed.

Lemma during_mutate (P : gmap string (os.node table) → Prop) (w : World)
    (f : gmap string (os.node table) → gmap string (os.node table)) :
  P (f (os.fs w)) → during P w (os.mutate f w).
Proof. intros HP. exists [f (os.fs w)]. split; [done|]. by apply Forall_singleton. Qed.

Lemma Remove_present (p : string) (w : World) :
  is_Some (os.fs w !! p) → os.Remove p w = os.mutate (delete p) w.
Proof. intros [n Hn]. unfold os.Remove. by rewrite Hn. Qed.

Lemma exists_path_false (p : string) (w : World) :
  os.exists_path p w = false → os.fs w !! p = None.
Proof.
  unfold os.exists_path. intros Hb. apply bool_decide_eq_false in Hb.
  by apply eq_None_not_Some.
Qed.

Lemma ends_in_app (c : ascii) (a b : string) :
  b ≠ "" → ends_in c (a ++ b) = ends_in c b.
Proof.
  intros Hb. induction a as [|x a IH]; [done|].
  change (String x a ++ b) with (String x (a ++ b)). simpl. rewrite IH.
  destruct (a ++ b) eqn:E; [|done].
  destruct a; [|discriminate E]. by destruct Hb.
Qed.

Lemma elements_plain (name : string) : occurs "/" name = false → filepath.elements name = [name].
Proof.
  induction name as [|c name IH]; [done|]. cbn [occurs filepath.elements]. intros Hc.
  apply orb_false_iff in Hc as [Hc Hn]. by rewrite Hc, (IH Hn).
Qed.

Lemma elements_app (a b : string) :
  filepath.elements (a ++ "/" ++ b) = (filepath.elements a ++ filepath.elements b)%list.
Proof.
  induction a as [|c a IH]; [done|].
  change (String c a ++ "/" ++ b) with (String c (a ++ "/" ++ b)).
  cbn [filepath.elements]. rewrite IH.
  destruct (Ascii.eqb c "/"); [done|].
  destruct (filepath.elements a) as [|e es] eqn:E; [|done].
  by destruct a as [|c' a]; simpl in E; [|destruct (Ascii.eqb c' "/"), (filepath.elements a)].
Qed.

Lemma clean_elements_app (rooted : bool) (es later kept : list string) :
  filepath.clean_elements rooted (es ++ later) kept
  = filepath.clean_elements rooted later (filepath.clean_elements rooted es kept).
Proof.
  revert kept. induction es as [|e es IH]; intros kept; [done|].
  cbn [app filepath.clean_elements].
  repeat case_decide; try apply IH.
  destruct kept as [|k ks]; [destruct rooted; apply IH|].
  case_decide; apply IH.
Qed.

Lemma IsAbs_app (a b : string) : a ≠ "" → filepath.IsAbs (a ++ b) = filepath.IsAbs a.
Proof. by destruct a. Qed.

(** [Join] puts a plain name at the end of the path. *)
Lemma Join_plain (dir name : string) :
  plain name → filepath.Join dir name = before dir ++ name.
Proof.
  intros (Hne & Hsep & Hdot & Hdots). unfold filepath.Join, before.
  destruct (decide (dir = "")) as [Hdir|Hdir];
    (destruct (decide (name = "")) as [?|_]; [done|]).
  - unfold filepath.Clean. rewrite elements_plain by done. cbn [filepath.clean_elements].
    rewrite (decide_False (P := name = "" ∨ name = ".")) by (intros [?|?]; done).
    rewrite (decide_False (P := name = "..")) by done.
    destruct name as [|c name]; [done|]. simpl in Hsep.
    apply orb_false_iff in Hsep as [Hc _]. simpl. by rewrite Hc.
  - unfold filepath.Clean. rewrite IsAbs_app by done.
    rewrite elements_app, (elements_plain name), clean_elements_app by done.
    cbn [filepath.clean_elements].
    rewrite (decide_False (P := name = "" ∨ name = ".")) by (intros [?|?]; done).
    rewrite (decide_False (P := name = "..")) by done.
    cbn [filepath.render].
    destruct (filepath.clean_elements _ _ _) as [|k ks].
    + by rewrite string_app_nil_r.
    + by rewrite !string_app_assoc.
Qed.

Lemma string_app_inv_head (a b c : string) : a ++ b = a ++ c → b = c.
Proof. induction a as [|x a IH]; [done|]. intros [= E]. by apply IH. Qed.

Lemma Join_ne (dir a b : string) :
  plain a → plain b → a ≠ b → filepath.Join dir a ≠ filepath.Join dir b.
Proof.
  intros Ha Hb Hne E. rewrite !Join_plain in E by done.
  by apply string_app_inv_head in E.
Qed.

Lemma Join_ends_in (c : ascii) (dir name : string) :
  plain name → ends_in c (filepath.Join dir name) = ends_in c name.
Proof. intros Hp. rewrite Join_plain by done. apply ends_in_app, Hp. Qed.

Lemma joinPath_ends_in (c : ascii) (dir name : string) :
  name ≠ "" → ends_in c (os.joinPath dir name) = ends_in c name.
Proof.
  intros Hn. unfold os.joinPath. destruct (os.ends_in_separator dir).
  - by apply ends_in_app.
  - rewrite <- string_app_assoc. by apply ends_in_app.
Qed.

(** The temporary file of an export ends in [.jsonl.tmp]. *)
Lemma tmpPath_ends_in (c : ascii) (env : sync.Env) (dir : string) :
  ends_in c (sync.tmpPath env dir) = Ascii.eqb "p" c.
Proof.
  unfold sync.tmpPath. rewrite joinPath_ends_in by discriminate.
  rewrite <- string_app_assoc. by rewrite ends_in_app by discriminate.
Qed.

Ltac plain_name := unfold plain; split_and!; (reflexivity || discriminate).

Ltac distinct_names := apply Join_ne; [plain_name|plain_name|discriminate].

(** The log of the daemon, [issues.jsonl] in its directory, is never the
    temporary file of an export: their names end differently. *)
Lemma daemon_log_is_not_temporary (env : sync.Env) (dir : string) :
  sync.tmpPath env (filepath.Dir (filepath.Join dir "issues.jsonl"))
  ≠ filepath.Join dir "issues.jsonl".
Proof.
  intros E. apply (f_equal (ends_in "l")) in E.
  rewrite tmpPath_ends_in, Join_ends_in in E by plain_name. discriminate E.
Qed.

Section Exporting.

Context `{Json Tanda, Json (slice string), Json (slice Note), Json (slice RunResult)}.

Lemma write_tandas_text (env : sync.Env) (i : nat) (tandas : list Tanda)
    (buffered content : string) :
  sync.write_tandas env i tandas buffered = Ok content →
  ∃ lines,
    Forall2 (λ t line, Marshal t = Ok line) tandas lines
    ∧ content = buffered ++ log_text lines.
Proof.
  revert i buffered. induction tandas as [|t tandas IH]; intros i buffered Hw; simpl in Hw.
  - simplify_eq. exists []. split; [constructor|]. by rewrite string_app_nil_r.
  - destruct (Marshal t) as [data|] eqn:Em; [|done].
    destruct (sync.fails env (sync.Write i)); [done|].
    destruct (sync.fails env (sync.WriteNewline i)); [done|].
    apply IH in Hw as (lines & Hl & ->).
    exists (data :: lines). split; [by constructor|].
    simpl. by rewrite !string_app_assoc.
Qed.

(** C2.  An export that fails at any stage leaves the file system as it was:
    the destination holds what it held and no temporary file remains.  An
    export that succeeds leaves the destination holding the complete new
    log, one line for each record of the store, and nothing else changed.
    In between, whatever the outcome, the destination holds at every moment
    either what it held before or the complete new log, which it takes in
    one rename. *)
Theorem export_is_atomic (env : sync.Env) (s s' : sync.Syncer) (w w' : World)
    (err : option error) :
  sync.ExportToJSONL env s w = (err, s', w') →
  let dest := sync.jsonlPath s in
  let tmp := sync.tmpPath env (filepath.Dir dest) in
  (is_Some err →
     os.fs w' = os.fs w ∧ s' = s
     ∧ (tmp ≠ dest → during (λ files, files !! dest = os.fs w !! dest) w w'))
  ∧ (err = None →
       ∃ tandas lines,
         GetAllTandas (sync.store s) w = Ok tandas
         ∧ Forall2 (λ t line, Marshal t = Ok line) tandas lines
         ∧ os.fs w' = <[dest := os.Regular (log_text lines)]> (os.fs w)
         ∧ (tmp ≠ dest →
              os.fs w' !! tmp = None
              ∧ during (λ files, files !! dest = os.fs w !! dest
                                 ∨ files !! dest = Some (os.Regular (log_text lines)))
                  w w')).
Proof.
  intros Hex dest tmp. unfold sync.ExportToJSONL in Hex. fold dest in Hex.
  destruct (GetAllTandas (sync.store s) w) as [tandas|e] eqn:Eget.
  2:{ simplify_eq. split; [|done]. intros _. repeat split. intros _. apply during_refl. }
  unfold sync.createTemp in Hex. fold tmp in Hex.
  destruct (sync.fails env sync.CreateTemp) as [e|].
  { simplify_eq. split; [|done]. intros _. repeat split. intros _. apply during_refl. }
  destruct (os.exists_path tmp w) eqn:Etmp.
  { simplify_eq. split; [|done]. intros _. repeat split. intros _. apply during_refl. }
  apply exists_path_false in Etmp.
  set (w1 := os.mutate <[tmp := os.Regular ""]> w) in *.
  assert (∀ data, os.Append tmp data w1 = os.mutate <[tmp := os.Regular data]> w1)
    as Happend.
  { intros data. unfold os.Append. subst w1. cbn [os.fs os.mutate].
    by rewrite lookup_insert_eq. }
  assert (∀ data, during (λ files, files !! dest = os.fs w !! dest) w
                    (os.Remove tmp (os.Append tmp data w1))
                  ∨ tmp = dest) as Hclean2.
  { intros data. destruct (decide (tmp = dest)) as [|Hne]; [by right|left].
    rewrite Happend.
    rewrite Remove_present by (simpl; rewrite lookup_insert_eq; eauto).
    eapply during_trans; [|apply during_mutate].
    eapply during_trans; [|apply during_mutate].
    apply during_mutate.
    all: simpl; by simplify_map_eq. }
  assert (during (λ files, files !! dest = os.fs w !! dest) w (os.Remove tmp w1)
          ∨ tmp = dest) as Hclean1.
  { destruct (decide (tmp = dest)) as [|Hne]; [by right|left].
    rewrite Remove_present by (simpl; rewrite lookup_insert_eq; eauto).
    eapply during_trans; [|apply during_mutate].
    apply during_mutate.
    all: simpl; by simplify_map_eq. }
  assert (os.fs (os.Remove tmp w1) = os.fs w) as Hfs1.
  { rewrite Remove_present by (simpl; rewrite lookup_insert_eq; eauto).
    simpl. by rewrite delete_insert_eq, delete_id. }
  assert (∀ data, os.fs (os.Remove tmp (os.Append tmp data w1)) = os.fs w) as Hfs2.
  { intros data. rewrite Happend.
    rewrite Remove_present by (simpl; rewrite lookup_insert_eq; eauto).
    simpl. by rewrite !delete_insert_eq, delete_id. }
  destruct (sync.write_tandas env 0 tandas "") as [buffered|e] eqn:Ewrite.
  2:{ simplify_eq. split; [|done]. intros _. repeat split; [done|].
      intros Hne. by destruct Hclean1. }
  destruct (sync.fails env sync.Flush) as [e|].
  { simplify_eq. split; [|done]. intros _. repeat split; [done|].
    intros Hne. by destruct Hclean1. }
  destruct (sync.fails env sync.Close) as [e|].
  { simplify_eq. split; [|done]. intros _. repeat split; [done|].
    intros Hne. by destruct (Hclean2 buffered). }
  destruct (sync.fails env sync.Rename) as [e|].
  { simplify_eq. split; [|done]. intros _. repeat split; [done|].
    intros Hne. by destruct (Hclean2 buffered). }
  simplify_eq. split; [by intros [? [=]]|]. intros _.
  apply write_tandas_text in Ewrite as (lines & Hlines & ->).
  change ("" ++ log_text lines) with (log_text lines) in *.
  exists tandas, lines. split; [done|]. split; [done|].
  clear Hclean1 Hclean2 Hfs1 Hfs2. rewrite Happend. clear Happend. subst w1.
  unfold os.Rename. cbn [os.fs os.mutate]. fold tmp.
  rewrite lookup_insert_eq. cbn [os.fs os.mutate].
  split.
  - rewrite !delete_insert_eq, delete_id by done. done.
  - intros Hne. split.
    + rewrite lookup_insert_ne by done. rewrite !delete_insert_eq. apply lookup_delete_eq.
    + eapply during_trans; [|apply during_mutate].
      eapply during_trans; [|apply during_mutate].
      apply during_mutate.
      * left. simpl. by simplify_map_eq.
      * left. simpl. by simplify_map_eq.
      * right. simpl. by simplify_map_eq.
Qed.

End Exporting.

(** ** Lines of a log *)

Lemma lines_of_line (l rest : string) :
  occurs LF l = false →
  bufio.lines (l ++ newline ++ rest) = l :: bufio.lines rest.
Proof.
  induction l as [|c l IH]; intros Hl.
  - reflexivity.
  - simpl in Hl. apply orb_false_iff in Hl as [Hc Hl].
    change (String c l ++ newline ++ rest) with (String c (l ++ newline ++ rest)).
    simpl. rewrite Hc. by rewrite IH.
Qed.

Lemma lines_log_text (ls : list string) :
  Forall (λ l, occurs LF l = false) ls → bufio.lines (log_text ls) = ls.
Proof.
  induction ls as [|l ls IH]; intros Hls; [done|].
  apply Forall_cons in Hls as [Hl Hls]. simpl.
  rewrite lines_of_line by done. by rewrite IH.
Qed.

Lemma dropCR_id (l : string) : ends_in CR l = false → bufio.dropCR l = l.
Proof.
  induction l as [|c l IH]; intros Hl; [done|].
  simpl in *. destruct l as [|c' l]; [by rewrite Hl|].
  by rewrite IH.
Qed.

Lemma tokens_all (maxTokenSize : Z) (ls : list string) :
  Forall (λ l, Z.of_nat (String.length l) < maxTokenSize) ls →
  bufio.tokens maxTokenSize ls = (map bufio.dropCR ls, None).
Proof.
  induction ls as [|l ls IH]; intros Hls; [done|].
  apply Forall_cons in Hls as [Hl Hls]. simpl.
  destruct (Z.leb_spec maxTokenSize (Z.of_nat (String.length l))); [lia|].
  by rewrite IH.
Qed.

(** ** Import *)

Section Importing.

Context `{Json Tanda, Json (slice string), Json (slice Note), Json (slice RunResult)}.

Lemma row_of_columns (t : Tanda) :
  row_of t
  = {| title := Title t; status := Status t; file := Some (File t);
       covers := marshal_text (Covers t); depends_on := marshal_text (DependsOn t);
       notes := marshal_text (Notes t); run_history := marshal_text (RunHistory t);
       flakiness_score := calculateFlakiness (RunHistory t);
       last_run_at := from_option Timestamp "" (last (elems (RunHistory t)));
       last_run_result := from_option Result "" (last (elems (RunHistory t)));
       created_at := CreatedAt t; updated_at := UpdatedAt t |}.
Proof.
  unfold row_of, len.
  destruct (elems (RunHistory t)) as [|x l] eqn:E; simpl; [done|].
  by destruct (last (x :: l)).
Qed.

(** The scanning loop upserts the records of the well-formed lines in order
    and prints one warning for each malformed line. *)
Lemma import_lines_spec (s : sync.Syncer) (lines : list string) :
  ∀ (lineNum : Z) (w : World) (t : table),
    table_of (sync.store s) w = Some t →
    table_of (sync.store s) (sync.import_lines s lineNum lines w)
    = Some (upserted (records lines) t)
    ∧ os.out (sync.import_lines s lineNum lines w)
      = (os.out w ++ map warning (malformed lineNum lines))%list
    ∧ os.now (sync.import_lines s lineNum lines w) = os.now w.
Proof.
  induction lines as [|line lines IH]; intros lineNum w t Ht.
  - simpl. by rewrite app_nil_r.
  - cbn [sync.import_lines malformed]. unfold records. cbn [omap list_omap].
    fold (records lines). unfold sync.import_line, record_of.
    destruct (decide (line = "")) as [Hblank|Hline].
    + destruct (IH (lineNum + 1) w t Ht) as (Htab & Hout & Hnow). done.
    + destruct (Unmarshal line) as [tanda [err|]] eqn:Eu; cbn [snd].
      * destruct (IH (lineNum + 1) (os.print (warning (lineNum + 1, err)) w) t)
          as (Htab & Hout & Hnow); [done|].
        unfold warning in *. cbn [fst snd] in *.
        split; [exact Htab|]. split; [|exact Hnow].
        rewrite Hout. simpl. by rewrite <- app_assoc.
      * unfold UpsertTanda. rewrite (exec_on_table _ _ _ _ Ht).
        destruct (IH (lineNum + 1)
                    (os.mutate <[path (sync.store s)
                                 := os.Database
                                      (insert_or_update (ID (sync.init_slices tanda))
                                         (row_of (sync.init_slices tanda)) t)]> w)
                    (insert_or_update (ID (sync.init_slices tanda))
                       (row_of (sync.init_slices tanda)) t))
          as (Htab & Hout & Hnow); [apply table_of_mutate|].
        done.
Qed.

Lemma init_slices_no_nil (t : Tanda) : no_nil (sync.init_slices t).
Proof.
  unfold no_nil, sync.init_slices, non_nil. simpl.
  destruct (Covers t), (DependsOn t), (Notes t), (RunHistory t); eauto 10.
Qed.

Lemma init_slices_id (t : Tanda) : no_nil t → sync.init_slices t = t.
Proof.
  intros ([c Hc] & [d Hd] & [n Hn] & [h Hh]). destruct t. simpl in *. subst.
  reflexivity.
Qed.

Lemma records_no_nil (lines : list string) : Forall no_nil (records lines).
Proof.
  induction lines as [|line lines IH]; [constructor|].
  unfold records. cbn [omap list_omap]. fold (records lines).
  unfold record_of. destruct (decide (line = "")); [done|].
  destruct (Unmarshal line) as [t [err|]]; [done|].
  constructor; [apply init_slices_no_nil|done].
Qed.

Lemma insert_or_update_fresh (id : string) (row : Row) (t : table) :
  t !! id = None → insert_or_update id row t = <[id := row]> t.
Proof. intros Hid. unfold insert_or_update. by rewrite Hid. Qed.

(** Upserts of pairwise distinct ids that the table does not hold are
    inserts. *)
Lemma upserted_distinct (rs : list Tanda) :
  ∀ t : table,
    NoDup (ID <$> rs) →
    (∀ r, r ∈ rs → t !! ID r = None) →
    upserted rs t = list_to_map ((λ r, (ID r, row_of r)) <$> rs) ∪ t.
Proof.
  induction rs as [|r rs IH]; intros t Hnd Hfresh.
  - simpl. by rewrite (left_id_L ∅ (∪)).
  - rewrite fmap_cons in Hnd. apply NoDup_cons in Hnd as [Hr Hnd].
    change (upserted (r :: rs) t)
      with (upserted rs (insert_or_update (ID r) (row_of r) t)).
    rewrite insert_or_update_fresh by (apply Hfresh; left).
    rewrite IH.
    + rewrite fmap_cons. cbn [list_to_map foldr]. unfold curry. simpl.
      rewrite <- insert_union_l. rewrite <- insert_union_r; [done|].
      apply not_elem_of_list_to_map. rewrite <- list_fmap_compose.
      exact Hr.
    + done.
    + intros r' Hr'. rewrite lookup_insert_ne.
      * apply Hfresh. by right.
      * intros E. apply Hr. rewrite E. by apply list_elem_of_fmap_2.
Qed.

Lemma upserted_distinct_empty (rs : list Tanda) :
  NoDup (ID <$> rs) →
  upserted rs ∅ = list_to_map ((λ r, (ID r, row_of r)) <$> rs).
Proof.
  intros Hnd. rewrite upserted_distinct; [|done|by intros].
  by rewrite (right_id_L ∅ (∪)).
Qed.

Lemma GetAllTandas_table (s : Store) (w : World) (t : table) :
  table_of s w = Some t →
  GetAllTandas s w = Ok (map (λ kr, scan_row kr.1 kr.2) (select_all t)).
Proof.
  unfold table_of, GetAllTandas.
  destruct (os.fs w !! path s) as [[| | |]|]; intros; by simplify_eq.
Qed.

Lemma GetAllTandas_inv (s : Store) (w : World) (tandas : list Tanda) :
  GetAllTandas s w = Ok tandas →
  ∃ t, table_of s w = Some t ∧ tandas = map (λ kr, scan_row kr.1 kr.2) (select_all t).
Proof.
  unfold table_of, GetAllTandas.
  destruct (os.fs w !! path s) as [[| | |]|]; intros; simplify_eq. eauto.
Qed.

Lemma select_all_Permutation (t : table) : select_all t ≡ₚ map_to_list t.
Proof. apply merge_sort_Permutation. Qed.

Lemma scan_row_no_nil (id : string) (r : Row) : no_nil (scan_row id r).
Proof.
  unfold no_nil, scan_row, non_nil. simpl.
  repeat split;
    match goal with |- is_Some (match ?x with _ => _ end) => destruct x; eauto end.
Qed.

Lemma GetAllTandas_no_nil (s : Store) (w : World) (tandas : list Tanda) :
  GetAllTandas s w = Ok tandas → Forall no_nil tandas.
Proof.
  intros (t & _ & ->)%GetAllTandas_inv. apply Forall_forall.
  intros x (kr & -> & _)%list_elem_of_fmap. apply scan_row_no_nil.
Qed.

Lemma GetAllTandas_ids (s : Store) (w : World) (tandas : list Tanda) :
  GetAllTandas s w = Ok tandas → NoDup (ID <$> tandas).
Proof.
  intros (t & _ & ->)%GetAllTandas_inv.
  rewrite <- list_fmap_compose.
  rewrite select_all_Permutation. apply (NoDup_fst_map_to_list t).
Qed.

(** An import from a log that can be read, into a database that is there:
    the store is cleared, the records of the lines scanned are upserted, a
    warning is printed for each malformed line, and the error is that of the
    scanner. *)
Lemma ImportFromJSONL_spec (s : sync.Syncer) (w : World) (data : string) (t0 : table) :
  os.fs w !! sync.jsonlPath s = Some (os.Regular data) →
  table_of (sync.store s) w = Some t0 →
  let lines := (bufio.Scan (1024 * 1024) data).1 in
  let scanErr := (bufio.Scan (1024 * 1024) data).2 in
  ∃ w',
    sync.ImportFromJSONL s w
    = (wrap "error reading JSONL" <$> scanErr,
       if scanErr is Some _ then s else sync.set_lastSync s (os.now w), w')
    ∧ table_of (sync.store s) w' = Some (upserted (records lines) ∅)
    ∧ os.out w' = (os.out w ++ map warning (malformed 0 lines))%list.
Proof.
  intros Hlog Ht lines scanErr. unfold sync.ImportFromJSONL, os.Open. rewrite Hlog.
  unfold ClearAll. rewrite (exec_on_table _ _ _ _ Ht).
  subst lines scanErr. destruct (bufio.Scan (1024 * 1024) data) as [lines scanErr].
  cbn [fst snd].
  destruct (import_lines_spec s lines 0
              (os.mutate <[path (sync.store s) := os.Database ∅]> w) ∅)
    as (Htab & Hout & Hnow); [apply table_of_mutate|].
  eexists. split; [|split; [exact Htab|exact Hout]].
  destruct scanErr as [err|]; simpl; [done|]. by rewrite Hnow.
Qed.

Lemma insert_or_update_no_null (r : Tanda) (t : table) :
  no_nil r →
  (∀ id row, t !! id = Some row → no_null row) →
  ∀ id row, insert_or_update (ID r) (row_of r) t !! id = Some row → no_null row.
Proof.
  intros ([c Hc] & [d Hd] & [n Hn] & [h Hh]) Ht id row.
  assert (∀ created, no_null
            {| title := title (row_of r); status := status (row_of r);
               file := file (row_of r); covers := covers (row_of r);
               depends_on := depends_on (row_of r); notes := notes (row_of r);
               run_history := run_history (row_of r);
               flakiness_score := flakiness_score (row_of r);
               last_run_at := last_run_at (row_of r);
               last_run_result := last_run_result (row_of r);
               created_at := created; updated_at := updated_at (row_of r) |}) as Hrow.
  { intros created. rewrite row_of_columns. unfold no_null. simpl.
    rewrite Hc, Hd, Hn, Hh. eauto 10. }
  unfold insert_or_update. destruct (t !! ID r) as [old|] eqn:Eold.
  - rewrite lookup_insert. case_decide; [|apply Ht]. intros [= <-]. apply Hrow.
  - rewrite lookup_insert. case_decide; [|apply Ht]. intros [= <-].
    specialize (Hrow (created_at (row_of r))). by destruct (row_of r).
Qed.

Lemma upserted_no_null (rs : list Tanda) :
  ∀ t : table,
    Forall no_nil rs →
    (∀ id row, t !! id = Some row → no_null row) →
    ∀ id row, upserted rs t !! id = Some row → no_null row.
Proof.
  induction rs as [|r rs IH]; intros t Hrs Ht; [exact Ht|].
  apply Forall_cons in Hrs as [Hr Hrs].
  change (upserted (r :: rs) t) with (upserted rs (insert_or_update (ID r) (row_of r) t)).
  apply IH; [done|]. by apply insert_or_update_no_null.
Qed.

(** C5.  Every record that [GetAllTandas] returns has its four collections
    not [nil], whatever the store holds.  Every record that an import hands
    to the store has them not [nil], so that after an import no collection
    column of the store holds the text of a [nil] slice. *)
Theorem collections_never_nil :
  (∀ (s : Store) (w : World) (tandas : list Tanda),
     GetAllTandas s w = Ok tandas → Forall no_nil tandas)
  ∧ (∀ (s : sync.Syncer) (w : World) (data : string) (t0 : table),
       os.fs w !! sync.jsonlPath s = Some (os.Regular data) →
       table_of (sync.store s) w = Some t0 →
       let upserts := records (bufio.Scan (1024 * 1024) data).1 in
       Forall no_nil upserts
       ∧ table_of (sync.store s) (sync.ImportFromJSONL s w).2 = Some (upserted upserts ∅)
       ∧ (∀ id row, upserted upserts ∅ !! id = Some row → no_null row)).
Proof.
  split.
  - apply GetAllTandas_no_nil.
  - intros s w data t0 Hlog Ht upserts.
    destruct (ImportFromJSONL_spec s w data t0 Hlog Ht) as (w' & Himp & Htab & _).
    split; [apply records_no_nil|]. split; [by rewrite Himp|].
    apply upserted_no_null; [apply records_no_nil|]. intros id row. by rewrite lookup_empty.
Qed.

Lemma length_select_all (t : table) : length (select_all t) = size t.
Proof.
  rewrite (Permutation_length (select_all_Permutation t)). apply length_map_to_list.
Qed.

(** C3, as the code has it.  A log whose lines are each shorter than 1 MiB,
    and whose well-formed lines carry pairwise distinct ids, is imported
    without error: blank lines and lines that fail to parse are skipped, the
    store then holds exactly the records of the [N] well-formed lines, and
    exactly one warning has been printed for each line that failed to
    parse. *)
Theorem import_skips_malformed_lines (s : sync.Syncer) (w : World) (data : string)
    (t0 : table) :
  os.fs w !! sync.jsonlPath s = Some (os.Regular data) →
  table_of (sync.store s) w = Some t0 →
  Forall (λ raw, Z.of_nat (String.length raw) < 1024 * 1024) (bufio.lines data) →
  let lines := map bufio.dropCR (bufio.lines data) in
  NoDup (ID <$> records lines) →
  ∃ w' tandas,
    sync.ImportFromJSONL s w = (None, sync.set_lastSync s (os.now w), w')
    ∧ table_of (sync.store s) w'
      = Some (list_to_map ((λ r, (ID r, row_of r)) <$> records lines))
    ∧ GetAllTandas (sync.store s) w' = Ok tandas
    ∧ length tandas = length (records lines)
    ∧ ID <$> tandas ≡ₚ ID <$> records lines
    ∧ os.out w' = (os.out w ++ map warning (malformed 0 lines))%list.
Proof.
  intros Hlog Ht Hshort lines Hnd.
  destruct (ImportFromJSONL_spec s w data t0 Hlog Ht) as (w' & Himp & Htab & Hout).
  unfold bufio.Scan in *. rewrite (tokens_all _ _ Hshort) in *. cbn [fst snd] in *.
  fold lines in Himp, Htab, Hout.
  rewrite (upserted_distinct_empty _ Hnd) in Htab.
  exists w'. eexists. split; [exact Himp|]. split; [exact Htab|].
  split; [apply (GetAllTandas_table _ _ _ Htab)|].
  assert (NoDup ((λ r, (ID r, row_of r)) <$> records lines).*1) as Hkeys.
  { by rewrite <- list_fmap_compose. }
  split; [|split; [|exact Hout]].
  - rewrite length_map, length_select_all, map_size_list_to_map by done.
    by rewrite length_fmap.
  - rewrite <- list_fmap_compose.
    change (ID ∘ (λ kr : string * Row, scan_row kr.1 kr.2)) with (@fst string Row).
    rewrite select_all_Permutation, (map_to_list_to_map _ Hkeys).
    by rewrite <- list_fmap_compose.
Qed.

End Importing.

(** ** Export, then import *)

Section RoundTrip.

Context `{Json Tanda, Json (slice string), Json (slice Note), Json (slice RunResult)}.

Lemma write_tandas_ok (env : sync.Env) (tandas : list Tanda) (lines : list string) :
  (∀ c, sync.fails env c = None) →
  Forall2 (λ t line, Marshal t = Ok line) tandas lines →
  ∀ (i : nat) (buffered : string),
    sync.write_tandas env i tandas buffered = Ok (buffered ++ log_text lines).
Proof.
  intros Hcalm Hl. induction Hl as [|t line tandas lines Ht Hl IH]; intros i buffered.
  - simpl. by rewrite string_app_nil_r.
  - simpl. rewrite Ht, !Hcalm, IH. by rewrite !string_app_assoc.
Qed.

Lemma fs_after_rename (tmp dest data : string) (w : World) :
  os.fs w !! tmp = None →
  os.fs (os.Rename tmp dest
           (os.Append tmp data (os.mutate <[tmp := os.Regular ""]> w)))
  = <[dest := os.Regular data]> (os.fs w).
Proof.
  intros Htmp. unfold os.Rename, os.Append. cbn [os.fs os.mutate].
  rewrite lookup_insert_eq. cbn [os.fs os.mutate].
  rewrite lookup_insert_eq. cbn [os.fs os.mutate].
  by rewrite !delete_insert_eq, delete_id.
Qed.

Lemma now_Rename (oldpath newpath : string) (w : World) :
  os.now (os.Rename oldpath newpath w) = os.now w.
Proof. unfold os.Rename. by destruct (os.fs w !! oldpath). Qed.

(** An export on which no call fails, to a temporary name that is free. *)
Lemma export_succeeds (env : sync.Env) (s : sync.Syncer) (w : World)
    (tandas : list Tanda) (lines : list string) :
  GetAllTandas (sync.store s) w = Ok tandas →
  (∀ c, sync.fails env c = None) →
  os.exists_path (sync.tmpPath env (filepath.Dir (sync.jsonlPath s))) w = false →
  Forall2 (λ t line, Marshal t = Ok line) tandas lines →
  ∃ w1,
    sync.ExportToJSONL env s w = (None, sync.set_lastSync s (os.now w), w1)
    ∧ os.fs w1 = <[sync.jsonlPath s := os.Regular (log_text lines)]> (os.fs w)
    ∧ os.out w1 = os.out w.
Proof.
  intros Hget Hcalm Htmp Hlines. unfold sync.ExportToJSONL, sync.createTemp.
  rewrite Hget, !Hcalm, Htmp, (write_tandas_ok _ _ _ Hcalm Hlines).
  change ("" ++ log_text lines) with (log_text lines).
  rewrite now_Rename. unfold os.Append at 1. cbn [os.fs os.mutate].
  rewrite lookup_insert_eq. cbn [os.now os.mutate].
  eexists. split; [reflexivity|]. split.
  - apply fs_after_rename. by apply exists_path_false.
  - unfold os.Rename, os.Append. cbn [os.fs os.mutate]. rewrite lookup_insert_eq.
    cbn [os.fs os.mutate]. by rewrite lookup_insert_eq.
Qed.

Lemma scan_row_row_of (t : Tanda) :
  no_nil t → faithful t → scan_row (ID t) (row_of t) = t.
Proof.
  intros ([c Hc] & [d Hd] & [n Hn] & [h Hh]) (line & _ & _ & _ & _ & _ & Fc & Fd & Fn & Fh).
  unfold scan_row. rewrite row_of_columns. cbn [title status file covers depends_on notes
    run_history created_at updated_at].
  rewrite Fc, Fd, Fn, Fh. destruct t. simpl in *. subst. reflexivity.
Qed.

Lemma records_of_faithful (tandas : list Tanda) :
  Forall no_nil tandas → Forall faithful tandas →
  records (marshal_text <$> tandas) = tandas.
Proof.
  induction tandas as [|t tandas IH]; intros Hn Hf; [done|].
  apply Forall_cons in Hn as [Hn Hns]. apply Forall_cons in Hf as [Hf Hfs].
  rewrite fmap_cons. unfold records. cbn [omap list_omap].
  fold (records (marshal_text <$> tandas)). rewrite IH by done.
  destruct Hf as (line & Hm & Hu & Hne & _). unfold marshal_text. rewrite Hm.
  unfold record_of. rewrite decide_False by done. rewrite Hu.
  by rewrite init_slices_id.
Qed.

(** C1, as the code has it.  Let the store hold records that
    [encoding/json] prints and reads back faithfully, each on a line shorter
    than 1 MiB.  An export on which no system call fails, followed by an
    import, both succeed and leave the store holding the same records: what
    [GetAllTandas] returns afterwards is, up to order, what it returned
    before, with the same ids and the same value in every field, and no
    collection of any record is [nil]. *)
Theorem export_then_import_round_trip (env : sync.Env) (s : sync.Syncer) (w : World)
    (tandas : list Tanda) :
  GetAllTandas (sync.store s) w = Ok tandas →
  sync.jsonlPath s ≠ path (sync.store s) →
  (∀ c, sync.fails env c = None) →
  os.exists_path (sync.tmpPath env (filepath.Dir (sync.jsonlPath s))) w = false →
  Forall faithful tandas →
  Forall (λ t, Z.of_nat (String.length (marshal_text t)) < 1024 * 1024) tandas →
  ∃ s1 w1 s2 w2 tandas',
    sync.ExportToJSONL env s w = (None, s1, w1)
    ∧ sync.ImportFromJSONL s1 w1 = (None, s2, w2)
    ∧ GetAllTandas (sync.store s2) w2 = Ok tandas'
    ∧ tandas' ≡ₚ tandas
    ∧ Forall no_nil tandas'.
Proof.
  intros Hget Hpaths Hcalm Htmp Hfaithful Hshort.
  pose proof (GetAllTandas_no_nil _ _ _ Hget) as Hnn.
  pose proof (GetAllTandas_ids _ _ _ Hget) as Hids.
  destruct (GetAllTandas_inv _ _ _ Hget) as (t0 & Ht0 & _).
  set (lines := marshal_text <$> tandas).
  assert (Forall2 (λ t line, Marshal t = Ok line) tandas lines) as Hlines.
  { subst lines. apply Forall2_fmap_r, Forall_Forall2_diag.
    eapply Forall_impl; [exact Hfaithful|].
    intros t (line & Hm & _). unfold compose, marshal_text. by rewrite Hm. }
  assert (Forall (λ l, l ≠ "" ∧ occurs LF l = false ∧ ends_in CR l = false
                       ∧ Z.of_nat (String.length l) < 1024 * 1024) lines) as Hwf.
  { subst lines. apply Forall_fmap, Forall_forall. intros t Ht. simpl.
    pose proof (proj1 (Forall_forall _ _) Hfaithful t Ht) as (line & Hm & _ & ? & ? & ? & _).
    pose proof (proj1 (Forall_forall _ _) Hshort t Ht) as Hlen. simpl in Hlen.
    unfold marshal_text in *. rewrite Hm in *. done. }
  destruct (export_succeeds env s w tandas lines Hget Hcalm Htmp Hlines)
    as (w1 & Hexp & Hfs1 & _).
  set (s1 := sync.set_lastSync s (os.now w)) in *.
  assert (os.fs w1 !! sync.jsonlPath s1 = Some (os.Regular (log_text lines))) as Hlog.
  { rewrite Hfs1. apply lookup_insert_eq. }
  assert (table_of (sync.store s1) w1 = Some t0) as Ht1.
  { unfold table_of in *. simpl. rewrite Hfs1, lookup_insert_ne by done. exact Ht0. }
  destruct (ImportFromJSONL_spec s1 w1 _ t0 Hlog Ht1) as (w2 & Himp & Htab & _).
  assert (bufio.Scan (1024 * 1024) (log_text lines) = (lines, None)) as Hscan.
  { unfold bufio.Scan. rewrite lines_log_text.
    - rewrite tokens_all.
      + f_equal. rewrite <- (list_fmap_id lines) at 2. apply Forall_fmap_ext_1.
        eapply Forall_impl; [exact Hwf|]. intros l (_ & _ & Hcr & _). by apply dropCR_id.
      + eapply Forall_impl; [exact Hwf|]. by intros l (_ & _ & _ & Hlen).
    - eapply Forall_impl; [exact Hwf|]. by intros l (_ & Hlf & _). }
  rewrite Hscan in Himp, Htab. cbn [fst snd fmap option_fmap option_map] in Himp, Htab.
  subst lines. rewrite (records_of_faithful _ Hnn Hfaithful) in Htab.
  rewrite (upserted_distinct_empty _ Hids) in Htab.
  eexists s1, w1, _, w2, _.
  split; [exact Hexp|]. split; [exact Himp|].
  split; [apply (GetAllTandas_table _ _ _ Htab)|]. split.
  - assert (NoDup ((λ r, (ID r, row_of r)) <$> tandas).*1) as Hkeys.
    { by rewrite <- list_fmap_compose. }
    change (map ?f ?l) with (f <$> l).
    rewrite select_all_Permutation, (map_to_list_to_map _ Hkeys).
    rewrite <- list_fmap_compose.
    rewrite (Forall_fmap_ext_1 _ id tandas); [by rewrite list_fmap_id|].
    apply Forall_forall. intros t Ht. simpl.
    apply scan_row_row_of.
    + exact (proj1 (Forall_forall _ _) Hnn t Ht).
    + exact (proj1 (Forall_forall _ _) Hfaithful t Ht).
  - apply Forall_forall. intros x (kr & -> & _)%list_elem_of_fmap. apply scan_row_no_nil.
Qed.

End RoundTrip.

Section SyncScenario.

Import reference.

Lemma scenario_stored_faithful : Forall faithful scenario.stored.
Proof.
  repeat apply Forall_cons_2; [| |by apply Forall_nil];
    (eexists; split; [reflexivity|]; split_and!;
     first [evaluate | evaluate_differs]).
Qed.

Lemma export_then_import_witness :
  ∃ s1 w1 s2 w2 tandas',
    sync.ExportToJSONL scenario.calm scenario.syncer scenario.registry = (None, s1, w1)
    ∧ sync.ImportFromJSONL s1 w1 = (None, s2, w2)
    ∧ GetAllTandas (sync.store s2) w2 = Ok tandas'
    ∧ tandas' ≡ₚ scenario.stored
    ∧ Forall no_nil tandas'.
Proof.
  apply (export_then_import_round_trip scenario.calm scenario.syncer scenario.registry
           scenario.stored).
  - evaluate.
  - evaluate_differs.
  - intros c. reflexivity.
  - evaluate.
  - exact scenario_stored_faithful.
  - repeat apply Forall_cons_2; [| |by apply Forall_nil]; apply Z.ltb_lt; evaluate.
Defined.

(** The claim C1 as stated fails: the store holds one record, whose line in
    the log is longer than 1 MiB; the export succeeds, the import that
    follows stops at that line with an error, after it has cleared the
    store, and the store is left empty. *)
Lemma export_then_import_counterexample :
  let exported := sync.ExportToJSONL scenario.calm scenario.syncer scenario.oversized in
  let imported := sync.ImportFromJSONL exported.1.2 exported.2 in
  count (GetAllTandas scenario.store scenario.oversized) = Some 1%nat
  ∧ exported.1.1 = None
  ∧ imported.1.1 = Some "error reading JSONL: bufio.Scanner: token too long"
  ∧ count (GetAllTandas scenario.store imported.2) = Some 0%nat.
Proof. cbv zeta. split_and!; evaluate. Qed.

Lemma export_is_atomic_witness :
  let exported :=
    sync.ExportToJSONL scenario.rename_fails scenario.syncer
      (scenario.with_log "stale" scenario.registry) in
  exported.1.1 = Some "failed to rename: permission denied"
  ∧ os.fs exported.2 = os.fs (scenario.with_log "stale" scenario.registry)
  ∧ os.read_file (sync.jsonlPath scenario.syncer) (os.fs exported.2) = Some "stale".
Proof.
  cbv zeta.
  destruct (export_is_atomic scenario.rename_fails scenario.syncer scenario.syncer
              (scenario.with_log "stale" scenario.registry)
              (sync.ExportToJSONL scenario.rename_fails scenario.syncer
                 (scenario.with_log "stale" scenario.registry)).2
              (Some "failed to rename: permission denied"))
    as [Hfail _].
  - evaluate.
  - destruct Hfail as (Hfs & _ & _); [eauto|].
    split; [evaluate|]. split; [exact Hfs|]. rewrite Hfs. evaluate.
Defined.

Lemma import_skips_malformed_witness :
  ∃ w' tandas,
    sync.ImportFromJSONL scenario.syncer (scenario.with_log scenario.log scenario.fresh)
    = (None, sync.set_lastSync scenario.syncer 1767225600, w')
    ∧ GetAllTandas scenario.store w' = Ok tandas
    ∧ length tandas = 2%nat
    ∧ length (os.out w') = 1%nat.
Proof.
  destruct (import_skips_malformed_lines scenario.syncer
              (scenario.with_log scenario.log scenario.fresh) scenario.log ∅)
    as (w' & tandas & Himp & _ & Hget & Hlen & _ & Hout).
  - evaluate.
  - evaluate.
  - decide_by_evaluation.
  - decide_by_evaluation.
  - exists w', tandas. split; [exact Himp|]. split; [exact Hget|].
    split; [rewrite Hlen|rewrite Hout]; evaluate.
Defined.

(** The claim C3 as stated fails.  A log of two well-formed lines that carry
    the same id is imported without error and leaves one record in the
    store, not two.  A log with a malformed line longer than 1 MiB is not
    imported to its end: the scanner stops at that line and the import
    returns its error. *)
Lemma import_skips_malformed_counterexample :
  let repeating :=
    sync.ImportFromJSONL scenario.syncer
      (scenario.with_log scenario.log_repeating scenario.fresh) in
  let oversized :=
    sync.ImportFromJSONL scenario.syncer
      (scenario.with_log scenario.log_oversized scenario.fresh) in
  length (records (bufio.Scan (1024 * 1024) scenario.log_repeating).1) = 2%nat
  ∧ repeating.1.1 = None
  ∧ count (GetAllTandas scenario.store repeating.2) = Some 1%nat
  ∧ oversized.1.1 = Some "error reading JSONL: bufio.Scanner: token too long".
Proof. cbv zeta. split_and!; evaluate. Qed.

Lemma collections_never_nil_witness :
  Forall no_nil (records (bufio.Scan (1024 * 1024) scenario.log).1)
  ∧ Forall no_nil scenario.stored.
Proof.
  split.
  - apply (proj2 collections_never_nil scenario.syncer
             (scenario.with_log scenario.log scenario.fresh) scenario.log ∅);
      evaluate.
  - apply (proj1 collections_never_nil scenario.store scenario.registry). evaluate.
Defined.

End SyncScenario.

(** * Further properties of the code *)

(** ** The store *)

Section Listing.

Context `{Json (slice string), Json (slice Note), Json (slice RunResult)}.

#[local] Instance updated_desc_total : Total updated_desc.
Proof.
  intros a b. unfold updated_desc.
  destruct (String.leb_total (updated_at a.2) (updated_at b.2)) as [E|E];
    rewrite E; auto.
Qed.

#[local] Instance updated_desc_trans : Transitive updated_desc.
Proof.
  intros a b c. unfold updated_desc. intros Hab Hbc.
  exact (transitivity (R := String.le) Hbc Hab).
Qed.

Lemma select_all_sorted (t : table) : StronglySorted updated_desc (select_all t).
Proof. apply StronglySorted_merge_sort; apply _. Qed.

(** X1.  [GetAllTandas] on an open database returns one record for each row
    of the table and no other, each id once, ordered by [updated_at] with
    the latest first; each record is read from the row stored under its
    id. *)
Theorem GetAllTandas_lists_newest_first (s : Store) (w : World) (t : table) :
  table_of s w = Some t →
  ∃ tandas,
    GetAllTandas s w = Ok tandas
    ∧ newest_first tandas
    ∧ NoDup (ID <$> tandas)
    ∧ length tandas = size t
    ∧ (∀ x, x ∈ tandas ↔ ∃ row, t !! ID x = Some row ∧ x = scan_row (ID x) row).
Proof.
  intros Ht. eexists. split; [apply (GetAllTandas_table _ _ _ Ht)|].
  split_and!.
  - unfold newest_first.
    apply (StronglySorted_fmap _ updated_desc); [|apply select_all_sorted].
    intros a b Hab. exact Hab.
  - apply (GetAllTandas_ids s w). apply (GetAllTandas_table _ _ _ Ht).
  - rewrite length_map. apply length_select_all.
  - intros x. rewrite list_elem_of_fmap. split.
    + intros [[id row] [-> Hin]]. rewrite select_all_Permutation in Hin.
      apply elem_of_map_to_list in Hin. exists row. simpl. auto.
    + intros [row [Hrow Hx]]. exists (ID x, row). split; [exact Hx|].
      rewrite select_all_Permutation. apply elem_of_map_to_list. exact Hrow.
Qed.

Lemma fs_mutate_other (s : Store) (w : World) (t : table) (p : string) :
  p ≠ path s → os.fs (os.mutate <[path s := os.Database t]> w) !! p = os.fs w !! p.
Proof. intros Hp. simpl. apply lookup_insert_ne. congruence. Qed.

Lemma row_at_mutate (s : Store) (w : World) (t : table) (id : string) :
  row_at s id (os.mutate <[path s := os.Database t]> w) = t !! id.
Proof. unfold row_at. rewrite table_of_mutate. reflexivity. Qed.

Lemma count_GetAllTandas (s : Store) (w : World) (t : table) :
  table_of s w = Some t → count (GetAllTandas s w) = Some (size t).
Proof.
  intros Ht. rewrite (GetAllTandas_table _ _ _ Ht). simpl.
  rewrite length_map, length_select_all. reflexivity.
Qed.

Lemma insert_or_update_other (id id' : string) (row : Row) (t : table) :
  id' ≠ id → insert_or_update id row t !! id' = t !! id'.
Proof.
  intros Hne. unfold insert_or_update.
  destruct (t !! id); apply lookup_insert_ne; congruence.
Qed.

Lemma size_insert_or_update (id : string) (row : Row) (t : table) :
  size (insert_or_update id row t) = if t !! id is Some _ then size t else S (size t).
Proof.
  unfold insert_or_update. destruct (t !! id) as [old|] eqn:E.
  - apply map_size_insert_Some. eauto.
  - apply map_size_insert_None. exact E.
Qed.

(** X2.  [UpsertTanda] on an open database succeeds and touches the row of
    the record's id only: a record with a new id is stored with all its
    columns, its [created_at] included, and makes the store one record
    larger; a record with an id already stored leaves the number of records
    as it was; the rows under every other id, and every file but the
    database, stay as they were. *)
Theorem UpsertTanda_touches_one_row (s : Store) (r : Tanda) (w : World) (t : table) :
  table_of s w = Some t →
  ∃ w',
    UpsertTanda s r w = (None, w')
    ∧ (t !! ID r = None → row_at s (ID r) w' = Some (row_of r))
    ∧ (∀ id, id ≠ ID r → row_at s id w' = t !! id)
    ∧ count (GetAllTandas s w')
      = Some (if t !! ID r is Some _ then size t else S (size t))
    ∧ (∀ p, p ≠ path s → os.fs w' !! p = os.fs w !! p).
Proof.
  intros Ht. eexists. split; [apply (exec_on_table _ _ _ _ Ht)|]. split_and!.
  - intros Hnew. rewrite row_at_mutate, insert_or_update_fresh by exact Hnew.
    apply lookup_insert_eq.
  - intros id Hid. rewrite row_at_mutate. apply insert_or_update_other, Hid.
  - rewrite (count_GetAllTandas _ _ _ (table_of_mutate _ _ _)).
    rewrite size_insert_or_update. reflexivity.
  - intros p Hp. apply fs_mutate_other, Hp.
Qed.

Lemma scan_row_as_stored (r : Tanda) (created : string) (row : Row) :
  columns_faithful r →
  title row = Title r → status row = Status r → file row = Some (File r) →
  covers row = marshal_text (Covers r) → depends_on row = marshal_text (DependsOn r) →
  notes row = marshal_text (Notes r) → run_history row = marshal_text (RunHistory r) →
  created_at row = created → updated_at row = UpdatedAt r →
  scan_row (ID r) row = as_stored created r.
Proof.
  intros (Hc & Hd & Hn & Hh) E1 E2 E3 E4 E5 E6 E7 E8 E9.
  unfold scan_row, as_stored. rewrite E1, E2, E3, E4, E5, E6, E7, E8, E9, Hc, Hd, Hn, Hh.
  reflexivity.
Qed.

(** X3.  Upsert then list: when [encoding/json] reads the collections of a
    record back from the text it prints for them, [GetAllTandas] after
    [UpsertTanda] of the record returns it, under its id only once, with
    every field as written, but with a [nil] collection as an empty one and,
    if the id was stored before, with the [created_at] stored then. *)
Theorem upsert_then_get_returns_record (s : Store) (r : Tanda) (w : World) (t : table) :
  table_of s w = Some t →
  columns_faithful r →
  ∃ w' tandas,
    UpsertTanda s r w = (None, w')
    ∧ GetAllTandas s w' = Ok tandas
    ∧ as_stored (from_option created_at (CreatedAt r) (t !! ID r)) r ∈ tandas
    ∧ (∀ x, x ∈ tandas → ID x = ID r →
         x = as_stored (from_option created_at (CreatedAt r) (t !! ID r)) r).
Proof.
  intros Ht Hf. eexists _, _. split; [apply (exec_on_table _ _ _ _ Ht)|].
  split; [apply GetAllTandas_table, table_of_mutate|].
  assert (∃ row, insert_or_update (ID r) (row_of r) t !! ID r = Some row
                 ∧ scan_row (ID r) row
                   = as_stored (from_option created_at (CreatedAt r) (t !! ID r)) r)
    as (row & Hrow & Hscan).
  { unfold insert_or_update. destruct (t !! ID r) as [old|] eqn:E; simpl.
    - eexists. split; [apply lookup_insert_eq|].
      apply scan_row_as_stored; try exact Hf; rewrite ?row_of_columns; reflexivity.
    - eexists. split; [apply lookup_insert_eq|].
      apply scan_row_as_stored; try exact Hf; rewrite ?row_of_columns; reflexivity. }
  split.
  - apply list_elem_of_fmap. exists (ID r, row). split; [symmetry; exact Hscan|].
    rewrite select_all_Permutation. apply elem_of_map_to_list. exact Hrow.
  - intros x Hx Hid. apply list_elem_of_fmap in Hx as [[id row'] [-> Hin]].
    rewrite select_all_Permutation in Hin. apply elem_of_map_to_list in Hin.
    simpl in Hid. subst id. simpl. rewrite Hrow in Hin. injection Hin as <-. exact Hscan.
Qed.

(** X4.  [DeleteTanda] on an open database succeeds whether or not the id is
    stored.  Afterwards no row is stored under the id, the rows under every
    other id are as before, and the store is one record smaller if the id
    was stored; deleting an id that is not stored leaves the listing as it
    was.  No file but the database changes. *)
Theorem DeleteTanda_removes_only_that_id (s : Store) (id : string) (w : World) (t : table) :
  table_of s w = Some t →
  ∃ w',
    DeleteTanda s id w = (None, w')
    ∧ row_at s id w' = None
    ∧ (∀ id', id' ≠ id → row_at s id' w' = t !! id')
    ∧ count (GetAllTandas s w')
      = Some (if t !! id is Some _ then pred (size t) else size t)
    ∧ (t !! id = None → GetAllTandas s w' = GetAllTandas s w)
    ∧ (∀ p, p ≠ path s → os.fs w' !! p = os.fs w !! p).
Proof.
  intros Ht. eexists. split; [apply (exec_on_table _ _ _ _ Ht)|]. split_and!.
  - rewrite row_at_mutate. apply lookup_delete_eq.
  - intros id' Hid. rewrite row_at_mutate. apply lookup_delete_ne. congruence.
  - rewrite (count_GetAllTandas _ _ _ (table_of_mutate _ _ _)).
    destruct (t !! id) as [row|] eqn:E.
    + rewrite map_size_delete_Some by eauto. reflexivity.
    + rewrite map_size_delete_None by exact E. reflexivity.
  - intros Habsent. rewrite (GetAllTandas_table _ _ _ (table_of_mutate _ _ _)).
    rewrite (GetAllTandas_table _ _ _ Ht), delete_id by exact Habsent. reflexivity.
  - intros p Hp. apply fs_mutate_other, Hp.
Qed.

(** X5.  [ClearAll] on an open database succeeds and leaves a store from
    which [GetAllTandas] returns no record, whatever it held; no file but
    the database changes. *)
Theorem ClearAll_empties_the_store (s : Store) (w : World) (t : table) :
  table_of s w = Some t →
  ∃ w',
    ClearAll s w = (None, w')
    ∧ GetAllTandas s w' = Ok []
    ∧ (∀ id, row_at s id w' = None)
    ∧ (∀ p, p ≠ path s → os.fs w' !! p = os.fs w !! p).
Proof.
  intros Ht. eexists. split; [apply (exec_on_table _ _ _ _ Ht)|]. split_and!.
  - rewrite (GetAllTandas_table _ _ _ (table_of_mutate _ _ _)).
    unfold select_all. rewrite map_to_list_empty. reflexivity.
  - intros id. rewrite row_at_mutate. apply lookup_empty.
  - intros p Hp. apply fs_mutate_other, Hp.
Qed.

End Listing.

Section Reopen.

Context `{Json (slice string), Json (slice Note), Json (slice RunResult)}.



End Reopen.

Lemma recent_min {A : Type} (k : nat) (l : list A) :
  recent (Nat.min k (length l)) l = recent k l.
Proof.
  unfold recent. destruct (Nat.le_ge_cases k (length l)).
  - rewrite Nat.min_l by lia. reflexivity.
  - rewrite Nat.min_r by lia. rewrite Nat.sub_diag.
    replace (length l - k)%nat with 0%nat by lia. reflexivity.
Qed.

Lemma failures_bounds (runs : list RunResult) : 0 ≤ failures runs ≤ Z.of_nat (length runs).
Proof. unfold failures. pose proof (length_filter (λ run, Result run = "fail") runs). lia. Qed.

Lemma failures_all (runs : list RunResult) :
  failures runs = Z.of_nat (length runs) ↔ Forall (λ run, Result run = "fail") runs.
Proof.
  unfold failures. induction runs as [|run runs IH].
  - split; [constructor|reflexivity].
  - rewrite filter_cons. pose proof (length_filter (λ run, Result run = "fail") runs).
    case_decide; simpl length.
    + rewrite Forall_cons. split.
      * intros E. split; [assumption|]. apply IH. lia.
      * intros [_ Hall]. apply IH in Hall. lia.
    + split; [lia|]. intros Hall. apply Forall_cons in Hall as [? _]. contradiction.
Qed.

(** X7.  The flakiness score lies between 0 and 1.  It is 0 exactly when
    none of the last ten runs failed, an empty history included, and 1
    exactly when there is a run and every one of the last ten failed. *)
Theorem flakiness_score_between_0_and_1 (history : slice RunResult) :
  let window := recent 10 (elems history) in
  (0 <= calculateFlakiness history <= 1)%Q
  ∧ ((calculateFlakiness history == 0)%Q ↔ failures window = 0)
  ∧ ((calculateFlakiness history == 1)%Q
     ↔ window ≠ [] ∧ Forall (λ run, Result run = "fail") window).
Proof.
  intros window.
  pose proof (calculateFlakiness_window history) as Hs. cbv zeta in Hs.
  rewrite recent_min in Hs. fold window in Hs.
  pose proof (recent_length 10 (elems history)) as Hlen. fold window in Hlen.
  pose proof (failures_bounds window) as Hb.
  pose proof (failures_all window) as Hall.
  set (n := Nat.min 10 (length (elems history))) in *.
  destruct (decide (n = 0%nat)) as [Hz|Hnz].
  - assert (window = []) as Hw by (apply length_zero_iff_nil; lia).
    rewrite Hs. split; [|split].
    + split; [apply Qle_refl|]. unfold Qle. simpl. lia.
    + rewrite Hw. split; reflexivity.
    + split; [intros E; discriminate E|]. intros [Hne _]. contradiction.
  - rewrite Hs. unfold Qle, Qeq. simpl.
    rewrite !Z.mul_1_r, ?Z.mul_1_l.
    assert (Z.pos (Pos.of_nat n) = Z.of_nat n) as -> by lia.
    split; [|split].
    + lia.
    + reflexivity.
    + rewrite <- Hall. split.
      * intros E. split; [|lia]. intros Hw. rewrite Hw in Hlen. simpl in Hlen. lia.
      * intros [_ E]. lia.
Qed.

Section StoreScenario.

Import reference.

Lemma GetAllTandas_lists_witness :
  ∃ tandas,
    GetAllTandas scenario.store scenario.registry = Ok tandas
    ∧ newest_first tandas
    ∧ length tandas = 2%nat.
Proof.
  destruct (GetAllTandas_lists_newest_first scenario.store scenario.registry
              {[ "td-1" := row_of scenario.login; "td-2" := row_of scenario.checkout ]})
    as (tandas & Hget & Hsorted & _ & Hlen & _).
  - evaluate.
  - exists tandas. split; [exact Hget|]. split; [exact Hsorted|]. rewrite Hlen. evaluate.
Defined.

Lemma UpsertTanda_touches_one_row_witness :
  ∃ w',
    UpsertTanda scenario.store scenario.checkout
      (UpsertTanda scenario.store scenario.login scenario.fresh).2 = (None, w')
    ∧ row_at scenario.store "td-2" w' = Some (row_of scenario.checkout)
    ∧ row_at scenario.store "td-1" w' = Some (row_of scenario.login)
    ∧ count (GetAllTandas scenario.store w') = Some 2%nat.
Proof.
  destruct (UpsertTanda_touches_one_row scenario.store scenario.checkout
              (UpsertTanda scenario.store scenario.login scenario.fresh).2
              {[ "td-1" := row_of scenario.login ]})
    as (w' & Hup & Hnew & Hother & Hcount & _).
  - evaluate.
  - exists w'. split; [exact Hup|]. split; [apply Hnew; evaluate|].
    split; [rewrite (Hother "td-1") by evaluate_differs; evaluate|].
    rewrite Hcount. evaluate.
Defined.

Lemma upsert_then_get_witness :
  ∃ w' tandas,
    UpsertTanda scenario.store scenario.login scenario.fresh = (None, w')
    ∧ GetAllTandas scenario.store w' = Ok tandas
    ∧ as_stored "2025-01-01T00:00:00Z" scenario.login ∈ tandas.
Proof.
  destruct (upsert_then_get_returns_record scenario.store scenario.login scenario.fresh ∅)
    as (w' & tandas & Hup & Hget & Hin & _).
  - evaluate.
  - split_and!; evaluate.
  - exists w', tandas. split; [exact Hup|]. split; [exact Hget|]. exact Hin.
Defined.

Lemma DeleteTanda_witness :
  ∃ w',
    DeleteTanda scenario.store "td-1" scenario.registry = (None, w')
    ∧ row_at scenario.store "td-1" w' = None
    ∧ row_at scenario.store "td-2" w' = Some (row_of scenario.checkout)
    ∧ count (GetAllTandas scenario.store w') = Some 1%nat.
Proof.
  destruct (DeleteTanda_removes_only_that_id scenario.store "td-1" scenario.registry
              {[ "td-1" := row_of scenario.login; "td-2" := row_of scenario.checkout ]})
    as (w' & Hdel & Hgone & Hother & Hcount & _).
  - evaluate.
  - exists w'. split; [exact Hdel|]. split; [exact Hgone|].
    split; [rewrite (Hother "td-2") by evaluate_differs; evaluate|].
    rewrite Hcount. evaluate.
Defined.

Lemma ClearAll_witness :
  ∃ w',
    ClearAll scenario.store scenario.registry = (None, w')
    ∧ GetAllTandas scenario.store w' = Ok [].
Proof.
  destruct (ClearAll_empties_the_store scenario.store scenario.registry
              {[ "td-1" := row_of scenario.login; "td-2" := row_of scenario.checkout ]})
    as (w' & Hclear & Hget & _).
  - evaluate.
  - exists w'. split; [exact Hclear|exact Hget].
Defined.

End StoreScenario.

(** ** The synchronizer *)

Section ImportFrame.

Context `{Json Tanda, Json (slice string), Json (slice Note), Json (slice RunResult)}.

Lemma exec_frame (s : Store) (stmt : table → table) (w : World) :
  (∀ p, p ≠ path s → os.fs (exec s stmt w).2 !! p = os.fs w !! p)
  ∧ os.now (exec s stmt w).2 = os.now w
  ∧ os.out (exec s stmt w).2 = os.out w.
Proof.
  unfold exec. destruct (os.fs w !! path s) as [[| | |t]|]; simpl; split_and!; try done.
  intros p Hp. apply lookup_insert_ne. congruence.
Qed.

Lemma import_line_frame (s : sync.Syncer) (lineNum : Z) (line : string) (w : World) :
  (∀ p, p ≠ path (sync.store s) →
     os.fs (sync.import_line s lineNum line w) !! p = os.fs w !! p)
  ∧ os.now (sync.import_line s lineNum line w) = os.now w
  ∧ os.out w `prefix_of` os.out (sync.import_line s lineNum line w).
Proof.
  unfold sync.import_line. case_decide; [done|].
  destruct (Unmarshal line) as [tanda [err|]]; simpl.
  - split_and!; try done. by apply prefix_app_r.
  - unfold UpsertTanda.
    pose proof (exec_frame (sync.store s)
                  (insert_or_update (ID (sync.init_slices tanda))
                     (row_of (sync.init_slices tanda))) w)
      as (Hfs & Hnow & Hout).
    destruct (exec _ _ w) as [[err|] w1]; simpl in *.
    + split_and!; try done. rewrite Hout. by apply prefix_app_r.
    + split_and!; try done. by rewrite Hout.
Qed.

Lemma import_lines_frame (s : sync.Syncer) (lines : list string) :
  ∀ (lineNum : Z) (w : World),
    (∀ p, p ≠ path (sync.store s) →
       os.fs (sync.import_lines s lineNum lines w) !! p = os.fs w !! p)
    ∧ os.now (sync.import_lines s lineNum lines w) = os.now w
    ∧ os.out w `prefix_of` os.out (sync.import_lines s lineNum lines w).
Proof.
  induction lines as [|line rest IH]; intros lineNum w; simpl.
  - done.
  - destruct (IH (lineNum + 1) (sync.import_line s (lineNum + 1) line w))
      as (Hfs & Hnow & Hout).
    destruct (import_line_frame s (lineNum + 1) line w) as (Hfs1 & Hnow1 & Hout1).
    split_and!.
    + intros p Hp. rewrite Hfs, Hfs1 by exact Hp. reflexivity.
    + congruence.
    + by etrans.
Qed.

Lemma ImportFromJSONL_frame (s : sync.Syncer) (w : World) :
  (∀ p, p ≠ path (sync.store s) →
     os.fs (sync.ImportFromJSONL s w).2 !! p = os.fs w !! p)
  ∧ os.out w `prefix_of` os.out (sync.ImportFromJSONL s w).2
  ∧ os.now (sync.ImportFromJSONL s w).2 = os.now w.
Proof.
  unfold sync.ImportFromJSONL.
  destruct (os.Open (sync.jsonlPath s) w) as [|err|data readErr]; simpl; try done.
  unfold ClearAll.
  pose proof (exec_frame (sync.store s) (λ _, ∅) w) as (Hfs & Hnow & Hout).
  destruct (exec (sync.store s) (λ _, ∅) w) as [[err|] w1]; simpl in *.
  - split_and!; try done. by rewrite Hout.
  - destruct (bufio.Scan (1024 * 1024) data) as [lines scanErr].
    destruct (import_lines_frame s lines 0 w1) as (Hfs2 & Hnow2 & Hout2).
    assert (∀ p, p ≠ path (sync.store s) →
              os.fs (sync.import_lines s 0 lines w1) !! p = os.fs w !! p) as Hfs3.
    { intros p Hp. rewrite Hfs2, Hfs by exact Hp. reflexivity. }
    rewrite Hout in Hout2. rewrite Hnow in Hnow2.
    destruct (bufio.scan_error scanErr readErr) as [err|]; simpl; done.
Qed.

(** X8.  [ImportFromJSONL], on a log path that holds no database, writes to
    the database file and to nothing else: the log and every other path are
    left as they were, and what was printed before stays.  When the log is
    absent the import succeeds without touching anything, the store
    included; when the log path is a socket, which cannot be opened, the
    import fails and world and syncer stay as they were.  A directory at
    the log path can be opened: the import then empties the store before
    its first read fails, and returns that error as [error reading JSONL].
    An import that returns an error leaves the syncer as it was, and an
    import changes nothing of the syncer but the time of the last
    synchronisation, which it sets to the current time. *)
Theorem import_touches_only_the_store (s : sync.Syncer) (w : World) :
  ¬ holds_database (sync.jsonlPath s) w →
  let err := (sync.ImportFromJSONL s w).1.1 in
  let s' := (sync.ImportFromJSONL s w).1.2 in
  let w' := (sync.ImportFromJSONL s w).2 in
  (∀ p, p ≠ path (sync.store s) → os.fs w' !! p = os.fs w !! p)
  ∧ os.out w `prefix_of` os.out w'
  ∧ os.now w' = os.now w
  ∧ (os.fs w !! sync.jsonlPath s = None → err = None ∧ w' = w ∧ s' = s)
  ∧ (os.fs w !! sync.jsonlPath s = Some os.Socket → is_Some err ∧ w' = w ∧ s' = s)
  ∧ (os.fs w !! sync.jsonlPath s = Some os.Directory →
     is_Some (table_of (sync.store s) w) →
     err = Some (wrap "error reading JSONL" ("read " ++ sync.jsonlPath s ++ ": is a directory"))
     ∧ GetAllTandas (sync.store s) w' = Ok []
     ∧ os.out w' = os.out w
     ∧ s' = s)
  ∧ (is_Some err → s' = s)
  ∧ (s' = s ∨ s' = sync.set_lastSync s (os.now w)).
Proof.
  intros Hlog err s' w'.
  destruct (ImportFromJSONL_frame s w) as (Hfs & Hout & Hnow).
  split; [exact Hfs|]. split; [exact Hout|]. split; [exact Hnow|].
  unfold err, s', w'. clear Hfs Hout Hnow err s' w'.
  unfold sync.ImportFromJSONL, os.Open.
  destruct (os.fs w !! sync.jsonlPath s) as [[data| | |t]|] eqn:E; simpl.
  - unfold ClearAll.
    pose proof (exec_frame (sync.store s) (λ _, ∅) w) as (_ & Hnow & _).
    destruct (exec (sync.store s) (λ _, ∅) w) as [[err|] w1]; simpl in *.
    + split_and!; by auto.
    + destruct (bufio.Scan (1024 * 1024) data) as [lines scanErr].
      destruct (import_lines_frame s lines 0 w1) as (_ & Hnow2 & _).
      destruct scanErr as [err|]; simpl.
      * split_and!; by auto.
      * split; [done|]. split; [done|]. split; [done|]. split; [by intros [? ?]|].
        right. congruence.
  - split_and!; by eauto.
  - split; [done|]. split; [done|]. split.
    + intros _ [t Ht]. unfold ClearAll. rewrite (exec_on_table _ _ _ _ Ht). simpl.
      split; [done|]. split; [|done].
      rewrite (GetAllTandas_table _ _ _ (table_of_mutate _ _ _)).
      unfold select_all. rewrite map_to_list_empty. reflexivity.
    + unfold ClearAll. destruct (exec (sync.store s) (λ _, ∅) w) as [[err|] w1]; simpl; by auto.
  - destruct Hlog. by exists t.
  - split_and!; by auto.
Qed.

(** X9.  The store after an import is determined by the log alone.  Imports
    of the same log into two stores that hold different records return the
    same error and leave stores that list the same records; and importing
    a second time, right after the first, returns the same error and
    leaves the listing as the first import left it. *)
Theorem import_replaces_store_by_log (s : sync.Syncer) (w1 w2 : World) (data : string)
    (t1 t2 : table) :
  os.fs w1 !! sync.jsonlPath s = Some (os.Regular data) →
  os.fs w2 !! sync.jsonlPath s = Some (os.Regular data) →
  table_of (sync.store s) w1 = Some t1 →
  table_of (sync.store s) w2 = Some t2 →
  let once := sync.ImportFromJSONL s w1 in
  let other := sync.ImportFromJSONL s w2 in
  let again := sync.ImportFromJSONL once.1.2 once.2 in
  once.1.1 = other.1.1
  ∧ GetAllTandas (sync.store s) once.2 = GetAllTandas (sync.store s) other.2
  ∧ again.1.1 = once.1.1
  ∧ GetAllTandas (sync.store s) again.2 = GetAllTandas (sync.store s) once.2.
Proof.
  intros Hlog1 Hlog2 Ht1 Ht2 once other again.
  destruct (ImportFromJSONL_spec s w1 data t1 Hlog1 Ht1) as (w1' & E1 & Htab1 & _).
  destruct (ImportFromJSONL_spec s w2 data t2 Hlog2 Ht2) as (w2' & E2 & Htab2 & _).
  assert (sync.jsonlPath s ≠ path (sync.store s)) as Hne.
  { intros Heq. unfold table_of in Ht1. rewrite <- Heq, Hlog1 in Ht1. discriminate. }
  assert (os.fs once.2 !! sync.jsonlPath s = Some (os.Regular data)) as Hlog1'.
  { destruct (ImportFromJSONL_frame s w1) as [Hfs _].
    unfold once. rewrite Hfs by exact Hne. exact Hlog1. }
  set (s1 := once.1.2).
  assert (sync.store s1 = sync.store s ∧ sync.jsonlPath s1 = sync.jsonlPath s) as [Hst Hjp].
  { unfold s1, once. rewrite E1. simpl. destruct (bufio.Scan _ _).2; done. }
  assert (table_of (sync.store s1) once.2
          = Some (upserted (records (bufio.Scan (1024 * 1024) data).1) ∅)) as Htab1'.
  { rewrite Hst. unfold once. rewrite E1. exact Htab1. }
  rewrite <- Hjp in Hlog1'.
  destruct (ImportFromJSONL_spec s1 once.2 data _ Hlog1' Htab1') as (w3 & E3 & Htab3 & _).
  rewrite Hst in Htab3.
  unfold again. fold s1. rewrite E3. unfold other. rewrite E2. unfold once in *. rewrite E1 in *.
  simpl. split_and!; try done.
  - rewrite (GetAllTandas_table _ _ _ Htab1), (GetAllTandas_table _ _ _ Htab2). done.
  - rewrite (GetAllTandas_table _ _ _ Htab3), (GetAllTandas_table _ _ _ Htab1). done.
Qed.

Lemma insert_or_update_same (id : string) (row : Row) (t : table) :
  insert_or_update id row t !! id
  = Some (with_created (from_option created_at (created_at row) (t !! id)) row).
Proof.
  unfold insert_or_update. destruct (t !! id) as [old|]; rewrite lookup_insert_eq; simpl.
  - reflexivity.
  - destruct row; reflexivity.
Qed.

Lemma upserted_lookup (id : string) (rs : list Tanda) :
  ∀ t : table, upserted rs t !! id = merged id rs (t !! id).
Proof.
  induction rs as [|r rs IH]; intros t.
  - reflexivity.
  - change (upserted (r :: rs) t) with (upserted rs (insert_or_update (ID r) (row_of r) t)).
    rewrite IH. unfold merged. rewrite filter_cons. case_decide as Hid.
    + subst id. rewrite insert_or_update_same.
      assert (created_at (row_of r) = CreatedAt r) as ->
        by (rewrite row_of_columns; reflexivity).
      destruct (filter (λ r0, ID r0 = ID r) rs) as [|first later] eqn:E; simpl.
      * destruct (t !! ID r); reflexivity.
      * destruct (t !! ID r); simpl; rewrite ?last_cons; destruct (last later); reflexivity.
    + rewrite insert_or_update_other by congruence. reflexivity.
Qed.

(** X10.  When lines of the log carry the same id, the last of them wins:
    after an import the row stored under an id is the row of the last
    well-formed line with that id, except for [created_at], which is that of
    the first such line; an id that no well-formed line carries is not
    stored. *)
Theorem import_last_line_wins (s : sync.Syncer) (w : World) (data : string) (t0 : table) :
  os.fs w !! sync.jsonlPath s = Some (os.Regular data) →
  table_of (sync.store s) w = Some t0 →
  ∀ id,
    row_at (sync.store s) id (sync.ImportFromJSONL s w).2
    = match filter (λ r, ID r = id) (records (bufio.Scan (1024 * 1024) data).1) with
      | [] => None
      | first :: later =>
          Some (with_created (CreatedAt first) (row_of (default first (last later))))
      end.
Proof.
  intros Hlog Ht id.
  destruct (ImportFromJSONL_spec s w data t0 Hlog Ht) as (w' & E & Htab & _).
  rewrite E. simpl. unfold row_at. rewrite Htab. simpl.
  rewrite upserted_lookup, lookup_empty. reflexivity.
Qed.

Lemma exec_keeps_database (s : Store) (stmt : table → table) (w : World) (p : string) :
  holds_database p w → holds_database p (exec s stmt w).2.
Proof.
  intros [t Ht]. unfold exec, holds_database.
  destruct (os.fs w !! path s) as [[| | |t0]|] eqn:E; simpl; eauto.
  destruct (decide (p = path s)) as [->|Hne].
  - rewrite lookup_insert_eq. eauto.
  - rewrite lookup_insert_ne by congruence. eauto.
Qed.

Lemma import_lines_keeps_database (s : sync.Syncer) (p : string) (lines : list string) :
  ∀ (lineNum : Z) (w : World),
    holds_database p w → holds_database p (sync.import_lines s lineNum lines w).
Proof.
  induction lines as [|line rest IH]; intros lineNum w Hdb; simpl; [exact Hdb|].
  apply IH. unfold sync.import_line. case_decide; [exact Hdb|].
  destruct (Unmarshal line) as [tanda [err|]]; [exact Hdb|].
  unfold UpsertTanda.
  pose proof (exec_keeps_database (sync.store s)
                (insert_or_update (ID (sync.init_slices tanda))
                   (row_of (sync.init_slices tanda)))
                w p Hdb) as Hk.
  destruct (exec _ _ w) as [[err|] w1]; exact Hk.
Qed.

Lemma ImportFromJSONL_keeps_database (s : sync.Syncer) (p : string) (w : World) :
  holds_database p w → holds_database p (sync.ImportFromJSONL s w).2.
Proof.
  intros Hdb. unfold sync.ImportFromJSONL.
  destruct (os.Open (sync.jsonlPath s) w) as [|err|data readErr]; simpl; try exact Hdb.
  unfold ClearAll.
  pose proof (exec_keeps_database (sync.store s) (λ _, ∅) w p Hdb) as Hk.
  destruct (exec (sync.store s) (λ _, ∅) w) as [[err|] w1]; simpl in *; [exact Hk|].
  destruct (bufio.Scan (1024 * 1024) data) as [lines scanErr].
  pose proof (import_lines_keeps_database s p lines 0 w1 Hk).
  destruct (bufio.scan_error scanErr readErr); assumption.
Qed.

End ImportFrame.

Section ImportScenario.

Import reference.

Lemma import_touches_only_the_store_witness :
  let w := scenario.with_log scenario.log scenario.registry in
  os.fs (sync.ImportFromJSONL scenario.syncer w).2 !! sync.jsonlPath scenario.syncer
  = Some (os.Regular scenario.log).
Proof.
  intros w.
  destruct (import_touches_only_the_store scenario.syncer w) as [Hfs _].
  - intros [t Ht]. revert Ht. evaluate_differs.
  - rewrite Hfs by evaluate_differs. evaluate.
Defined.

Lemma import_replaces_store_witness :
  let into_empty :=
    sync.ImportFromJSONL scenario.syncer (scenario.with_log scenario.log scenario.fresh) in
  let into_registry :=
    sync.ImportFromJSONL scenario.syncer
      (scenario.with_log scenario.log_repeating scenario.registry) in
  let over_registry :=
    sync.ImportFromJSONL scenario.syncer
      (scenario.with_log scenario.log scenario.registry) in
  GetAllTandas scenario.store into_empty.2 = GetAllTandas scenario.store over_registry.2
  ∧ count (GetAllTandas scenario.store over_registry.2) = Some 2%nat
  ∧ count (GetAllTandas scenario.store into_registry.2) = Some 1%nat.
Proof.
  intros into_empty into_registry over_registry.
  destruct (import_replaces_store_by_log scenario.syncer
              (scenario.with_log scenario.log scenario.fresh)
              (scenario.with_log scenario.log scenario.registry) scenario.log ∅
              {[ "td-1" := row_of scenario.login; "td-2" := row_of scenario.checkout ]})
    as (_ & Hsame & _).
  - evaluate.
  - evaluate.
  - evaluate.
  - evaluate.
  - split; [exact Hsame|]. split; evaluate.
Defined.

Lemma import_last_line_wins_witness :
  row_at scenario.store "td-1"
    (sync.ImportFromJSONL scenario.syncer
       (scenario.with_log scenario.log_repeating scenario.fresh)).2
  = Some (with_created "2025-01-01T00:00:00Z"
            (row_of (sync.init_slices scenario.login_edited))).
Proof.
  rewrite (import_last_line_wins scenario.syncer
             (scenario.with_log scenario.log_repeating scenario.fresh)
             scenario.log_repeating ∅).
  - evaluate.
  - evaluate.
  - evaluate.
Defined.

End ImportScenario.

(** ** The watchers *)

Section Gaps.

Variable w : watch.Watcher.

(** A qualifying event that arrives at [t'], when the armed timer has run
    out, finds the callback run and arms a new timer. *)
Lemma Start_fires_then_arms (due t' : Z) (e : fsnotify.Event) (calls : list Z)
    (printed : list string) (rest : list (Z * watch.received)) :
  qualifies w e →
  due ≤ t' →
  watch.Start w ((t', watch.Event e) :: rest)
    {| watch.timer := Some due; watch.armed := [due];
       watch.calls := calls; watch.printed := printed |}
  = watch.Start w rest
      {| watch.timer := Some (t' + Z.max 0 (watch.debounce w));
         watch.armed := [t' + Z.max 0 (watch.debounce w)];
         watch.calls := (calls ++ [due])%list;
         watch.printed := printed |}.
Proof.
  intros [Hname Hop] Hle. simpl.
  rewrite decide_False by (intros Hne; apply Hne, Hname).
  destruct (Z.eqb_spec (Z.land (fsnotify.Op e) (Z.lor fsnotify.Write fsnotify.Create)) 0)
    as [E|_]; [done|].
  unfold watch.elapse, watch.Timer_Stop, watch.AfterFunc. simpl.
  rewrite !filter_cons, !filter_nil.
  rewrite decide_False by lia. rewrite decide_True by lia. simpl.
  reflexivity.
Qed.

Lemma Start_events (burst : list (Z * fsnotify.Event)) :
  Forall (λ te, qualifies w te.2) burst →
  ∀ (t : Z) (calls : list Z) (printed : list string),
    watch.callbacks
      (watch.Start w (deliveries burst)
         {| watch.timer := Some (t + Z.max 0 (watch.debounce w));
            watch.armed := [t + Z.max 0 (watch.debounce w)];
            watch.calls := calls; watch.printed := printed |})
    = (calls ++ fired (Z.max 0 (watch.debounce w)) t burst.*1)%list.
Proof.
  induction 1 as [|[t' e] burst Hq _ IH]; intros t calls printed.
  - reflexivity.
  - cbn [deliveries map fst snd fmap list_fmap fired].
    destruct (decide (t + Z.max 0 (watch.debounce w) ≤ t')) as [Hle|Hlt].
    + rewrite Start_fires_then_arms by done. fold (deliveries burst).
      rewrite IH, <- app_assoc. reflexivity.
    + rewrite Start_rearms by (done || lia). fold (deliveries burst).
      rewrite IH. reflexivity.
Qed.

Lemma elapse_idle (t : Z) (l : watch.Loop) :
  watch.armed l = [] →
  watch.elapse t l = l.
Proof.
  intros Ha. unfold watch.elapse. destruct l as [tm ar cs pr]; simpl in *. subst ar.
  simpl. rewrite app_nil_r. reflexivity.
Qed.

Lemma Start_quiet (schedule : list (Z * watch.received)) :
  Forall (λ tr, quiet w tr.2) schedule →
  ∀ l, watch.armed l = [] →
       watch.armed (watch.Start w schedule l) = []
       ∧ watch.calls (watch.Start w schedule l) = watch.calls l.
Proof.
  induction 1 as [|[t r] rest Hq _ IH]; intros l Ha.
  - done.
  - destruct r as [e| |err| |]; simpl in Hq.
    + rewrite unqualified_event_ignored by exact Hq. rewrite elapse_idle by exact Ha.
      apply IH, Ha.
    + cbn [watch.Start]. rewrite elapse_idle by exact Ha. done.
    + cbn [watch.Start]. rewrite elapse_idle by exact Ha.
      match goal with |- context [watch.Start w rest ?l'] => apply (IH l') end.
      exact Ha.
    + cbn [watch.Start]. rewrite elapse_idle by exact Ha. done.
    + cbn [watch.Start]. rewrite elapse_idle by exact Ha.
      destruct (watch.timer l) eqn:E; [|done]. unfold watch.Timer_Stop. rewrite E. simpl.
      rewrite Ha. done.
Qed.

(** X15.  Events on other files of the directory, events that neither write
    nor create (a change of mode, a removal, a rename), and errors of the
    watcher never make the callback run, however many the loop receives and
    however it ends. *)
Theorem other_events_never_fire (schedule : list (Z * watch.received)) :
  Forall (λ tr, quiet w tr.2) schedule →
  watch.callbacks (watch.Start w schedule watch.initial) = [].
Proof.
  intros Hq. destruct (Start_quiet schedule Hq watch.initial eq_refl) as [Ha Hc].
  unfold watch.callbacks. rewrite Ha, Hc. reflexivity.
Qed.

End Gaps.

(** X14.  The debounce in full, for a loop that receives qualifying events
    only: the callback runs one window after each event that the next one
    follows by a window or more, and one window after the last event; an
    event followed within the window never makes it run.  The window is
    the one the watcher was created with or, after [SetDebounce], the one
    set, which changes nothing else; a window that is negative counts as
    none, since a timer of a negative duration is due at once. *)
Theorem callback_runs_after_each_gap (w : watch.Watcher) (d t : Z) (e : fsnotify.Event)
    (burst : list (Z * fsnotify.Event)) :
  qualifies w e →
  Forall (λ te, qualifies w te.2) burst →
  watch.callbacks (watch.Start w (deliveries ((t, e) :: burst)) watch.initial)
  = fired (Z.max 0 (watch.debounce w)) t burst.*1
  ∧ watch.callbacks
      (watch.Start (watch.SetDebounce w d) (deliveries ((t, e) :: burst)) watch.initial)
    = fired (Z.max 0 d) t burst.*1.
Proof.
  assert (∀ w', qualifies w' e → Forall (λ te, qualifies w' te.2) burst →
                watch.callbacks (watch.Start w' (deliveries ((t, e) :: burst)) watch.initial)
                = fired (Z.max 0 (watch.debounce w')) t burst.*1) as Hgap.
  { intros w' He Hq. cbn [deliveries map fst snd]. rewrite Start_arms by done.
    fold (deliveries burst). apply (Start_events w' burst Hq t [] []). }
  intros He Hq. split; [apply Hgap; assumption|].
  apply (Hgap (watch.SetDebounce w d)); assumption.
Qed.

Lemma scenario_written_qualifies : qualifies scenario.watched scenario.written.
Proof. split; [reflexivity|evaluate_differs]. Qed.

Lemma burst_fires_once_witness :
  watch.callbacks
    (watch.Start scenario.watched
       (deliveries [(0, scenario.written); (100 * Millisecond, scenario.written);
                    (400 * Millisecond, scenario.written)])
       watch.initial)
  = [900 * Millisecond].
Proof.
  rewrite (burst_fires_once scenario.watched 0 scenario.written
             [(100 * Millisecond, scenario.written); (400 * Millisecond, scenario.written)]).
  - reflexivity.
  - apply scenario_written_qualifies.
  - repeat constructor; apply scenario_written_qualifies.
  - simpl. unfold Millisecond. lia.
Defined.

Lemma burst_then_done_witness :
  watch.callbacks
    (watch.Start scenario.watched
       (deliveries [(0, scenario.written); (100 * Millisecond, scenario.written)]
        ++ [(300 * Millisecond, watch.Done)])
       watch.initial)
  = [].
Proof.
  apply (burst_then_done_never_fires scenario.watched 0 (300 * Millisecond) scenario.written
           [(100 * Millisecond, scenario.written)]).
  - apply scenario_written_qualifies.
  - repeat constructor; apply scenario_written_qualifies.
  - simpl. unfold Millisecond. lia.
  - apply Z.ltb_lt. evaluate.
Defined.

Lemma burst_then_closed_channel_witness :
  watch.callbacks
    (watch.Start scenario.watched
       (deliveries [(0, scenario.written); (100 * Millisecond, scenario.written)]
        ++ [(300 * Millisecond, watch.ErrorsClosed)])
       watch.initial)
  = [600 * Millisecond].
Proof.
  rewrite (burst_then_closed_channel_fires scenario.watched 0 (300 * Millisecond)
             scenario.written [(100 * Millisecond, scenario.written)] watch.ErrorsClosed).
  - reflexivity.
  - apply scenario_written_qualifies.
  - repeat constructor; apply scenario_written_qualifies.
  - simpl. unfold Millisecond. lia.
  - apply Z.ltb_lt. evaluate.
  - right. reflexivity.
Defined.

Lemma callback_runs_after_each_gap_witness :
  let events :=
    deliveries [(0, scenario.written); (100 * Millisecond, scenario.written);
                (700 * Millisecond, scenario.written)] in
  watch.callbacks (watch.Start scenario.watched events watch.initial)
  = [600 * Millisecond; 1200 * Millisecond]
  ∧ watch.callbacks
      (watch.Start (watch.SetDebounce scenario.watched (-50 * Millisecond)) events
         watch.initial)
    = [0; 100 * Millisecond; 700 * Millisecond].
Proof.
  destruct (callback_runs_after_each_gap scenario.watched (-50 * Millisecond) 0
              scenario.written
              [(100 * Millisecond, scenario.written); (700 * Millisecond, scenario.written)])
    as [Hdefault Hset].
  - apply scenario_written_qualifies.
  - repeat constructor; apply scenario_written_qualifies.
  - split; [rewrite Hdefault|rewrite Hset]; reflexivity.
Defined.

Lemma other_events_never_fire_witness :
  watch.callbacks
    (watch.Start scenario.watched
       [(0, watch.Event scenario.touched); (1 * Millisecond, watch.Event scenario.beside);
        (2 * Millisecond, watch.Error "queue overflow"); (3 * Millisecond, watch.Done)]
       watch.initial)
  = [].
Proof.
  apply (other_events_never_fire scenario.watched).
  repeat constructor.
  - intros [_ Hop]. apply Hop. reflexivity.
  - intros [Hname _]. revert Hname. evaluate_differs.
Defined.

Section Inbox.

Context `{Json rpc.value, rpc.Paths, rpc.Clock}.

Lemma OpenAppend_frame (fault : option error) (inbox : string) (w : World) :
  (∀ p, p ≠ inbox → os.fs (rpc.OpenAppend fault inbox w).2 !! p = os.fs w !! p)
  ∧ os.now (rpc.OpenAppend fault inbox w).2 = os.now w
  ∧ (∀ old, os.read_file inbox (os.fs w) = Some old →
       os.read_file inbox (os.fs (rpc.OpenAppend fault inbox w).2) = Some old).
Proof.
  unfold rpc.OpenAppend, os.read_file. destruct fault as [err|]; simpl.
  - split_and!; try done.
  - destruct (os.fs w !! inbox) as [[data| | |t]|] eqn:E; simpl; rewrite ?E;
      split_and!; try done.
    intros p Hp. apply lookup_insert_ne. congruence.
Qed.

Lemma Append_frame (inbox data : string) (w : World) :
  (∀ p, p ≠ inbox → os.fs (os.Append inbox data w) !! p = os.fs w !! p)
  ∧ os.now (os.Append inbox data w) = os.now w
  ∧ (∀ old, os.read_file inbox (os.fs w) = Some old →
       os.read_file inbox (os.fs (os.Append inbox data w)) = Some (old ++ data)).
Proof.
  unfold os.Append, os.read_file.
  destruct (os.fs w !! inbox) as [[old| | |t]|] eqn:E; simpl; rewrite ?E;
    split_and!; try done.
  - intros p Hp. apply lookup_insert_ne. congruence.
  - intros old' [= <-]. rewrite lookup_insert_eq. reflexivity.
Qed.

Lemma appendTraceInbox_frame (faults : rpc.InboxFaults) (inbox root file : string)
    (w : World) :
  let w' := rpc.appendTraceInbox faults inbox root file w in
  (∀ p, p ≠ inbox → os.fs w' !! p = os.fs w !! p)
  ∧ os.now w' = os.now w
  ∧ (∀ old, os.read_file inbox (os.fs w) = Some old →
       ∃ more, os.read_file inbox (os.fs w') = Some (old ++ more)).
Proof.
  unfold rpc.appendTraceInbox.
  destruct (Marshal _) as [data|err]; simpl.
  2: { split_and!; try done. intros old ->. exists "". by rewrite string_app_nil_r. }
  destruct (OpenAppend_frame (rpc.inbox_open_error faults) inbox w) as (Hfs & Hnow & Hold).
  destruct (rpc.OpenAppend _ inbox w) as [[err|] w1]; simpl in *.
  - split_and!; try done. intros old Ho. exists "". rewrite string_app_nil_r. auto.
  - destruct (rpc.inbox_write_error faults) as [err|]; simpl.
    + split_and!; try done. intros old Ho. exists "". rewrite string_app_nil_r. auto.
    + destruct (Append_frame inbox (data ++ newline) w1) as (Hfs2 & Hnow2 & Hold2).
      split_and!.
      * intros p Hp. rewrite Hfs2, Hfs by exact Hp. reflexivity.
      * congruence.
      * intros old Ho. exists (data ++ newline). auto.
Qed.

(** X16.  Whatever the loop of the trace watcher receives and whichever
    calls on the inbox fail, the daemon's callback only ever appends to the
    trace inbox: what the inbox held is still the beginning of what it
    holds, and no other file changes. *)
Theorem trace_inbox_is_append_only (t : watch.TraceWatcher) (faults : rpc.InboxFaults)
    (dir : string) (schedule : list watch.received) (w : World) :
  let inbox := filepath.Join dir rpc.traceInboxName in
  let w' := watch.TraceWatcher_Start t (rpc.traceCallback faults dir) schedule w in
  (∀ p, p ≠ inbox → os.fs w' !! p = os.fs w !! p)
  ∧ os.now w' = os.now w
  ∧ (∀ old, os.read_file inbox (os.fs w) = Some old →
       ∃ more, os.read_file inbox (os.fs w') = Some (old ++ more)).
Proof.
  intros inbox. revert w. induction schedule as [|r rest IH]; intros w; simpl.
  - split_and!; try done. intros old ->. exists "". by rewrite string_app_nil_r.
  - assert (∀ w1 : World,
              (∀ p, p ≠ inbox → os.fs w1 !! p = os.fs w !! p) →
              os.now w1 = os.now w →
              (∀ old, os.read_file inbox (os.fs w) = Some old →
                 ∃ more, os.read_file inbox (os.fs w1) = Some (old ++ more)) →
              let w' := watch.TraceWatcher_Start t (rpc.traceCallback faults dir) rest w1 in
              (∀ p, p ≠ inbox → os.fs w' !! p = os.fs w !! p)
              ∧ os.now w' = os.now w
              ∧ (∀ old, os.read_file inbox (os.fs w) = Some old →
                   ∃ more, os.read_file inbox (os.fs w') = Some (old ++ more))) as Hstep.
    { intros w1 Hfs Hnow Hold. destruct (IH w1) as (Hfs' & Hnow' & Hold'). split_and!.
      - intros p Hp. rewrite Hfs', Hfs by exact Hp. reflexivity.
      - congruence.
      - intros old Ho. destruct (Hold old Ho) as [m1 Hm1].
        destruct (Hold' _ Hm1) as [m2 Hm2].
        exists (m1 ++ m2). rewrite Hm2, string_app_assoc. reflexivity. }
    assert (∀ old, os.read_file inbox (os.fs w) = Some old →
              ∃ more, os.read_file inbox (os.fs w) = Some (old ++ more)) as Hrefl.
    { intros old ->. exists "". by rewrite string_app_nil_r. }
    destruct r as [e| |err| |].
    + destruct (negb _).
      * apply Hstep; apply (appendTraceInbox_frame faults inbox (filepath.Join dir "..")).
      * apply Hstep; done.
    + split_and!; done.
    + apply Hstep; done.
    + apply Hstep; done.
    + split_and!; done.
Qed.

Lemma appendTraceInbox_appends (inbox root file : string) (w : World) :
  (∃ data, Marshal (rpc.inboxEntry root file (os.now w)) = Ok data) →
  os.fs w !! inbox = None ∨ (∃ old, os.fs w !! inbox = Some (os.Regular old)) →
  let w' := rpc.appendTraceInbox no_faults inbox root file w in
  os.fs w' !! inbox
  = Some (os.Regular (default "" (os.read_file inbox (os.fs w))
                      ++ marshal_text (rpc.inboxEntry root file (os.now w)) ++ newline))
  ∧ os.now w' = os.now w.
Proof.
  intros [data Hdata] Hinbox.
  unfold rpc.appendTraceInbox, marshal_text, rpc.OpenAppend, os.Append, os.read_file.
  rewrite Hdata. simpl.
  destruct Hinbox as [E|[old E]]; rewrite E; simpl.
  - rewrite lookup_insert_eq. simpl. rewrite lookup_insert_eq. done.
  - rewrite E. simpl. rewrite lookup_insert_eq. done.
Qed.

Lemma TraceWatcher_Start_no_faults (t : watch.TraceWatcher) (dir : string)
    (schedule : list watch.received) :
  let inbox := filepath.Join dir rpc.traceInboxName in
  ∀ w : World,
    let w' := watch.TraceWatcher_Start t (rpc.traceCallback no_faults dir) schedule w in
    Forall (λ file, ∃ data,
              Marshal (rpc.inboxEntry (filepath.Join dir "..") file (os.now w)) = Ok data)
      (reported schedule) →
    os.fs w !! inbox = None ∨ (∃ old, os.fs w !! inbox = Some (os.Regular old)) →
    default "" (os.read_file inbox (os.fs w'))
    = default "" (os.read_file inbox (os.fs w))
      ++ log_text (inbox_lines (filepath.Join dir "..") (os.now w) (reported schedule))
    ∧ (reported schedule ≠ [] → is_Some (os.read_file inbox (os.fs w')))
    ∧ (reported schedule = [] → os.fs w' = os.fs w).
Proof.
  intros inbox. induction schedule as [|r rest IH]; intros w; simpl.
  - intros _ _. rewrite string_app_nil_r. done.
  - destruct r as [e| |err| |]; simpl.
    + case_decide as Hbits.
      * destruct (Z.eqb_spec (Z.land (fsnotify.Op e) (Z.lor fsnotify.Create fsnotify.Write)) 0)
          as [?|_]; [contradiction|]. simpl.
        intros Hm Hinbox. apply Forall_cons in Hm as [Hm1 Hm].
        destruct (appendTraceInbox_appends inbox (filepath.Join dir "..") (fsnotify.Name e) w
                    Hm1 Hinbox) as [Hfs Hnow].
        set (w1 := rpc.traceCallback no_faults dir (fsnotify.Name e) w) in *.
        change (rpc.appendTraceInbox no_faults inbox (filepath.Join dir "..") (fsnotify.Name e) w)
          with w1 in Hfs, Hnow.
        destruct (IH w1) as (Hread & Hsome & Hnone).
        { rewrite Hnow. exact Hm. }
        { right. eauto. }
        assert (os.read_file inbox (os.fs w1)
                = Some (default "" (os.read_file inbox (os.fs w))
                        ++ marshal_text
                             (rpc.inboxEntry (filepath.Join dir "..") (fsnotify.Name e) (os.now w))
                        ++ newline)) as Hr1.
        { unfold os.read_file. rewrite Hfs. reflexivity. }
        split_and!.
        -- rewrite Hread, Hr1, Hnow. simpl. rewrite !string_app_assoc. reflexivity.
        -- intros _. unfold inbox_lines in Hread.
           destruct (os.read_file inbox (os.fs (watch.TraceWatcher_Start t _ rest w1))) eqn:E;
             [eauto|].
           destruct (reported rest) eqn:Er.
           ++ rewrite Hnone in E by reflexivity. rewrite Hr1 in E. discriminate.
           ++ destruct Hsome as [? ?]; [done|]. discriminate.
        -- discriminate.
      * destruct (Z.eqb_spec (Z.land (fsnotify.Op e) (Z.lor fsnotify.Create fsnotify.Write)) 0)
          as [_|?]; [|contradiction]. simpl. apply IH.
    + intros _ _. rewrite string_app_nil_r. done.
    + intros Hm Hinbox.
      destruct (IH (os.print ("Trace watcher error (" ++ filepath.Base (watch.trace_dir t)
                              ++ "): " ++ err ++ newline) w))
        as (Hread & Hsome & Hnone); try done.
    + apply IH.
    + intros _ _. rewrite string_app_nil_r. done.
Qed.

(** X17.  When no call on the inbox fails and every entry can be marshalled,
    the loop of the trace watcher appends to the trace inbox one line for
    each event that creates or writes a file, whatever the file and as often
    as it is reported, in the order received and up to the point where the
    loop ends through [Stop] or closed events; a closed [Errors] channel and
    errors do not end it.  The inbox is created by the first such event, and
    without one nothing changes. *)
Theorem trace_inbox_gets_a_line_per_file (t : watch.TraceWatcher) (dir : string)
    (schedule : list watch.received) (w : World) :
  let inbox := filepath.Join dir rpc.traceInboxName in
  let w' := watch.TraceWatcher_Start t (rpc.traceCallback no_faults dir) schedule w in
  Forall (λ file, ∃ data,
            Marshal (rpc.inboxEntry (filepath.Join dir "..") file (os.now w)) = Ok data)
    (reported schedule) →
  os.fs w !! inbox = None ∨ (∃ old, os.fs w !! inbox = Some (os.Regular old)) →
  default "" (os.read_file inbox (os.fs w'))
  = default "" (os.read_file inbox (os.fs w))
    ++ log_text (inbox_lines (filepath.Join dir "..") (os.now w) (reported schedule))
  ∧ (reported schedule ≠ [] → is_Some (os.read_file inbox (os.fs w')))
  ∧ (reported schedule = [] → os.fs w' = os.fs w).
Proof. intros inbox w'. apply TraceWatcher_Start_no_faults. Qed.

End Inbox.

Section InboxScenario.

Import reference.

Lemma trace_inbox_witness :
  os.read_file ".tandas/trace_inbox.jsonl"
    (os.fs (watch.TraceWatcher_Start scenario.traces (rpc.traceCallback no_faults scenario.dir)
              scenario.tracing scenario.fresh))
  = Some (log_text (inbox_lines "." 1767225600
                      ["test-results/a.zip"; "test-results/b/c.zip"])).
Proof.
  destruct (trace_inbox_gets_a_line_per_file scenario.traces scenario.dir scenario.tracing
              scenario.fresh) as (Hread & Hsome & _).
  - repeat constructor; eexists; reflexivity.
  - left. evaluate.
  - destruct Hsome as [content Hcontent]; [evaluate_differs|].
    rewrite Hcontent in Hread. simpl in Hread.
    change (filepath.Join scenario.dir rpc.traceInboxName) with ".tandas/trace_inbox.jsonl"
      in Hcontent.
    rewrite Hcontent, Hread. evaluate.
Defined.

End InboxScenario.

(** X22.  Once [Stop] has returned, the loop of the trace watcher is silent:
    whatever its [select]s receive of what can then proceed, it runs the
    callback no more and prints nothing; and a second [Stop] panics. *)
Theorem stopped_trace_watcher_is_silent (t t' : watch.TraceWatcher)
    (callback : string → World → World) (schedule : list watch.received) (w : World) :
  watch.TraceWatcher_Stop t = Returns t' →
  Forall (λ r, watch.TraceWatcher_ready t' r = true) schedule →
  watch.TraceWatcher_Start t' callback schedule w = w
  ∧ watch.TraceWatcher_Stop t' = Panics "close of closed channel".
Proof.
  unfold watch.TraceWatcher_Stop, close.
  destruct (closed (watch.trace_done t)); [discriminate|]. intros [= <-] Hready.
  split; [|reflexivity].
  induction Hready as [|r rest Hr _ IH]; [reflexivity|].
  destruct r; simpl in *; try discriminate; auto.
Qed.

Lemma stopped_trace_watcher_witness :
  watch.TraceWatcher_Start
    {| watch.trace_watcher := {| fsnotify.channels_closed := true |};
       watch.trace_dir := "test-results"; watch.trace_done := {| closed := true |} |}
    (λ _, os.print "called") [watch.ErrorsClosed; watch.ErrorsClosed; watch.EventsClosed]
    scenario.fresh
  = scenario.fresh.
Proof.
  apply (stopped_trace_watcher_is_silent scenario.traces).
  - reflexivity.
  - repeat constructor.
Defined.

(** ** The daemon *)

Lemma wrap_nonempty (msg err : string) : msg ≠ "" → wrap msg err ≠ "".
Proof. destruct msg; [done|]. intros _ E. discriminate E. Qed.

Lemma set_lastSync_same (s : sync.Syncer) : sync.set_lastSync s (sync.lastSync s) = s.
Proof. destruct s; reflexivity. Qed.

Lemma set_syncer_same (d : rpc.Daemon) : rpc.set_syncer d (rpc.syncer d) = d.
Proof. destruct d; reflexivity. Qed.

Lemma same_configuration_refl (d : rpc.Daemon) : same_configuration d d.
Proof. unfold same_configuration. rewrite set_lastSync_same, set_syncer_same. reflexivity. Qed.

Lemma same_configuration_trans (d1 d2 d3 : rpc.Daemon) :
  same_configuration d1 d2 → same_configuration d2 d3 → same_configuration d1 d3.
Proof.
  unfold same_configuration. intros H12 H23. rewrite H23 at 1. rewrite H12 at 1 2.
  destruct d1 as [? ? ? []]; reflexivity.
Qed.

Lemma same_configuration_set (d : rpc.Daemon) (t : Z) :
  same_configuration d (rpc.set_syncer d (sync.set_lastSync (rpc.syncer d) t)).
Proof. reflexivity. Qed.

Section Serving.

Context `{Json Tanda, Json (slice string), Json (slice Note), Json (slice RunResult),
          JsonIndent rpc.LockFile, rpc.Time}.

Lemma write_tandas_error (env : sync.Env) (tandas : list Tanda) :
  ∀ (i : nat) (buffered : string), sync.write_tandas env i tandas buffered ≠ Err "".
Proof.
  induction tandas as [|t rest IH]; intros i buffered; simpl; [discriminate|].
  destruct (Marshal t); [|intros [= E]; revert E; apply wrap_nonempty; discriminate].
  destruct (sync.fails env (sync.Write i));
    [intros [= E]; revert E; apply wrap_nonempty; discriminate|].
  destruct (sync.fails env (sync.WriteNewline i));
    [intros [= E]; revert E; apply wrap_nonempty; discriminate|].
  apply IH.
Qed.

Lemma ExportToJSONL_outcome (env : sync.Env) (s : sync.Syncer) (w : World) :
  (sync.ExportToJSONL env s w).1.1 ≠ Some ""
  ∧ ∃ t, (sync.ExportToJSONL env s w).1.2 = sync.set_lastSync s t.
Proof.
  assert (∃ t, s = sync.set_lastSync s t) as Hs
    by (exists (sync.lastSync s); symmetry; apply set_lastSync_same).
  unfold sync.ExportToJSONL.
  destruct (GetAllTandas _ w) as [tandas|err0]; simpl;
    [|split; [intros [= E]; revert E; apply wrap_nonempty; discriminate|exact Hs]].
  destruct (sync.createTemp env _ w) as [[tmp|err] w1]; simpl;
    [|split; [intros [= E]; revert E; apply wrap_nonempty; discriminate|exact Hs]].
  pose proof (write_tandas_error env tandas 0 "") as Hwt.
  destruct (sync.write_tandas env 0 tandas "") as [buffered|err]; simpl;
    [|split; [congruence|exact Hs]].
  repeat (match goal with
          | |- context [sync.fails env ?c] =>
              destruct (sync.fails env c); simpl;
              [split; [intros [= E]; revert E; apply wrap_nonempty; discriminate|exact Hs]|]
          end).
  split; [discriminate|eauto].
Qed.

Lemma ImportFromJSONL_outcome (s : sync.Syncer) (w : World) :
  (sync.ImportFromJSONL s w).1.1 ≠ Some ""
  ∧ ∃ t, (sync.ImportFromJSONL s w).1.2 = sync.set_lastSync s t.
Proof.
  assert (∃ t, s = sync.set_lastSync s t) as Hs
    by (exists (sync.lastSync s); symmetry; apply set_lastSync_same).
  unfold sync.ImportFromJSONL.
  destruct (os.Open _ w) as [|err|data readErr]; simpl;
    [split; [discriminate|exact Hs]
    |split; [intros [= E]; revert E; apply wrap_nonempty; discriminate|exact Hs]|].
  destruct (ClearAll _ w) as [[err|] w1]; simpl;
    [split; [intros [= E]; revert E; apply wrap_nonempty; discriminate|exact Hs]|].
  destruct (bufio.Scan _ data) as [lines scanErr].
  destruct (bufio.scan_error scanErr readErr) as [err|]; simpl;
    [split; [intros [= E]; revert E; apply wrap_nonempty; discriminate|exact Hs]|].
  split; [discriminate|eauto].
Qed.

Lemma handleRequest_outcome (sys : rpc.Sys) (env : sync.Env) (d : rpc.Daemon)
    (req : rpc.RPCRequest.t) (w : World) :
  let resp := (rpc.handleRequest sys env d req w).1.1 in
  let d' := (rpc.handleRequest sys env d req w).1.2 in
  rpc.RPCResponse.ID resp = rpc.RPCRequest.ID req
  ∧ result_or_error resp
  ∧ same_configuration d d'.
Proof.
  unfold rpc.handleRequest, result_or_error.
  destruct (decide (rpc.RPCRequest.Method req = "ping")).
  { simpl. split_and!; [done|split; [discriminate|done]|apply same_configuration_refl]. }
  destruct (decide (rpc.RPCRequest.Method req = "sync")).
  { destruct (ExportToJSONL_outcome env (rpc.syncer d) w) as [Herr [t Hs]].
    destruct (sync.ExportToJSONL env (rpc.syncer d) w) as [[[err|] s'] w']; simpl in *;
      subst s'; (split_and!; [done| |apply same_configuration_set]).
    - split; [intros _ ->; by apply Herr|done].
    - split; [discriminate|done]. }
  destruct (decide (rpc.RPCRequest.Method req = "import")).
  { destruct (ImportFromJSONL_outcome (rpc.syncer d) w) as [Herr [t Hs]].
    destruct (sync.ImportFromJSONL (rpc.syncer d) w) as [[[err|] s'] w']; simpl in *;
      subst s'; (split_and!; [done| |apply same_configuration_set]).
    - split; [intros _ ->; by apply Herr|done].
    - split; [discriminate|done]. }
  destruct (decide (rpc.RPCRequest.Method req = "status")).
  { simpl. split_and!; [done|split; [discriminate|done]|apply same_configuration_refl]. }
  simpl. split_and!; [done|split; [discriminate|done]|apply same_configuration_refl].
Qed.

(** X18.  On a connection, [handleConnection] answers the requests in the
    order they arrive, each response carrying the id of its request, up to
    the first arrival that is no request (the end of the input or text
    that does not decode) or whose response cannot be written, after which
    nothing is answered.  Every response sent carries a result or an error
    message, never both and never neither.  The handler is still waiting
    exactly when it has answered all the input.  Whatever the requests, the
    daemon stays as configured: its directory, interval, store, log path,
    watchers, listener and [done] channel are unchanged, and only the time
    of the last synchronisation may differ. *)
Theorem connection_answers_in_order (sys : rpc.Sys) (d : rpc.Daemon)
    (input : list rpc.arrival) (w : World) :
  let c := (rpc.handleConnection sys d input w).1.1 in
  let d' := (rpc.handleConnection sys d input w).1.2 in
  rpc.RPCResponse.ID <$> rpc.sent c = rpc.RPCRequest.ID <$> answered_requests input
  ∧ Forall result_or_error (rpc.sent c)
  ∧ (rpc.open c = true ↔ length (rpc.sent c) = length input)
  ∧ same_configuration d d'.
Proof.
  revert d w. induction input as [|a rest IH]; intros d w; simpl.
  - split_and!; [done|constructor|done|apply same_configuration_refl].
  - destruct (rpc.incoming a) as [req|err|]; simpl;
      try (split_and!; [done|constructor|done|apply same_configuration_refl]).
    destruct (handleRequest_outcome sys (rpc.during a) d req w) as (Hid & Hwf & Hcfg).
    destruct (rpc.handleRequest sys (rpc.during a) d req w) as [[resp d1] w1]; simpl in *.
    destruct (rpc.encode_error a); simpl.
    + split_and!; [done|constructor|done|exact Hcfg].
    + destruct (IH d1 w1) as (Hids & Hwfs & Hopen & Hcfg').
      destruct (rpc.handleConnection sys d1 rest w1) as [[c d2] w2]; simpl in *.
      split_and!.
      * by f_equal.
      * by constructor.
      * rewrite Hopen. split; lia.
      * eapply same_configuration_trans; eassumption.
Qed.

End Serving.

(** *** The PID file *)

Lemma digit_char (d : N) :
  (d < 10)%N → Z.of_N (N_of_ascii (pretty_N_char d)) = 48 + Z.of_N d.
Proof.
  intros Hd.
  assert (d = 0 ∨ d = 1 ∨ d = 2 ∨ d = 3 ∨ d = 4 ∨ d = 5 ∨ d = 6 ∨ d = 7 ∨ d = 8 ∨ d = 9)%N
    as Hcases by lia.
  repeat (destruct Hcases as [->|Hcases]; [reflexivity|]). subst d. reflexivity.
Qed.

Lemma digits_String (c : ascii) (rest : string) (acc : Z) (d : N) :
  (d < 10)%N → c = pretty_N_char d →
  strconv.digits (String c rest) acc = strconv.digits rest (acc * 10 + Z.of_N d).
Proof.
  intros Hd ->. simpl. rewrite digit_char by exact Hd.
  destruct (Z.leb_spec 48 (48 + Z.of_N d)); [|lia].
  destruct (Z.leb_spec (48 + Z.of_N d) 57); [|lia]. simpl.
  f_equal. lia.
Qed.

Lemma digits_pretty_N_go (x : N) :
  ∃ k, 0 ≤ k ∧ ∀ s acc,
    strconv.digits (pretty_N_go x s) acc = strconv.digits s (acc * 10 ^ k + Z.of_N x).
Proof.
  induction (N.lt_wf_0 x) as [x _ IH].
  destruct (decide (x = 0%N)) as [->|Hx].
  - exists 0. split; [lia|]. intros s acc. rewrite pretty_N_go_0. f_equal. lia.
  - destruct (IH (x `div` 10)%N) as (k & Hk & Hgo).
    { apply N.div_lt; lia. }
    exists (k + 1). split; [lia|]. intros s acc.
    rewrite pretty_N_go_step by lia. rewrite Hgo.
    rewrite (digits_String _ _ _ (x `mod` 10)%N); [|apply N.mod_lt; lia|reflexivity].
    f_equal. rewrite Z.pow_add_r by lia.
    rewrite N2Z.inj_div, N2Z.inj_mod. change (Z.of_N 10) with 10.
    pose proof (Z.div_mod (Z.of_N x) 10). lia.
Qed.

Lemma pretty_N_go_nonempty (x : N) : ∀ s, s ≠ "" → pretty_N_go x s ≠ "".
Proof.
  induction (N.lt_wf_0 x) as [x _ IH]; intros s Hs.
  destruct (decide (x = 0%N)) as [->|Hx].
  - rewrite pretty_N_go_0. exact Hs.
  - rewrite pretty_N_go_step by lia. apply IH; [apply N.div_lt; lia|discriminate].
Qed.

Lemma digits_head (c : ascii) (rest : string) (acc v : Z) :
  strconv.digits (String c rest) acc = Some v →
  Ascii.eqb c "+" = false ∧ Ascii.eqb c "-" = false.
Proof.
  simpl. intros Hd. split.
  - destruct (Ascii.eqb_spec c "+") as [->|]; [discriminate Hd|reflexivity].
  - destruct (Ascii.eqb_spec c "-") as [->|]; [discriminate Hd|reflexivity].
Qed.

Lemma Atoi_digits (p : positive) :
  pretty_N_go (Npos p) "" ≠ ""
  ∧ strconv.digits (pretty_N_go (Npos p) "") 0 = Some (Zpos p).
Proof.
  split.
  - rewrite pretty_N_go_step by lia. apply pretty_N_go_nonempty. discriminate.
  - destruct (digits_pretty_N_go (Npos p)) as (k & _ & Hgo). rewrite Hgo. reflexivity.
Qed.

(** [Atoi] reads back what [Itoa] prints for an [int]. *)
Lemma Atoi_Itoa (n : Z) :
  - 2 ^ 63 ≤ n ≤ 2 ^ 63 - 1 → strconv.Atoi (strconv.Itoa n) = Ok n.
Proof.
  intros Hn. unfold strconv.Itoa, pretty, pretty_Z. destruct n as [|p|p].
  - reflexivity.
  - destruct (Atoi_digits p) as [Hne Hd].
    unfold pretty, pretty_positive, pretty, pretty_N.
    rewrite (decide_False (P := N.pos p = 0%N)) by discriminate.
    unfold strconv.Atoi.
    destruct (pretty_N_go (N.pos p) "") as [|c rest] eqn:E; [done|].
    cbv iota. destruct (digits_head _ _ _ _ Hd) as [-> ->].
    rewrite decide_False by discriminate. rewrite Hd.
    destruct (Z.leb_spec (- 2 ^ 63) (Z.pos p)); [|lia].
    destruct (Z.leb_spec (Z.pos p) (2 ^ 63 - 1)); [|lia]. reflexivity.
  - destruct (Atoi_digits p) as [Hne Hd].
    unfold pretty, pretty_positive, pretty, pretty_N.
    rewrite (decide_False (P := N.pos p = 0%N)) by discriminate.
    unfold strconv.Atoi.
    change ("-" +:+ pretty_N_go (N.pos p) "") with (String "-" (pretty_N_go (N.pos p) "")).
    cbv iota.
    change (Ascii.eqb "-" "+") with false. change (Ascii.eqb "-" "-") with true.
    cbv iota. rewrite decide_False by exact Hne. rewrite Hd.
    change (- Z.pos p) with (Z.neg p).
    destruct (Z.leb_spec (- 2 ^ 63) (Z.neg p)); [|lia].
    destruct (Z.leb_spec (Z.neg p) (2 ^ 63 - 1)); [|lia]. reflexivity.
Qed.

Lemma Remove_lookup (p q : string) (w : World) :
  os.fs (os.Remove p w) !! q = if decide (q = p) then None else os.fs w !! q.
Proof.
  unfold os.Remove. destruct (os.fs w !! p) eqn:E; simpl.
  - rewrite lookup_delete. repeat case_decide; congruence.
  - case_decide; congruence.
Qed.

Lemma Open_frame (p q : string) (w : World) :
  q ≠ p → os.fs (Open p w).2 !! q = os.fs w !! q.
Proof.
  intros Hq. unfold Open.
  destruct (os.fs w !! p) as [[[|c data]| | |t]|]; simpl; try reflexivity;
    apply lookup_insert_ne; congruence.
Qed.

(** *** Start, status, stop and restart *)

Section Lifecycle.

Context `{Json Tanda, Json (slice string), Json (slice Note), Json (slice RunResult),
          JsonIndent rpc.LockFile, rpc.Time, Json rpc.value, rpc.Paths, rpc.Clock}.

(** What a successful [StartDaemon] leaves. *)
Lemma StartDaemon_Ok (sys : rpc.Sys) (dir intervalStr : string) (w w' : World)
    (d : rpc.Daemon) :
  rpc.StartDaemon sys dir intervalStr w = (Ok d, w') →
  os.exists_path (filepath.Join dir rpc.socketName) w = false
  ∧ os.fs w' !! filepath.Join dir rpc.socketName = Some os.Socket
  ∧ os.fs w' !! filepath.Join dir rpc.pidFileName
    = Some (os.Regular (strconv.Itoa (rpc.Getpid sys)))
  ∧ (∃ data, os.fs w' !! filepath.Join dir rpc.lockFileName = Some (os.Regular data))
  ∧ running d
  ∧ rpc.dir d = dir
  ∧ rpc.listener d
    = {| rpc.addr := filepath.Join dir rpc.socketName; rpc.listener_closed := false |}
  ∧ (∃ interval, rpc.ParseDuration intervalStr = Ok interval)
  ∧ holds_database (filepath.Join dir "db.sqlite") w'.
Proof.
  unfold rpc.StartDaemon.
  destruct (rpc.ParseDuration intervalStr) as [interval|err]; [|discriminate].
  destruct (os.exists_path (filepath.Join dir rpc.socketName) w) eqn:Hsock; [discriminate|].
  destruct (Open _ w) as [[store|err] w1] eqn:EOpen; [|discriminate].
  assert (holds_database (filepath.Join dir "db.sqlite") w1) as Hdb1.
  { unfold Open in EOpen. unfold holds_database.
    destruct (os.fs w !! filepath.Join dir "db.sqlite") as [[[|c data]| | |t]|] eqn:E;
      simplify_eq; simpl; rewrite ?lookup_insert_eq; eauto. }
  pose proof (ImportFromJSONL_keeps_database
                (sync.New store (filepath.Join dir "issues.jsonl")) _ w1 Hdb1) as Hdb2.
  destruct (sync.ImportFromJSONL _ w1) as [[err syncer] w2]. simpl in Hdb2.
  match goal with |- context [rpc.Listen sys _ ?w3] => set (w3' := w3) end.
  assert (holds_database (filepath.Join dir "db.sqlite") w3') as [t3 Hdb3]
    by (unfold w3'; destruct err; exact Hdb2).
  unfold rpc.Listen. destruct (rpc.listen_error sys); [discriminate|].
  destruct (os.exists_path _ w3'); [discriminate|].
  unfold rpc.WriteFile. destruct (rpc.pid_write_error sys) as [[e|written e]|].
  { destruct (rpc.Listener_Close _ _). discriminate. }
  { destruct (rpc.Listener_Close _ _). discriminate. }
  destruct (rpc.lock_write_error sys) as [[e|written e]|].
  { destruct (rpc.Listener_Close _ _). discriminate. }
  { destruct (rpc.Listener_Close _ _). discriminate. }
  assert (filepath.Join dir rpc.lockFileName ≠ filepath.Join dir rpc.socketName) as N1
    by distinct_names.
  assert (filepath.Join dir rpc.lockFileName ≠ filepath.Join dir rpc.pidFileName) as N2
    by distinct_names.
  assert (filepath.Join dir rpc.pidFileName ≠ filepath.Join dir rpc.socketName) as N3
    by distinct_names.
  assert (filepath.Join dir rpc.lockFileName ≠ filepath.Join dir "db.sqlite") as N4
    by distinct_names.
  assert (filepath.Join dir rpc.pidFileName ≠ filepath.Join dir "db.sqlite") as N5
    by distinct_names.
  assert (filepath.Join dir rpc.socketName ≠ filepath.Join dir "db.sqlite") as N6
    by distinct_names.
  intros E.
  assert (∀ (wt : option watch.Watcher) (tw : option watch.TraceWatcher),
            (∀ x, wt = Some x → closed (watch.done x) = false) →
            (∀ x, tw = Some x → closed (watch.trace_done x) = false) →
            running {| rpc.dir := dir; rpc.interval := interval; rpc.db := store;
                       rpc.syncer := syncer; rpc.watcher := wt; rpc.traceWatcher := tw;
                       rpc.listener := {| rpc.addr := filepath.Join dir rpc.socketName;
                                          rpc.listener_closed := false |};
                       rpc.done := make_chan |}) as Hrun.
  { intros wt tw Hwt Htw. split_and!; [reflexivity|exact Hwt|exact Htw]. }
  split; [reflexivity|].
  destruct (rpc.watch_error sys);
    destruct (os.fs _ !! filepath.Join (filepath.Join dir "..") "test-results") as [[| | |]|];
    try destruct (rpc.trace_watch_error sys);
    injection E as <- <-; unfold holds_database; simpl;
    rewrite ?(lookup_insert_ne _ _ _ _ N1), ?(lookup_insert_ne _ _ _ _ N2),
      ?(lookup_insert_ne _ _ _ _ N3), ?(lookup_insert_ne _ _ _ _ N4),
      ?(lookup_insert_ne _ _ _ _ N5), ?(lookup_insert_ne _ _ _ _ N6), ?lookup_insert_eq;
    (split_and!; [reflexivity|reflexivity|eauto|apply Hrun; intros x [= <-]; reflexivity
                 |reflexivity|reflexivity|eauto|eauto]).
Qed.

(** X19.  A daemon that [StartDaemon] has started is found through its PID
    file: [DaemonStatus] reads the id of the daemon's process back and
    reports it running exactly when that process takes signal 0;
    [StopDaemon] sends SIGTERM to that process and to no other, returns no
    error exactly when the signal is taken, and changes no file, so that
    the markers are left for the daemon to remove.  A second [StartDaemon]
    in the same directory, with whatever interval, fails and changes
    nothing. *)
Theorem started_daemon_is_found (sys : rpc.Sys) (dir intervalStr : string) (w w' : World)
    (d : rpc.Daemon) (signal : Z → Z → option error) :
  rpc.StartDaemon sys dir intervalStr w = (Ok d, w') →
  - 2 ^ 63 ≤ rpc.Getpid sys ≤ 2 ^ 63 - 1 →
  rpc.DaemonStatus signal dir w'
  = (if signal (rpc.Getpid sys) 0 is None then (true, rpc.Getpid sys) else (false, 0))
  ∧ (rpc.StopDaemon signal dir w').1.2 = [(rpc.Getpid sys, rpc.SIGTERM)]
  ∧ ((rpc.StopDaemon signal dir w').1.1 = None
     ↔ signal (rpc.Getpid sys) rpc.SIGTERM = None)
  ∧ os.fs (rpc.StopDaemon signal dir w').2 = os.fs w'
  ∧ (∀ sys' intervalStr', ∃ err, rpc.StartDaemon sys' dir intervalStr' w' = (Err err, w')).
Proof.
  intros Hstart Hpid.
  destruct (StartDaemon_Ok _ _ _ _ _ _ Hstart) as (_ & Hsock & Hpidfile & _).
  unfold rpc.DaemonStatus, rpc.StopDaemon, os.read_file.
  rewrite Hpidfile, (Atoi_Itoa _ Hpid).
  split_and!.
  - destruct (signal _ 0); reflexivity.
  - destruct (signal _ rpc.SIGTERM); reflexivity.
  - destruct (signal _ rpc.SIGTERM); simpl; split; congruence.
  - destruct (signal _ rpc.SIGTERM); reflexivity.
  - intros sys' intervalStr'. unfold rpc.StartDaemon.
    destruct (rpc.ParseDuration intervalStr') as [interval|err]; [|eauto].
    unfold os.exists_path. rewrite Hsock. rewrite bool_decide_eq_true_2 by eauto. eauto.
Qed.

Lemma StartDaemon_syncer (sys : rpc.Sys) (dir intervalStr : string) (w w' : World)
    (d : rpc.Daemon) :
  rpc.StartDaemon sys dir intervalStr w = (Ok d, w') →
  path (sync.store (rpc.syncer d)) = filepath.Join dir "db.sqlite"
  ∧ sync.jsonlPath (rpc.syncer d) = filepath.Join dir "issues.jsonl".
Proof.
  unfold rpc.StartDaemon.
  destruct (rpc.ParseDuration intervalStr) as [interval|err]; [|discriminate].
  destruct (os.exists_path (filepath.Join dir rpc.socketName) w); [discriminate|].
  destruct (Open _ w) as [[store|err] w1] eqn:EOpen; [|discriminate].
  assert (path store = filepath.Join dir "db.sqlite") as Hstore.
  { unfold Open in EOpen.
    destruct (os.fs w !! _) as [[[|c data]| | |]|]; by simplify_eq. }
  destruct (ImportFromJSONL_outcome (sync.New store (filepath.Join dir "issues.jsonl")) w1)
    as [_ [t Hs]].
  destruct (sync.ImportFromJSONL _ w1) as [[err syncer] w2]. simpl in Hs. subst syncer.
  destruct (rpc.Listen sys _ _) as [[l|e] w3]; [|discriminate].
  destruct (rpc.WriteFile (rpc.pid_write_error sys) _ _ w3) as [[e|] w4].
  { destruct (rpc.Listener_Close _ _). discriminate. }
  destruct (rpc.WriteFile (rpc.lock_write_error sys) _ _ w4) as [[e|] w5].
  { destruct (rpc.Listener_Close _ _). discriminate. }
  destruct (rpc.watch_error sys);
    destruct (os.fs _ !! filepath.Join (filepath.Join dir "..") "test-results") as [[| | |]|];
    try destruct (rpc.trace_watch_error sys);
    intros [= <- _]; done.
Qed.

Lemma Rename_lookup (old new q : string) (w : World) :
  q ≠ old → q ≠ new → os.fs (os.Rename old new w) !! q = os.fs w !! q.
Proof.
  intros Ho Hn. unfold os.Rename. destruct (os.fs w !! old); [|done]. simpl.
  rewrite lookup_insert_ne, lookup_delete_ne by done. done.
Qed.

Lemma Append_lookup (p data q : string) (w : World) :
  q ≠ p → os.fs (os.Append p data w) !! q = os.fs w !! q.
Proof.
  intros Hq. unfold os.Append. destruct (os.fs w !! p) as [[old| | |t]|]; try done.
  simpl. by rewrite lookup_insert_ne.
Qed.

(** An export writes to its temporary file and to the log, and to nothing
    else. *)
Lemma ExportToJSONL_frame (env : sync.Env) (s : sync.Syncer) (w : World) (q : string) :
  q ≠ sync.tmpPath env (filepath.Dir (sync.jsonlPath s)) →
  q ≠ sync.jsonlPath s →
  os.fs (sync.ExportToJSONL env s w).2 !! q = os.fs w !! q.
Proof.
  intros Htmp Hlog. unfold sync.ExportToJSONL.
  destruct (GetAllTandas _ w) as [tandas|err]; [|done].
  unfold sync.createTemp. destruct (sync.fails env sync.CreateTemp); [done|].
  destruct (os.exists_path _ w); [done|].
  destruct (sync.write_tandas env 0 tandas "") as [buffered|err]; simpl.
  2: { rewrite Remove_lookup, decide_False by done. simpl. by rewrite lookup_insert_ne. }
  destruct (sync.fails env sync.Flush); simpl.
  { rewrite Remove_lookup, decide_False by done. simpl. by rewrite lookup_insert_ne. }
  destruct (sync.fails env sync.Close); simpl.
  { rewrite Remove_lookup, decide_False, Append_lookup by done. simpl.
    by rewrite lookup_insert_ne. }
  destruct (sync.fails env sync.Rename); simpl.
  { rewrite Remove_lookup, decide_False, Append_lookup by done. simpl.
    by rewrite lookup_insert_ne. }
  rewrite Rename_lookup, Append_lookup by done. simpl. by rewrite lookup_insert_ne.
Qed.

(** The temporary file of an export of the daemon is none of the files the
    daemon keeps in its directory under a name that does not end in [p]. *)
Lemma tmpPath_ne (env : sync.Env) (dir tmpDir name : string) :
  plain name → ends_in "p" name = false →
  filepath.Join dir name ≠ sync.tmpPath env tmpDir.
Proof.
  intros Hp He E. apply (f_equal (ends_in "p")) in E.
  rewrite tmpPath_ends_in, Join_ends_in, He in E by done. discriminate E.
Qed.

Lemma launch_on_course (sys : rpc.Sys) (dir intervalStr : string) (w w1 : World)
    (d : rpc.Daemon) :
  rpc.StartDaemon sys dir intervalStr w = (Ok d, w1) →
  on_course sys d (rpc.launch d, w1).
Proof.
  intros Hstart.
  destruct (StartDaemon_Ok _ _ _ _ _ _ Hstart)
    as (_ & Hsock & Hpid & Hlock & (Hdone & Hw & Htw) & Hdir & Hl & _ & Hdb).
  destruct (StartDaemon_syncer _ _ _ _ _ _ Hstart) as [Hstore Hlog].
  unfold on_course, statements_run. simpl. rewrite Hdir, Hl. simpl.
  split_and!; try done. lia.
Qed.

Ltac course :=
  unfold on_course, statements_run; cbn -[Nat.leb];
  repeat match goal with
         | E : rpc.state ?p = _ |- context [rpc.state ?p] => rewrite E
         | E : rpc.accept ?p = _ |- context [rpc.accept ?p] => rewrite E
         | E : rpc.handler ?p = _ |- context [rpc.handler ?p] => rewrite E
         end;
  cbn -[Nat.leb].

Ltac settle := split_and!; try done; try lia; try (intros; congruence).

Lemma step_on_course (sys : rpc.Sys) (d0 : rpc.Daemon) (e : rpc.event)
    (pw : rpc.Process * World) :
  on_course sys d0 pw → on_course sys d0 (rpc.step e pw).
Proof.
  destruct pw as [p w]. intros Hinv. unfold rpc.step.
  destruct (rpc.state p) eqn:Est; [|exact Hinv|exact Hinv].
  unfold on_course, statements_run in Hinv.
  destruct Hinv as ((Hdir & Hiv & Haddr & Hstore & Hlog) & (Hdone & Hwt & Htw & Hlc & Hsc)
                    & (Hsock & Hpid & Hlock & Hdb) & Hacc & Hst).
  rewrite Est in Hst.
  destruct e as [| | |tick| |faults path].
  - course. done.
  - unfold rpc.handle_signal. destruct (rpc.handler p) as [k|] eqn:Eh; simpl in Hst.
    2: { destruct (rpc.sigChan p); course; done. }
    assert (∀ a b, plain a → plain b → a ≠ b → ∀ w' : World,
              os.fs (os.Remove (filepath.Join (rpc.dir d0) a) w')
              !! filepath.Join (rpc.dir d0) b
              = os.fs w' !! filepath.Join (rpc.dir d0) b) as Hother.
    { intros a b Ha Hb Hab w'. rewrite Remove_lookup, decide_False; [done|].
      apply Join_ne; done. }
    assert (∀ a (w' : World), os.fs (os.Remove a w') !! a = None) as Hgone.
    { intros a w'. rewrite Remove_lookup, decide_True; done. }
    cbn -[Nat.leb] in Hdone, Hwt, Htw, Hlc, Hsc, Hpid, Hlock.
    destruct k as [|[|[|[|[|[|[|[|[|[|[|k]]]]]]]]]]]; [..|lia]; cbn in Hdone, Hwt, Htw, Hlc, Hsc, Hpid, Hlock;
      unfold rpc.Shutdown.
    + course. settle.
    + unfold close. rewrite Hdone. course. settle.
    + destruct (rpc.watcher (rpc.daemon p)) as [wt|] eqn:Ew; [|course; settle].
      unfold watch.Stop, close. rewrite (Hwt wt eq_refl). course.
      settle. by intros ? [= <-].
    + destruct (rpc.traceWatcher (rpc.daemon p)) as [tw|] eqn:Ew; [|course; settle].
      unfold watch.TraceWatcher_Stop, close. rewrite (Htw tw eq_refl). course.
      settle. by intros ? [= <-].
    + unfold rpc.Listener_Close. rewrite Hlc, Haddr. course. unfold holds_database.
      rewrite Hgone, !Hother by (plain_name || discriminate). settle.
    + course. settle.
    + course. unfold holds_database.
      rewrite Hdir, Hgone, !Hother by (plain_name || discriminate). settle.
    + course. unfold holds_database.
      rewrite Hdir, Hgone, !Hother by (plain_name || discriminate). settle.
    + course. unfold holds_database.
      rewrite Hdir, Hgone, !Hother by (plain_name || discriminate). settle.
    + course. settle.
    + course. settle.
  - unfold rpc.acceptConnections. destruct (rpc.accept p) eqn:Ea.
    + destruct (rpc.listener_closed (rpc.listener (rpc.daemon p))) eqn:Elc; course;
        rewrite ?Elc; done.
    + destruct (closed (rpc.done (rpc.daemon p))) eqn:Ed; course; rewrite ?Ed; [|done].
      split_and!; try done. by apply Hacc.
  - unfold rpc.syncLoop. destruct (rpc.ticker p) as [[|]|] eqn:Et.
    + destruct tick as [env|].
      * destruct (rpc.store_closed p) eqn:Esc; [course; rewrite ?Esc; done|].
        destruct Hdb as [t Hdb].
        destruct (ExportToJSONL_outcome env (rpc.syncer (rpc.daemon p)) w) as [_ [t' Hs]].
        pose proof (ExportToJSONL_frame env (rpc.syncer (rpc.daemon p)) w) as Hframe.
        rewrite Hlog in Hframe.
        assert (∀ name, plain name → ends_in "p" name = false → name ≠ "issues.jsonl" →
                  os.fs (sync.ExportToJSONL env (rpc.syncer (rpc.daemon p)) w).2
                  !! filepath.Join (rpc.dir d0) name
                  = os.fs w !! filepath.Join (rpc.dir d0) name) as Hkept.
        { intros name Hp He Hn. apply Hframe; [by apply tmpPath_ne|].
          apply Join_ne; [done|plain_name|done]. }
        clear Hframe.
        destruct (sync.ExportToJSONL env (rpc.syncer (rpc.daemon p)) w) as [[err s'] w'].
        simpl in Hs, Hkept. subst s'.
        destruct err as [err|]; course; rewrite ?Esc; unfold holds_database;
          rewrite !Hkept by (plain_name || reflexivity || discriminate);
          (split_and!; try done; by exists t).
      * destruct (closed (rpc.done (rpc.daemon p))) eqn:Ed; course; rewrite ?Ed; done.
    + course; done.
    + unfold rpc.NewTicker.
      destruct (Z.leb_spec (rpc.interval (rpc.daemon p)) 0); course; [|done].
      split_and!; try done. lia.
  - unfold rpc.watcherCallback.
    destruct (rpc.watcher (rpc.daemon p)) as [wt|] eqn:Ew; [|course; settle].
    rewrite <- Ew in Hwt.
    destruct (rpc.store_closed p) eqn:Esc; [course; rewrite ?Esc; settle|].
    destruct (ImportFromJSONL_outcome (rpc.syncer (rpc.daemon p)) w) as [_ [t' Hs]].
    pose proof (ImportFromJSONL_frame (rpc.syncer (rpc.daemon p)) w) as [Hframe _].
    pose proof (ImportFromJSONL_keeps_database (rpc.syncer (rpc.daemon p)) _ w Hdb) as Hdb'.
    rewrite Hstore in Hframe.
    assert (∀ name, plain name → name ≠ "db.sqlite" →
              os.fs (sync.ImportFromJSONL (rpc.syncer (rpc.daemon p)) w).2
              !! filepath.Join (rpc.dir d0) name
              = os.fs w !! filepath.Join (rpc.dir d0) name) as Hkept.
    { intros name Hp Hn. apply Hframe, Join_ne; [done|plain_name|done]. }
    clear Hframe.
    destruct (sync.ImportFromJSONL (rpc.syncer (rpc.daemon p)) w) as [[err s'] w'].
    simpl in Hs, Hkept, Hdb'. subst s'.
    course. rewrite ?Esc, !Hkept by (plain_name || discriminate). settle.
  - unfold rpc.traceWatcherCallback.
    destruct (rpc.traceWatcher (rpc.daemon p)) as [tw|] eqn:Ew; [|course; settle].
    rewrite <- Ew in Htw. unfold rpc.traceCallback.
    destruct (appendTraceInbox_frame faults (filepath.Join (rpc.dir (rpc.daemon p))
                                               rpc.traceInboxName)
                (filepath.Join (rpc.dir (rpc.daemon p)) "..") path w) as [Hframe _].
    rewrite Hdir in Hframe.
    assert (∀ name, plain name → name ≠ rpc.traceInboxName →
              os.fs (rpc.appendTraceInbox faults
                       (filepath.Join (rpc.dir d0) rpc.traceInboxName)
                       (filepath.Join (rpc.dir d0) "..") path w)
              !! filepath.Join (rpc.dir d0) name
              = os.fs w !! filepath.Join (rpc.dir d0) name) as Hkept.
    { intros name Hp Hn. apply Hframe, Join_ne; [done|plain_name|done]. }
    clear Hframe. destruct Hdb as [t Hdb].
    course. rewrite Hdir. unfold holds_database.
    rewrite !Hkept by (plain_name || discriminate). settle. by exists t.
Qed.

Lemma run_on_course (sys : rpc.Sys) (d0 : rpc.Daemon) (schedule : list rpc.event) :
  ∀ pw, on_course sys d0 pw → on_course sys d0 (rpc.run schedule pw).
Proof.
  unfold rpc.run. induction schedule as [|e schedule IH]; intros pw Hinv; [exact Hinv|].
  simpl. apply IH, step_on_course, Hinv.
Qed.

(** X20.  However the goroutines of a daemon to which no client connects
    are scheduled, whenever its tickers and the callbacks of its watchers
    run and however many signals it receives, its process does not panic,
    unless its interval is not positive, and exits with no status but 0.  Once it has
    exited, the loops have been signalled and the socket is gone, while the
    PID file is either gone or still names the process, which is the case
    when the main goroutine returned before [Shutdown] came to remove it.
    Either way no daemon is found in the directory once the process no
    longer takes signals: [DaemonStatus] reports none, [StopDaemon] fails,
    for want of a PID file or of a process to signal, and changes nothing,
    and a daemon can be started again, with the same interval, on a system
    whose socket and marker files can be written. *)
Theorem stopped_daemon_can_restart (sys sys' : rpc.Sys) (dir intervalStr : string)
    (w w1 w2 : World) (d : rpc.Daemon) (schedule : list rpc.event) (p : rpc.Process)
    (signal : Z → Z → option error) :
  rpc.StartDaemon sys dir intervalStr w = (Ok d, w1) →
  - 2 ^ 63 ≤ rpc.Getpid sys ≤ 2 ^ 63 - 1 →
  rpc.run schedule (rpc.launch d, w1) = (p, w2) →
  (∀ msg, rpc.state p = rpc.Crashed msg → rpc.interval d ≤ 0)
  ∧ (∀ code, rpc.state p = rpc.Exited code →
       code = 0
       ∧ closed (rpc.done (rpc.daemon p)) = true
       ∧ os.fs w2 !! filepath.Join dir rpc.socketName = None
       ∧ (os.fs w2 !! filepath.Join dir rpc.pidFileName = None
          ∨ os.fs w2 !! filepath.Join dir rpc.pidFileName
            = Some (os.Regular (strconv.Itoa (rpc.Getpid sys))))
       ∧ (signal (rpc.Getpid sys) 0 ≠ None →
          rpc.DaemonStatus signal dir w2 = (false, 0))
       ∧ (∀ e, signal (rpc.Getpid sys) rpc.SIGTERM = Some e →
            rpc.StopDaemon signal dir w2
            = (Some "daemon not running (no PID file)", [], w2)
            ∨ rpc.StopDaemon signal dir w2
              = (Some (wrap "failed to send signal" e),
                 [(rpc.Getpid sys, rpc.SIGTERM)], w2))
       ∧ (rpc.listen_error sys' = None → rpc.pid_write_error sys' = None →
          rpc.lock_write_error sys' = None →
          ∃ d' w3, rpc.StartDaemon sys' dir intervalStr w2 = (Ok d', w3))).
Proof.
  intros Hstart Hrange Hrun.
  pose proof (run_on_course sys d schedule _ (launch_on_course _ _ _ _ _ _ Hstart)) as Hinv.
  rewrite Hrun in Hinv. unfold on_course in Hinv.
  destruct (StartDaemon_Ok _ _ _ _ _ _ Hstart)
    as (_ & _ & _ & _ & _ & Hdir & _ & [interval Hiv] & _).
  rewrite Hdir in Hinv.
  destruct Hinv as (_ & (Hdone & _ & _ & Hlc & _) & (Hsock & Hpid & _ & [t Hdb]) & _ & Hst).
  split.
  { intros msg Hc. rewrite Hc in Hst. apply Hst. }
  intros code He. rewrite He in Hst. destruct Hst as [-> Hclosed].
  specialize (Hsock Hclosed). rewrite Hclosed in Hlc.
  split; [done|]. split.
  { rewrite Hdone. symmetry in Hlc. apply Nat.leb_le in Hlc. apply Nat.leb_le. lia. }
  split; [exact Hsock|].
  assert (os.fs w2 !! filepath.Join dir rpc.pidFileName = None
          ∨ os.fs w2 !! filepath.Join dir rpc.pidFileName
            = Some (os.Regular (strconv.Itoa (rpc.Getpid sys)))) as Hfile
    by (rewrite Hpid; destruct (8 <=? statements_run p)%nat; auto).
  split; [exact Hfile|].
  unfold rpc.DaemonStatus, rpc.StopDaemon, os.read_file. split; [|split].
  - intros Hgone. destruct Hfile as [-> | ->]; [done|].
    rewrite (Atoi_Itoa _ Hrange). by destruct (signal _ 0).
  - intros e Hfails. destruct Hfile as [-> | ->]; [by left|].
    rewrite (Atoi_Itoa _ Hrange), Hfails. by right.
  - intros Hlisten Hpidw Hlockw.
    unfold rpc.StartDaemon. rewrite Hiv.
    unfold os.exists_path at 1. rewrite Hsock.
    rewrite bool_decide_eq_false_2 by (intros [? ?]; discriminate).
    unfold Open. rewrite Hdb.
    pose proof (ImportFromJSONL_frame
                  (sync.New {| path := filepath.Join dir "db.sqlite" |}
                     (filepath.Join dir "issues.jsonl")) w2) as [Hframe _].
    destruct (sync.ImportFromJSONL _ w2) as [[err syncer] w3]. simpl in Hframe.
    assert (os.fs w3 !! filepath.Join dir rpc.socketName = None) as Hsock3.
    { rewrite Hframe; [exact Hsock|]. distinct_names. }
    match goal with |- context [rpc.Listen sys' _ ?w4] => set (w4' := w4) end.
    assert (os.exists_path (filepath.Join dir rpc.socketName) w4' = false) as Hex.
    { unfold os.exists_path. apply bool_decide_eq_false_2.
      unfold w4'. destruct err; simpl; rewrite Hsock3; intros [? ?]; discriminate. }
    unfold rpc.Listen. rewrite Hlisten, Hex.
    unfold rpc.WriteFile. rewrite Hpidw, Hlockw.
    destruct (rpc.watch_error sys');
      destruct (os.fs _ !! filepath.Join (filepath.Join dir "..") "test-results")
        as [[| | |]|];
      try destruct (rpc.trace_watch_error sys'); eauto.
Qed.

Ltac markers :=
  split_and!; intros;
  repeat (case_decide; [try done|try done]);
  rewrite ?lookup_insert_eq, ?lookup_insert_ne in * by done;
  simplify_eq; eauto 10.

(** X21.  A [StartDaemon] that fails takes the socket away again: the
    socket path is absent after the call.  It does not always take the PID
    file and the lock file away.  When a later step fails, the PID file is
    removed; but a PID file or a lock file whose own write fails after the
    file has been created is left behind, with what was written of it.
    Nothing else puts a PID file or a lock file where there was none. *)
Theorem failed_start_leaves_no_marker (sys : rpc.Sys) (dir intervalStr : string)
    (w w' : World) (err : error) :
  rpc.StartDaemon sys dir intervalStr w = (Err err, w') →
  let socketPath := filepath.Join dir rpc.socketName in
  let pidPath := filepath.Join dir rpc.pidFileName in
  let lockPath := filepath.Join dir rpc.lockFileName in
  (os.fs w !! socketPath = None → os.fs w' !! socketPath = None)
  ∧ (os.fs w !! pidPath = None →
     ∀ n, os.fs w' !! pidPath = Some n →
          ∃ written e,
            rpc.pid_write_error sys = Some (rpc.FailsAtWrite written e)
            ∧ err = wrap "failed to write PID file" e
            ∧ n = os.Regular (String.substring 0 written (strconv.Itoa (rpc.Getpid sys))))
  ∧ (os.fs w !! lockPath = None →
     ∀ n, os.fs w' !! lockPath = Some n →
          ∃ written e data,
            rpc.lock_write_error sys = Some (rpc.FailsAtWrite written e)
            ∧ err = wrap "failed to write lock file" e
            ∧ n = os.Regular (String.substring 0 written data)
            ∧ os.fs w' !! pidPath = None).
Proof.
  unfold rpc.StartDaemon.
  destruct (rpc.ParseDuration intervalStr) as [interval|e];
    [|intros [= _ <-]; split_and!; [done|congruence|congruence]].
  destruct (os.exists_path (filepath.Join dir rpc.socketName) w) eqn:Hsock;
    [intros [= _ <-]; split_and!; [done|congruence|congruence]|].
  assert (filepath.Join dir rpc.lockFileName ≠ filepath.Join dir rpc.socketName) as N1
    by distinct_names.
  assert (filepath.Join dir rpc.lockFileName ≠ filepath.Join dir rpc.pidFileName) as N2
    by distinct_names.
  assert (filepath.Join dir rpc.pidFileName ≠ filepath.Join dir rpc.socketName) as N3
    by distinct_names.
  assert (filepath.Join dir rpc.lockFileName ≠ filepath.Join dir "db.sqlite") as N4
    by distinct_names.
  assert (filepath.Join dir rpc.pidFileName ≠ filepath.Join dir "db.sqlite") as N5
    by distinct_names.
  assert (filepath.Join dir rpc.socketName ≠ filepath.Join dir "db.sqlite") as N6
    by distinct_names.
  intros Hstart.
  pose proof (Open_frame (filepath.Join dir "db.sqlite") _ w N6) as Hs1.
  pose proof (Open_frame (filepath.Join dir "db.sqlite") _ w N5) as Hp1.
  pose proof (Open_frame (filepath.Join dir "db.sqlite") _ w N4) as Hl1.
  destruct (Open _ w) as [[store|e] w1] eqn:EOpen; simpl in Hs1, Hp1, Hl1.
  2: { injection Hstart as _ <-. rewrite Hs1, Hp1, Hl1. split_and!; [done|congruence|congruence]. }
  assert (store = {| path := filepath.Join dir "db.sqlite" |}) as ->.
  { unfold Open in EOpen. destruct (os.fs w !! _) as [[[|c data]| | |]|]; congruence. }
  pose proof (ImportFromJSONL_frame
                (sync.New {| path := filepath.Join dir "db.sqlite" |}
                   (filepath.Join dir "issues.jsonl")) w1) as [Hframe _].
  pose proof (Hframe _ N6) as Hs2. pose proof (Hframe _ N5) as Hp2.
  pose proof (Hframe _ N4) as Hl2. clear Hframe.
  destruct (sync.ImportFromJSONL _ w1) as [[e syncer] w2]. simpl in Hs2, Hp2, Hl2.
  revert Hstart.
  match goal with |- context [rpc.Listen sys _ ?w3] => set (w3' := w3) end.
  assert (os.fs w3' !! filepath.Join dir rpc.socketName
          = os.fs w !! filepath.Join dir rpc.socketName) as Hs3
    by (unfold w3'; destruct e; simpl; congruence).
  assert (os.fs w3' !! filepath.Join dir rpc.pidFileName
          = os.fs w !! filepath.Join dir rpc.pidFileName) as Hp3
    by (unfold w3'; destruct e; simpl; congruence).
  assert (os.fs w3' !! filepath.Join dir rpc.lockFileName
          = os.fs w !! filepath.Join dir rpc.lockFileName) as Hl3
    by (unfold w3'; destruct e; simpl; congruence).
  clearbody w3'. clear Hs1 Hp1 Hl1 Hs2 Hp2 Hl2 EOpen. rewrite <- Hs3, <- Hp3, <- Hl3.
  unfold rpc.Listen. destruct (rpc.listen_error sys).
  { intros [= _ <-]. split_and!; [done|congruence|congruence]. }
  destruct (os.exists_path _ w3') eqn:Hex.
  { intros [= _ <-]. split_and!; [done|congruence|congruence]. }
  apply exists_path_false in Hex.
  unfold rpc.WriteFile, rpc.Listener_Close. simpl.
  destruct (rpc.pid_write_error sys) as [[e1|written e1]|].
  { intros [= _ <-]. rewrite !Remove_lookup. simpl. markers. }
  { intros [= <- <-]. rewrite !Remove_lookup. simpl. markers. }
  destruct (rpc.lock_write_error sys) as [[e2|written e2]|].
  { intros [= _ <-]. rewrite !Remove_lookup. simpl. rewrite ?Remove_lookup. simpl. markers. }
  { intros [= <- <-]. rewrite !Remove_lookup. simpl. rewrite ?Remove_lookup. simpl. markers. }
  destruct (rpc.watch_error sys);
    destruct (os.fs _ !! filepath.Join (filepath.Join dir "..") "test-results") as [[| | |]|];
    try destruct (rpc.trace_watch_error sys); discriminate.
Qed.

End Lifecycle.

Section LifecycleScenario.

Import reference.

Lemma started_daemon_is_found_witness :
  rpc.DaemonStatus scenario.alive scenario.dir scenario.started = (true, 4242)
  ∧ rpc.StopDaemon scenario.alive scenario.dir scenario.started
    = (None, [(4242, 15)],
       os.print ("Sent SIGTERM to daemon (PID: 4242)" ++ newline) scenario.started).
Proof.
  destruct (started_daemon_is_found scenario.sys scenario.dir "5s" scenario.fresh
              scenario.started scenario.daemon scenario.alive)
    as (Hstatus & _).
  - apply scenario_daemon_started.
  - split; apply Z.leb_le; evaluate.
  - split; [exact Hstatus|evaluate].
Defined.

Lemma stopped_daemon_can_restart_witness :
  let '(p, stopped) :=
    rpc.run (rpc.Signalled :: repeat rpc.Handler 6 ++ [rpc.Main; rpc.Main])
      (rpc.launch scenario.daemon, scenario.started) in
  rpc.state p = rpc.Exited 0
  ∧ rpc.DaemonStatus scenario.gone scenario.dir stopped = (false, 0)
  ∧ ∃ d' w3, rpc.StartDaemon scenario.sys scenario.dir "5s" stopped = (Ok d', w3).
Proof.
  destruct (rpc.run _ _) as [p stopped] eqn:Hrun.
  destruct (stopped_daemon_can_restart scenario.sys scenario.sys scenario.dir "5s"
              scenario.fresh scenario.started stopped scenario.daemon
              (rpc.Signalled :: repeat rpc.Handler 6 ++ [rpc.Main; rpc.Main]) p
              scenario.gone scenario_daemon_started)
    as (_ & Hexited); [split; apply Z.leb_le; evaluate|exact Hrun|].
  assert (rpc.state p = rpc.Exited 0) as Hstate.
  { change p with (p, stopped).1. rewrite <- Hrun. evaluate. }
  destruct (Hexited 0 Hstate) as (_ & _ & _ & _ & Hstatus & _ & Hrestart).
  split; [exact Hstate|]. split; [by apply Hstatus|]. by apply Hrestart.
Defined.

Lemma failed_start_leaves_no_marker_witness :
  let failed := rpc.StartDaemon scenario.disk_full scenario.dir "5s" scenario.fresh in
  failed.1 = Err "failed to write PID file: no space left on device"
  ∧ os.fs failed.2 !! ".tandas/td.sock" = None
  ∧ os.fs failed.2 !! ".tandas/daemon.pid" = Some (os.Regular "42").
Proof.
  intros failed.
  assert (rpc.StartDaemon scenario.disk_full scenario.dir "5s" scenario.fresh
          = (Err "failed to write PID file: no space left on device", failed.2)) as Hfailed
    by evaluate.
  split; [evaluate|].
  destruct (failed_start_leaves_no_marker _ _ _ _ _ _ Hfailed) as (Hsocket & _).
  split; [apply Hsocket|]; evaluate.
Defined.

End LifecycleScenario.
